(** * Admission control: rule engine and event-sourced rate limiter

    A shallow embedding of the decision pipeline of the rate-limiter
    repository: the rule evaluator and rule engine (package [domain] and
    [engine] of rule-engine), the rate-limit aggregate, the command handler,
    the in-memory event store, rule repository and read model (packages
    [domain], [handlers], [infrastructure] of rate-limiter), the service
    [RateLimiterService] and the integrated service
    [IntegratedRateLimiterService].

    Conventions of the embedding.
    - Go's [int] is the 64-bit two's complement integer: a [Z] with the
      wrap-around of [+], [-] and [*] written out ([int_add], [int_sub],
      [int_mul]).
    - A [time.Time] is an instant: the number of nanoseconds since the zero
      Time (January 1, year 1, 00:00:00 UTC), so [time.Time{}] is [0]. A
      [time.Duration] is a number of nanoseconds.
    - [time.Now()] is an argument [now] of every handler: the wall clock is
      read once per command or query, so the several [time.Now()] calls
      inside one handler see the same instant.
    - An [interface{}] value is a [GoValue]; a run-time panic is the result
      [None] of the functions that can raise one.
    - An [error] is a value of type [error]; [fmt.Errorf("...: %w", err)]
      is [ErrWrap].
    - Locks are not modelled: every operation runs atomically on the state
      it is given. *)

From Stdlib Require Import ZArith Lia.
From Stdlib Require PrimFloat FloatOps SpecFloat Uint63.
From stdpp Require Import gmap strings list pretty.

Open Scope Z_scope.
Set Warnings "-register-all".

(** ** Go integers *)

Definition int_min : Z := - 2 ^ 63.
Definition int_max : Z := 2 ^ 63 - 1.

(** The value of a 64-bit two's complement integer holding [z]. *)
Definition wrap_int (z : Z) : Z := (z + 2 ^ 63) mod 2 ^ 64 - 2 ^ 63.

Definition int_add (a b : Z) : Z := wrap_int (a + b).
Definition int_sub (a b : Z) : Z := wrap_int (a - b).
Definition int_mul (a b : Z) : Z := wrap_int (a * b).

(** [len(l)] as a Go [int]. *)
Definition len {A} (l : list A) : Z := Z.of_nat (length l).

(** ** Floating point ([float64], and [float32] as the [float64] it widens to) *)

Definition float : Set := PrimFloat.float.

Definition float_of_nonneg (z : Z) : float := PrimFloat.of_uint63 (Uint63.of_Z z).

(** [float64(v)] for an [int] or [int64] [v]: round to nearest. *)
Definition float64_of_int (z : Z) : float :=
  if z =? int_min then
    PrimFloat.opp (PrimFloat.mul (float_of_nonneg (2 ^ 62)) (float_of_nonneg 2))
  else if z <? 0 then PrimFloat.opp (float_of_nonneg (- z))
  else float_of_nonneg z.

(** [int(f)] and [int64(f)]: truncation toward zero; outside the range of
    [int] (and for NaN) the amd64 result, the least [int]. *)
Definition int_of_float64 (f : float) : Z :=
  match FloatOps.Prim2SF f with
  | SpecFloat.S754_zero _ => 0
  | SpecFloat.S754_finite s m e =>
      let v := if 0 <=? e then Z.pos m * 2 ^ e else Z.pos m / 2 ^ (- e) in
      let v := if s then - v else v in
      if (int_min <=? v) && (v <=? int_max) then v else int_min
  | _ => int_min
  end.

(** ** Time *)

Definition Time := Z.
Definition Duration := Z.

Definition Nanosecond : Duration := 1.
Definition Second : Duration := 1000000000.
Definition Minute : Duration := 60 * Second.
Definition Hour : Duration := 60 * Minute.

Definition zeroTime : Time := 0.

Definition After (t u : Time) : bool := u <? t.
Definition Before (t u : Time) : bool := t <? u.
Definition Equal (t u : Time) : bool := t =? u.
Definition Add (t : Time) (d : Duration) : Time := t + d.

(** [t.Sub(u)]: the difference, saturated to the range of a Duration. *)
Definition Sub (t u : Time) : Duration := Z.max int_min (Z.min int_max (t - u)).

(** [time.Until(t)] at the instant [now]. *)
Definition Until (now t : Time) : Duration := Sub t now.

(** [t.Truncate(d)]: [t] rounded down to a multiple of [d] since the zero
    Time; [t] itself when [d <= 0]. *)
Definition Truncate (t : Time) (d : Duration) : Time :=
  if d <=? 0 then t else t - t mod d.

(** [t.UnixNano()]: nanoseconds since January 1, 1970 UTC, as an [int64]. *)
Definition UnixNano (t : Time) : Z := wrap_int (t - 62135596800 * Second).

(** [d.Seconds()]. *)
Definition Seconds (d : Duration) : float :=
  PrimFloat.add (float64_of_int (Z.quot d Second))
                (PrimFloat.div (float64_of_int (Z.rem d Second))
                               (float_of_nonneg Second)).

(** [fmt.Sprintf(prefix + "%d", n)]. *)
Definition sprintf_d (prefix : string) (n : Z) : string := prefix +:+ pretty n.

(** ** Dynamic values ([interface{}]) *)

(** The dynamic types that reach the rule evaluator: what
    [encoding/json] decodes into an [interface{}] (nil, bool, float64,
    string, []interface{}, map[string]interface{}), what Go code stores in
    a condition or in action parameters (int, int64, float32, string,
    time.Time, time.Duration as [VOther]), [VOther] for a value of any
    other comparable type, given by the name of its type and a
    representation, and [VUncomparable] for a value of any other type that
    is not comparable ([[]string], a function), given by the name of its
    type. *)
Inductive GoValue : Type :=
| VNil
| VBool (b : bool)
| VInt (n : Z)
| VInt64 (n : Z)
| VFloat32 (f : float)
| VFloat64 (f : float)
| VString (s : string)
| VTime (t : Time)
| VSlice (l : list GoValue)
| VMap (m : list (string * GoValue))
| VOther (type_name : string) (repr : Z)
| VUncomparable (type_name : string).

(** [a == b] on interface values: equal when the dynamic types are identical
    and the values equal; a run-time panic ([None]) when the dynamic types
    are identical and not comparable (slices and maps). Floats compare as
    IEEE 754 does. A [VTime] holds the instant of a [time.Time] only, and
    two of them compare by it: this is Go's [==] on two [time.Time] in UTC
    without a monotonic reading (as parsed or decoded); for others, [==]
    also compares the location and the monotonic reading, which a [VTime]
    does not hold, and no statement below depends on the equality of two
    [VTime]. *)
Definition go_eq (a b : GoValue) : option bool :=
  match a, b with
  | VNil, VNil => Some true
  | VBool x, VBool y => Some (Bool.eqb x y)
  | VInt x, VInt y => Some (x =? y)
  | VInt64 x, VInt64 y => Some (x =? y)
  | VFloat32 x, VFloat32 y => Some (PrimFloat.eqb x y)
  | VFloat64 x, VFloat64 y => Some (PrimFloat.eqb x y)
  | VString x, VString y => Some (String.eqb x y)
  | VTime x, VTime y => Some (x =? y)
  | VSlice _, VSlice _ => None
  | VMap _, VMap _ => None
  | VOther t1 r1, VOther t2 r2 => Some (String.eqb t1 t2 && (r1 =? r2))
  | VUncomparable t1, VUncomparable t2 => if String.eqb t1 t2 then None else Some false
  | _, _ => Some false
  end.

(** [a != b]. *)
Definition go_ne (a b : GoValue) : option bool := negb <$> go_eq a b.

(** The numeric types, those the type switches of [compareNumbers] accept. *)
Definition is_numeric (v : GoValue) : bool :=
  match v with
  | VInt _ | VInt64 _ | VFloat32 _ | VFloat64 _ => true
  | _ => false
  end.

(** ** Rule engine: domain (package domain of rule-engine) *)

Definition RuleType := string.

Record RuleCondition := {
  cond_Field : string;
  cond_Operator : string;
  cond_Value : GoValue
}.

(** The condition [field operator value]. *)
Definition condition (field operator : string) (value : GoValue) : RuleCondition :=
  {| cond_Field := field; cond_Operator := operator; cond_Value := value |}.

Record RuleAction := {
  act_Type : string;
  act_Parameters : gmap string GoValue
}.

Record Rule := {
  rule_ID : string;
  rule_Name : string;
  rule_Type : RuleType;
  rule_Description : string;
  rule_Priority : Z;
  rule_Enabled : bool;
  rule_Conditions : list RuleCondition;
  rule_Actions : list RuleAction;
  rule_CreatedAt : Time;
  rule_UpdatedAt : Time;
  rule_CreatedBy : string;
  rule_Tags : list string
}.

Record RuleEvaluationContext := {
  ctx_ClientID : string;
  ctx_Resource : string;
  ctx_IPAddress : string;
  ctx_UserAgent : string;
  ctx_Timestamp : Time;
  ctx_Metadata : gmap string string;
  ctx_RequestData : gmap string GoValue
}.

Record RuleEvaluationResult := {
  res_RuleID : string;
  res_RuleName : string;
  res_Matched : bool;
  res_Actions : list RuleAction;
  res_Metadata : gmap string GoValue;
  res_EvaluatedAt : Time
}.

(** The first switch of [evaluateCondition]: the value of the field, [None]
    when the field is found neither in the context, nor in the metadata,
    nor in the request data. *)
Definition fieldValueOf (field : string) (ctx : RuleEvaluationContext) : option GoValue :=
  if String.eqb field "client_id" then Some (VString (ctx_ClientID ctx))
  else if String.eqb field "resource" then Some (VString (ctx_Resource ctx))
  else if String.eqb field "ip_address" then Some (VString (ctx_IPAddress ctx))
  else if String.eqb field "user_agent" then Some (VString (ctx_UserAgent ctx))
  else if String.eqb field "timestamp" then Some (VTime (ctx_Timestamp ctx))
  else match ctx_Metadata ctx !! field with
       | Some val => Some (VString val)
       | None => ctx_RequestData ctx !! field
       end.

Definition strlen (s : string) : Z := Z.of_nat (String.length s).

(** [s[lo:hi]] for [0 <= lo <= hi <= len(s)]. *)
Definition slice_string (s : string) (lo hi : Z) : string :=
  String.substring (Z.to_nat lo) (Z.to_nat (hi - lo)) s.

(** The loop of [findSubstring] from index [i], with [n] indices left up to
    [len(str) - len(substr)]. *)
Fixpoint findSubstring_loop (n : nat) (str substr : string) (i : Z) : Z :=
  match n with
  | O => -1
  | S n' =>
      if String.eqb (slice_string str i (i + strlen substr)) substr then i
      else findSubstring_loop n' str substr (i + 1)
  end.

Definition findSubstring (str substr : string) : Z :=
  if strlen substr =? 0 then 0
  else if strlen str <? strlen substr then -1
  else findSubstring_loop (Z.to_nat (strlen str - strlen substr + 1)) str substr 0.

Definition containsString (str substr : string) : bool :=
  (strlen substr <=? strlen str) && negb (String.eqb str substr)
  && negb (findSubstring str substr =? -1).

(** [compareNumbers]: the local [ok] is declared and never assigned, so the
    test [!ok] always returns 0 before the two floats are compared. *)
Definition toFloat64 (v : GoValue) : option float :=
  match v with
  | VInt n => Some (float64_of_int n)
  | VInt64 n => Some (float64_of_int n)
  | VFloat64 f => Some f
  | VFloat32 f => Some f
  | _ => None
  end.

Definition compareNumbers (a b : GoValue) : Z :=
  match toFloat64 a with
  | None => 0
  | Some aVal =>
      match toFloat64 b with
      | None => 0
      | Some bVal =>
          let ok := false in
          if negb ok then 0
          else if PrimFloat.ltb bVal aVal then 1
          else if PrimFloat.ltb aVal bVal then -1
          else 0
      end
  end.

(** The loops of the operators [in] and [not_in] over the candidates. *)
Fixpoint in_loop (fieldValue : GoValue) (values : list GoValue) : option bool :=
  match values with
  | [] => Some false
  | val :: rest =>
      match go_eq fieldValue val with
      | None => None
      | Some true => Some true
      | Some false => in_loop fieldValue rest
      end
  end.

Fixpoint not_in_loop (fieldValue : GoValue) (values : list GoValue) : option bool :=
  match values with
  | [] => Some true
  | val :: rest =>
      match go_eq fieldValue val with
      | None => None
      | Some true => Some false
      | Some false => not_in_loop fieldValue rest
      end
  end.

Definition evaluateCondition (r : Rule) (condition : RuleCondition)
    (ctx : RuleEvaluationContext) : option bool :=
  match fieldValueOf (cond_Field condition) ctx with
  | None => Some false
  | Some fieldValue =>
      let op := cond_Operator condition in
      let value := cond_Value condition in
      if String.eqb op "equals" then go_eq fieldValue value
      else if String.eqb op "not_equals" then go_ne fieldValue value
      else if String.eqb op "contains" then
        match fieldValue, value with
        | VString str, VString substr => Some (containsString str substr)
        | _, _ => Some false
        end
      else if String.eqb op "starts_with" then
        match fieldValue, value with
        | VString str, VString prefix =>
            Some ((strlen prefix <=? strlen str)
                  && String.eqb (slice_string str 0 (strlen prefix)) prefix)
        | _, _ => Some false
        end
      else if String.eqb op "ends_with" then
        match fieldValue, value with
        | VString str, VString suffix =>
            Some ((strlen suffix <=? strlen str)
                  && String.eqb (slice_string str (strlen str - strlen suffix) (strlen str)) suffix)
        | _, _ => Some false
        end
      else if String.eqb op "in" then
        match value with
        | VSlice values => in_loop fieldValue values
        | _ => Some false
        end
      else if String.eqb op "not_in" then
        match value with
        | VSlice values => not_in_loop fieldValue values
        | _ => Some false
        end
      else if String.eqb op "greater_than" then Some (0 <? compareNumbers fieldValue value)
      else if String.eqb op "less_than" then Some (compareNumbers fieldValue value <? 0)
      else if String.eqb op "greater_equal" then Some (0 <=? compareNumbers fieldValue value)
      else if String.eqb op "less_equal" then Some (compareNumbers fieldValue value <=? 0)
      else Some false
  end.

(** The loop of [EvaluateRule] over the conditions: conjunction, left to
    right, leaving at the first condition that is false. *)
Fixpoint evaluateConditions (r : Rule) (conditions : list RuleCondition)
    (ctx : RuleEvaluationContext) : option bool :=
  match conditions with
  | [] => Some true
  | condition :: rest =>
      match evaluateCondition r condition ctx with
      | None => None
      | Some false => Some false
      | Some true => evaluateConditions r rest ctx
      end
  end.

Definition EvaluateRule (now : Time) (r : Rule) (ctx : RuleEvaluationContext)
    : option RuleEvaluationResult :=
  let result matched actions :=
    {| res_RuleID := rule_ID r; res_RuleName := rule_Name r;
       res_Matched := matched; res_Actions := actions;
       res_Metadata := ∅; res_EvaluatedAt := now |} in
  if negb (rule_Enabled r) then Some (result false [])
  else
    match evaluateConditions r (rule_Conditions r) ctx with
    | None => None
    | Some matched => Some (result matched (if matched then rule_Actions r else []))
    end.

(** [HasBlockingAction]: some matched result has an action of type [deny]
    or [block]. *)
Definition isBlockingAction (action : RuleAction) : bool :=
  String.eqb (act_Type action) "deny" || String.eqb (act_Type action) "block".

Fixpoint hasBlockingIn (actions : list RuleAction) : bool :=
  match actions with
  | [] => false
  | action :: rest => if isBlockingAction action then true else hasBlockingIn rest
  end.

Fixpoint HasBlockingAction (results : list RuleEvaluationResult) : bool :=
  match results with
  | [] => false
  | result :: rest =>
      if res_Matched result && hasBlockingIn (res_Actions result) then true
      else HasBlockingAction rest
  end.

(** A result blocks: it is matched and has an action of type [deny] or
    [block]. *)
Definition blocks (result : RuleEvaluationResult) : Prop :=
  res_Matched result = true
  /\ exists action, action ∈ res_Actions result
       /\ (act_Type action = "deny" \/ act_Type action = "block").

Fixpoint GetMatchedActions (results : list RuleEvaluationResult) : list RuleAction :=
  match results with
  | [] => []
  | result :: rest =>
      (if res_Matched result then res_Actions result else []) ++ GetMatchedActions rest
  end.

Fixpoint GetRateLimitActions (results : list RuleEvaluationResult) : list RuleAction :=
  match results with
  | [] => []
  | result :: rest =>
      (if res_Matched result
       then filter (fun action => String.eqb (act_Type action) "rate_limit" = true)
                   (res_Actions result)
       else [])
      ++ GetRateLimitActions rest
  end.

(** The loop of [EvaluateRules] over the sorted rules. Publishing the
    results only writes to the subscribers' channels and never fails; the
    channels are not part of the state modelled here. Every rule is stamped
    with the one reading [now]; [Readings.evaluateEach] gives each
    [EvaluateRule] the reading of its own that it takes in the code. *)
Fixpoint evaluateEach (now : Time) (rules : list Rule) (evalCtx : RuleEvaluationContext)
    : option (list RuleEvaluationResult) :=
  match rules with
  | [] => Some []
  | rule :: rest =>
      match EvaluateRule now rule evalCtx with
      | None => None
      | Some result =>
          match evaluateEach now rest evalCtx with
          | None => None
          | Some results => Some (result :: results)
          end
      end
  end.

(** ** Rate limiter: domain (package domain of rate-limiter) *)

Record BaseEvent := {
  ev_ID : string;
  ev_Type : string;
  ev_Time : Time;
  ev_AggrID : string;
  ev_Version : Z
}.

Record RateLimitRequestedEvent := {
  requested_Base : BaseEvent;
  requested_ClientID : string;
  requested_Resource : string;
  requested_RequestedAt : Time;
  requested_IPAddress : string;
  requested_UserAgent : string
}.

Record RateLimitAppliedEvent := {
  applied_Base : BaseEvent;
  applied_ClientID : string;
  applied_Resource : string;
  applied_WindowStart : Time;
  applied_WindowEnd : Time;
  applied_RequestCount : Z;
  applied_Limit : Z;
  applied_RemainingQuota : Z
}.

Record RateLimitExceededEvent := {
  exceeded_Base : BaseEvent;
  exceeded_ClientID : string;
  exceeded_Resource : string;
  exceeded_RequestCount : Z;
  exceeded_Limit : Z;
  exceeded_WindowStart : Time;
  exceeded_WindowEnd : Time;
  exceeded_BlockedUntil : Time
}.

Record RateLimitWindowResetEvent := {
  reset_Base : BaseEvent;
  reset_ClientID : string;
  reset_Resource : string;
  reset_WindowStart : Time
}.

(** The types of events.go that implement the interface [Event]. *)
Inductive Event :=
| EvRequested (e : RateLimitRequestedEvent)
| EvApplied (e : RateLimitAppliedEvent)
| EvExceeded (e : RateLimitExceededEvent)
| EvWindowReset (e : RateLimitWindowResetEvent).

Definition baseOf (event : Event) : BaseEvent :=
  match event with
  | EvRequested e => requested_Base e
  | EvApplied e => applied_Base e
  | EvExceeded e => exceeded_Base e
  | EvWindowReset e => reset_Base e
  end.

Definition EventID (event : Event) : string := ev_ID (baseOf event).
Definition EventType (event : Event) : string := ev_Type (baseOf event).
Definition Timestamp (event : Event) : Time := ev_Time (baseOf event).
Definition AggregateID (event : Event) : string := ev_AggrID (baseOf event).

Record RateLimitRule := {
  rl_ID : string;
  rl_Resource : string;
  rl_Limit : Z;
  rl_Window : Duration;
  rl_Algorithm : string;
  rl_CreatedAt : Time;
  rl_UpdatedAt : Time
}.

Record RateLimitState := {
  state_ClientID : string;
  state_Resource : string;
  state_RequestCount : Z;
  state_WindowStart : Time;
  state_WindowEnd : Time;
  state_RemainingQuota : Z;
  state_LastRequestAt : Time;
  state_IsBlocked : bool;
  state_BlockedUntil : Time;
  state_Version : Z
}.

Record RateLimitAggregate := {
  agg_ID : string;
  agg_State : RateLimitState;
  agg_Rules : list RateLimitRule;
  agg_Events : list Event;
  agg_Version : Z
}.

Definition aggregateIDOf (clientID resource : string) : string :=
  clientID +:+ ":" +:+ resource.

Definition NewRateLimitAggregate (clientID resource : string) : RateLimitAggregate :=
  {| agg_ID := aggregateIDOf clientID resource;
     agg_State :=
       {| state_ClientID := clientID; state_Resource := resource;
          state_RequestCount := 0; state_WindowStart := zeroTime;
          state_WindowEnd := zeroTime; state_RemainingQuota := 0;
          state_LastRequestAt := zeroTime; state_IsBlocked := false;
          state_BlockedUntil := zeroTime; state_Version := 0 |};
     agg_Rules := [];
     agg_Events := [];
     agg_Version := 0 |}.

(** The switch of [ApplyEvent] on the state. *)
Definition applyToState (now : Time) (s : RateLimitState) (event : Event) : RateLimitState :=
  match event with
  | EvApplied e =>
      {| state_ClientID := state_ClientID s; state_Resource := state_Resource s;
         state_RequestCount := applied_RequestCount e;
         state_WindowStart := applied_WindowStart e;
         state_WindowEnd := applied_WindowEnd e;
         state_RemainingQuota := applied_RemainingQuota e;
         state_LastRequestAt := now;
         state_IsBlocked := state_IsBlocked s;
         state_BlockedUntil := state_BlockedUntil s;
         state_Version := state_Version s |}
  | EvExceeded e =>
      {| state_ClientID := state_ClientID s; state_Resource := state_Resource s;
         state_RequestCount := exceeded_RequestCount e;
         state_WindowStart := state_WindowStart s;
         state_WindowEnd := state_WindowEnd s;
         state_RemainingQuota := state_RemainingQuota s;
         state_LastRequestAt := state_LastRequestAt s;
         state_IsBlocked := true;
         state_BlockedUntil := exceeded_BlockedUntil e;
         state_Version := state_Version s |}
  | EvWindowReset e =>
      {| state_ClientID := state_ClientID s; state_Resource := state_Resource s;
         state_RequestCount := 0;
         state_WindowStart := reset_WindowStart e;
         state_WindowEnd := state_WindowEnd s;
         state_RemainingQuota := state_RemainingQuota s;
         state_LastRequestAt := state_LastRequestAt s;
         state_IsBlocked := false;
         state_BlockedUntil := zeroTime;
         state_Version := state_Version s |}
  | EvRequested _ => s
  end.

Definition ApplyEvent (now : Time) (a : RateLimitAggregate) (event : Event) : RateLimitAggregate :=
  {| agg_ID := agg_ID a;
     agg_State := applyToState now (agg_State a) event;
     agg_Rules := agg_Rules a;
     agg_Events := agg_Events a ++ [event];
     agg_Version := int_add (agg_Version a) 1 |}.

(** [for _, event := range events { aggregate.ApplyEvent(event) }]. *)
Definition replay (now : Time) (a : RateLimitAggregate) (events : list Event) : RateLimitAggregate :=
  foldl (ApplyEvent now) a events.

(** The aggregate of [clientID:resource] rebuilt from its event stream, as
    [handleApplyRateLimit] does. *)
Definition rehydrate (now : Time) (events : list Event) (clientID resource : string)
    : RateLimitAggregate :=
  replay now (NewRateLimitAggregate clientID resource) events.

Definition CanMakeRequest (now : Time) (a : RateLimitAggregate) (rule : RateLimitRule) : bool :=
  if state_IsBlocked (agg_State a) && Before now (state_BlockedUntil (agg_State a)) then false
  else if After now (state_WindowEnd (agg_State a)) then true
  else 0 <? state_RemainingQuota (agg_State a).

(** ** Errors *)

Inductive error :=
| ErrConcurrencyConflict (expectedVersion got : Z)
| ErrNoRulesForResource (resource : string)
| ErrRuleNotFound (id : string)
| ErrUnknownEventType
| ErrUnknownCommandType
| ErrWrap (context : string) (err : error).

Inductive result (A : Type) :=
| Ok (a : A)
| Err (e : error).
Arguments Ok {A} a.
Arguments Err {A} e.

(** ** Event store (InMemoryEventStore) *)

Definition GetEvents (events : gmap string (list Event)) (aggregateID : string) : list Event :=
  default [] (events !! aggregateID).

Definition SaveEvents (events : gmap string (list Event)) (aggregateID : string)
    (newEvents : list Event) (expectedVersion : Z)
    : option error * gmap string (list Event) :=
  let existingEvents := default [] (events !! aggregateID) in
  if negb (len existingEvents =? expectedVersion) then
    (Some (ErrConcurrencyConflict expectedVersion (len existingEvents)), events)
  else (None, <[aggregateID := existingEvents ++ newEvents]> events).

(** ** Read model: query results (package queries) *)

Record RateLimitStatus := {
  st_ClientID : string;
  st_Resource : string;
  st_IsAllowed : bool;
  st_RequestCount : Z;
  st_Limit : Z;
  st_RemainingQuota : Z;
  st_WindowStart : Time;
  st_WindowEnd : Time;
  st_ResetTime : Time;
  st_IsBlocked : bool;
  st_BlockedUntil : Time;
  st_RetryAfter : Z
}.

Record RateLimitEvent := {
  he_EventID : string;
  he_EventType : string;
  he_ClientID : string;
  he_Resource : string;
  he_Timestamp : Time;
  he_RequestCount : Z;
  he_Limit : Z;
  he_IsBlocked : bool;
  he_Metadata : gmap string string
}.

Record RateLimitHistory := {
  hist_Events : list RateLimitEvent;
  hist_TotalCount : Z;
  hist_HasMore : bool
}.

Record ResourceStats := {
  rs_Resource : string;
  rs_TotalRequests : Z;
  rs_BlockedRequests : Z;
  rs_AllowedRequests : Z;
  rs_BlockedRate : float
}.

Record TimeSeriesDataPoint := {
  ts_Timestamp : Time;
  ts_TotalRequests : Z;
  ts_BlockedRequests : Z;
  ts_AllowedRequests : Z
}.

Record ClientStats := {
  cs_ClientID : string;
  cs_TotalRequests : Z;
  cs_BlockedRequests : Z;
  cs_AllowedRequests : Z;
  cs_ResourceStats : list ResourceStats;
  cs_TimeSeriesData : list TimeSeriesDataPoint
}.

(** ** Read model (InMemoryReadModel) *)

Record InMemoryReadModel := {
  rm_statuses : gmap string RateLimitStatus;
  rm_history : gmap string (list RateLimitEvent);
  rm_stats : gmap string ClientStats
}.

Definition NewInMemoryReadModel : InMemoryReadModel :=
  {| rm_statuses := ∅; rm_history := ∅; rm_stats := ∅ |}.

Definition GetRateLimitStatus (now : Time) (r : InMemoryReadModel)
    (clientID resource : string) : RateLimitStatus :=
  let key := clientID +:+ ":" +:+ resource in
  match rm_statuses r !! key with
  | None =>
      {| st_ClientID := clientID; st_Resource := resource; st_IsAllowed := true;
         st_RequestCount := 0; st_Limit := 0; st_RemainingQuota := 0;
         st_WindowStart := now; st_WindowEnd := Add now Hour;
         st_ResetTime := Add now Hour; st_IsBlocked := false;
         st_BlockedUntil := zeroTime; st_RetryAfter := 0 |}
  | Some status => status
  end.

(** The time-range filter of [GetRateLimitHistory]. *)
Definition inTimeRange (startTime endTime : Time) (event : RateLimitEvent) : bool :=
  After (he_Timestamp event) startTime && Before (he_Timestamp event) endTime.

Fixpoint filterByTimeRange (startTime endTime : Time) (allEvents : list RateLimitEvent)
    : list RateLimitEvent :=
  match allEvents with
  | [] => []
  | event :: rest =>
      if inTimeRange startTime endTime event
      then event :: filterByTimeRange startTime endTime rest
      else filterByTimeRange startTime endTime rest
  end.

(** [l[lo:hi]]: a run-time panic ([None]) unless [0 <= lo <= hi <= len(l)]. *)
Definition slice_list {A} (l : list A) (lo hi : Z) : option (list A) :=
  if (0 <=? lo) && (lo <=? hi) && (hi <=? len l)
  then Some (take (Z.to_nat (hi - lo)) (drop (Z.to_nat lo) l))
  else None.

(** [GetRateLimitHistory]: its error is always nil; [None] is the panic of
    the slice expression [filteredEvents[start:end]]. *)
Definition GetRateLimitHistory (r : InMemoryReadModel) (clientID resource : string)
    (startTime endTime : Time) (limit offset : Z) : option RateLimitHistory :=
  let key := clientID +:+ ":" +:+ resource in
  let allEvents := default [] (rm_history r !! key) in
  let filteredEvents := filterByTimeRange startTime endTime allEvents in
  let totalCount := len filteredEvents in
  let start := offset in
  let end_ := int_add offset limit in
  if totalCount <=? start then
    Some {| hist_Events := []; hist_TotalCount := totalCount; hist_HasMore := false |}
  else
    let end_ := if totalCount <? end_ then totalCount else end_ in
    match slice_list filteredEvents start end_ with
    | None => None
    | Some pagedEvents =>
        Some {| hist_Events := pagedEvents; hist_TotalCount := totalCount;
                hist_HasMore := end_ <? totalCount |}
    end.

Definition GetClientStats (r : InMemoryReadModel) (clientID : string) : ClientStats :=
  match rm_stats r !! clientID with
  | None =>
      {| cs_ClientID := clientID; cs_TotalRequests := 0; cs_BlockedRequests := 0;
         cs_AllowedRequests := 0; cs_ResourceStats := []; cs_TimeSeriesData := [] |}
  | Some stats => stats
  end.

(** Find the first element that satisfies [p], appending [fresh] when there
    is none, and update it with [f]: the search loops of [updateClientStats]. *)
Fixpoint updateFirst {A} (p : A -> bool) (fresh : A) (f : A -> A) (l : list A) : list A :=
  match l with
  | [] => [f fresh]
  | x :: rest => if p x then f x :: rest else x :: updateFirst p fresh f rest
  end.

Definition countResource (allowed : bool) (rs : ResourceStats) : ResourceStats :=
  let total := int_add (rs_TotalRequests rs) 1 in
  let blocked := if allowed then rs_BlockedRequests rs else int_add (rs_BlockedRequests rs) 1 in
  {| rs_Resource := rs_Resource rs;
     rs_TotalRequests := total;
     rs_BlockedRequests := blocked;
     rs_AllowedRequests :=
       if allowed then int_add (rs_AllowedRequests rs) 1 else rs_AllowedRequests rs;
     rs_BlockedRate :=
       if 0 <? total then PrimFloat.div (float64_of_int blocked) (float64_of_int total)
       else rs_BlockedRate rs |}.

Definition countDataPoint (allowed : bool) (dp : TimeSeriesDataPoint) : TimeSeriesDataPoint :=
  {| ts_Timestamp := ts_Timestamp dp;
     ts_TotalRequests := int_add (ts_TotalRequests dp) 1;
     ts_BlockedRequests :=
       if allowed then ts_BlockedRequests dp else int_add (ts_BlockedRequests dp) 1;
     ts_AllowedRequests :=
       if allowed then int_add (ts_AllowedRequests dp) 1 else ts_AllowedRequests dp |}.

Definition updateClientStats (now : Time) (stats : gmap string ClientStats)
    (clientID resource : string) (allowed : bool) : gmap string ClientStats :=
  let old :=
    match stats !! clientID with
    | Some s => s
    | None =>
        {| cs_ClientID := clientID; cs_TotalRequests := 0; cs_BlockedRequests := 0;
           cs_AllowedRequests := 0; cs_ResourceStats := []; cs_TimeSeriesData := [] |}
    end in
  let minute := Truncate now Minute in
  <[clientID :=
     {| cs_ClientID := cs_ClientID old;
        cs_TotalRequests := int_add (cs_TotalRequests old) 1;
        cs_BlockedRequests :=
          if allowed then cs_BlockedRequests old else int_add (cs_BlockedRequests old) 1;
        cs_AllowedRequests :=
          if allowed then int_add (cs_AllowedRequests old) 1 else cs_AllowedRequests old;
        cs_ResourceStats :=
          updateFirst (fun rs => String.eqb (rs_Resource rs) resource)
            {| rs_Resource := resource; rs_TotalRequests := 0; rs_BlockedRequests := 0;
               rs_AllowedRequests := 0; rs_BlockedRate := float_of_nonneg 0 |}
            (countResource allowed) (cs_ResourceStats old);
        cs_TimeSeriesData :=
          updateFirst (fun dp => Equal (ts_Timestamp dp) minute)
            {| ts_Timestamp := minute; ts_TotalRequests := 0; ts_BlockedRequests := 0;
               ts_AllowedRequests := 0 |}
            (countDataPoint allowed) (cs_TimeSeriesData old) |}]> stats.

Definition appendHistory (history : gmap string (list RateLimitEvent)) (key : string)
    (historyEvent : RateLimitEvent) : gmap string (list RateLimitEvent) :=
  <[key := default [] (history !! key) ++ [historyEvent]]> history.

Definition updateFromRateLimitApplied (now : Time) (r : InMemoryReadModel)
    (event : RateLimitAppliedEvent) : InMemoryReadModel :=
  let key := applied_ClientID event +:+ ":" +:+ applied_Resource event in
  let status :=
    {| st_ClientID := applied_ClientID event; st_Resource := applied_Resource event;
       st_IsAllowed := true; st_RequestCount := applied_RequestCount event;
       st_Limit := applied_Limit event; st_RemainingQuota := applied_RemainingQuota event;
       st_WindowStart := applied_WindowStart event; st_WindowEnd := applied_WindowEnd event;
       st_ResetTime := applied_WindowEnd event; st_IsBlocked := false;
       st_BlockedUntil := zeroTime; st_RetryAfter := 0 |} in
  let historyEvent :=
    {| he_EventID := ev_ID (applied_Base event); he_EventType := ev_Type (applied_Base event);
       he_ClientID := applied_ClientID event; he_Resource := applied_Resource event;
       he_Timestamp := ev_Time (applied_Base event);
       he_RequestCount := applied_RequestCount event; he_Limit := applied_Limit event;
       he_IsBlocked := false; he_Metadata := ∅ |} in
  {| rm_statuses := <[key := status]> (rm_statuses r);
     rm_history := appendHistory (rm_history r) key historyEvent;
     rm_stats := updateClientStats now (rm_stats r) (applied_ClientID event)
                   (applied_Resource event) true |}.

Definition updateFromRateLimitExceeded (now : Time) (r : InMemoryReadModel)
    (event : RateLimitExceededEvent) : InMemoryReadModel :=
  let key := exceeded_ClientID event +:+ ":" +:+ exceeded_Resource event in
  let retryAfter := int_of_float64 (Seconds (Until now (exceeded_BlockedUntil event))) in
  let retryAfter := if retryAfter <? 0 then 0 else retryAfter in
  let status :=
    {| st_ClientID := exceeded_ClientID event; st_Resource := exceeded_Resource event;
       st_IsAllowed := false; st_RequestCount := exceeded_RequestCount event;
       st_Limit := exceeded_Limit event; st_RemainingQuota := 0;
       st_WindowStart := exceeded_WindowStart event; st_WindowEnd := exceeded_WindowEnd event;
       st_ResetTime := exceeded_WindowEnd event; st_IsBlocked := true;
       st_BlockedUntil := exceeded_BlockedUntil event; st_RetryAfter := retryAfter |} in
  let historyEvent :=
    {| he_EventID := ev_ID (exceeded_Base event); he_EventType := ev_Type (exceeded_Base event);
       he_ClientID := exceeded_ClientID event; he_Resource := exceeded_Resource event;
       he_Timestamp := ev_Time (exceeded_Base event);
       he_RequestCount := exceeded_RequestCount event; he_Limit := exceeded_Limit event;
       he_IsBlocked := true; he_Metadata := ∅ |} in
  {| rm_statuses := <[key := status]> (rm_statuses r);
     rm_history := appendHistory (rm_history r) key historyEvent;
     rm_stats := updateClientStats now (rm_stats r) (exceeded_ClientID event)
                   (exceeded_Resource event) false |}.

Definition updateFromWindowReset (r : InMemoryReadModel)
    (event : RateLimitWindowResetEvent) : InMemoryReadModel :=
  let key := reset_ClientID event +:+ ":" +:+ reset_Resource event in
  let reset status :=
    {| st_ClientID := st_ClientID status; st_Resource := st_Resource status;
       st_IsAllowed := st_IsAllowed status; st_RequestCount := 0;
       st_Limit := st_Limit status; st_RemainingQuota := st_Limit status;
       st_WindowStart := reset_WindowStart event; st_WindowEnd := st_WindowEnd status;
       st_ResetTime := st_ResetTime status; st_IsBlocked := false;
       st_BlockedUntil := zeroTime; st_RetryAfter := 0 |} in
  let historyEvent :=
    {| he_EventID := ev_ID (reset_Base event); he_EventType := ev_Type (reset_Base event);
       he_ClientID := reset_ClientID event; he_Resource := reset_Resource event;
       he_Timestamp := ev_Time (reset_Base event);
       he_RequestCount := 0; he_Limit := 0;
       he_IsBlocked := false; he_Metadata := ∅ |} in
  {| rm_statuses :=
       match rm_statuses r !! key with
       | Some status => <[key := reset status]> (rm_statuses r)
       | None => rm_statuses r
       end;
     rm_history := appendHistory (rm_history r) key historyEvent;
     rm_stats := rm_stats r |}.

Definition UpdateFromEvent (now : Time) (r : InMemoryReadModel) (event : Event)
    : option error * InMemoryReadModel :=
  match event with
  | EvApplied e => (None, updateFromRateLimitApplied now r e)
  | EvExceeded e => (None, updateFromRateLimitExceeded now r e)
  | EvWindowReset e => (None, updateFromWindowReset r e)
  | EvRequested _ => (Some ErrUnknownEventType, r)
  end.

(** ** Commands (package commands) *)

Record BaseCommand := {
  cmd_ID : string;
  cmd_Type : string;
  cmd_Time : Time
}.

Record CheckRateLimitCommand := {
  check_Base : BaseCommand;
  check_ClientID : string;
  check_Resource : string;
  check_IPAddress : string;
  check_UserAgent : string;
  check_Metadata : gmap string string
}.

Record ApplyRateLimitCommand := {
  apply_Base : BaseCommand;
  apply_ClientID : string;
  apply_Resource : string;
  apply_RequestedAt : Time;
  apply_IPAddress : string;
  apply_UserAgent : string
}.

Record CreateRuleCommand := {
  create_Base : BaseCommand;
  create_Resource : string;
  create_Limit : Z;
  create_Window : Duration;
  create_Algorithm : string
}.

Record UpdateRuleCommand := {
  update_Base : BaseCommand;
  update_RuleID : string;
  update_Resource : string;
  update_Limit : Z;
  update_Window : Duration;
  update_Algorithm : string
}.

Record ResetRateLimitCommand := {
  resetcmd_Base : BaseCommand;
  resetcmd_ClientID : string;
  resetcmd_Resource : string
}.

Inductive Command :=
| CmdCheckRateLimit (c : CheckRateLimitCommand)
| CmdApplyRateLimit (c : ApplyRateLimitCommand)
| CmdCreateRule (c : CreateRuleCommand)
| CmdUpdateRule (c : UpdateRuleCommand)
| CmdResetRateLimit (c : ResetRateLimitCommand).

(** ** State of the service *)

(** The four stores behind the integrated service: the event store and the
    rule repository of the command side, the read model of the query side,
    and the rule repository of the rule engine. No handler publishes to the
    event bus, so the read model changes only through [UpdateFromEvent]. *)
Record System := {
  sys_events : gmap string (list Event);
  sys_rules : gmap string RateLimitRule;
  sys_readModel : InMemoryReadModel;
  sys_engineRules : gmap string Rule
}.

(** Every rule of the repository has a positive limit. *)
Definition limits_positive (rules : gmap string RateLimitRule) : Prop :=
  forall id rule, rules !! id = Some rule -> 0 < rl_Limit rule.

Definition withEvents (sys : System) (events : gmap string (list Event)) : System :=
  {| sys_events := events; sys_rules := sys_rules sys;
     sys_readModel := sys_readModel sys; sys_engineRules := sys_engineRules sys |}.

Definition withRules (sys : System) (rules : gmap string RateLimitRule) : System :=
  {| sys_events := sys_events sys; sys_rules := rules;
     sys_readModel := sys_readModel sys; sys_engineRules := sys_engineRules sys |}.

(** The body of a request to create a rule, decoded from JSON. *)
Record CreateRuleRequest := {
  req_Resource : string;
  req_Limit : Z;
  req_Window : string;
  req_Algorithm : string
}.

Record RequestCheckResult := {
  rc_Allowed : bool;
  rc_Reason : string;
  rc_RuleResults : list RuleEvaluationResult;
  rc_RateLimitStatus : option RateLimitStatus;
  rc_BlockingRuleID : string;
  rc_AppliedActions : list RuleAction
}.

Fixpoint getFirstBlockingRuleID (results : list RuleEvaluationResult) : string :=
  match results with
  | [] => ""
  | result :: rest =>
      if res_Matched result && hasBlockingIn (res_Actions result) then res_RuleID result
      else getFirstBlockingRuleID rest
  end.

(** The inner loop of [determineReason]: the first action of type [allow]
    or [throttle] decides. *)
Fixpoint reasonIn (actions : list RuleAction) : option string :=
  match actions with
  | [] => None
  | action :: rest =>
      if String.eqb (act_Type action) "allow" then Some "allowed by rule"
      else if String.eqb (act_Type action) "throttle" then Some "throttled by rule"
      else reasonIn rest
  end.

Fixpoint reasonOf (results : list RuleEvaluationResult) : string :=
  match results with
  | [] => "allowed"
  | result :: rest =>
      match (if res_Matched result then reasonIn (res_Actions result) else None) with
      | Some reason => reason
      | None => reasonOf rest
      end
  end.

Definition determineReason (rateLimitStatus : RateLimitStatus)
    (ruleResults : list RuleEvaluationResult) : string :=
  if negb (st_IsAllowed rateLimitStatus) then "rate limited"
  else reasonOf ruleResults.

Section Runtime.

(** What the Go runtime and standard library leave open or own: the order
    in which [range] visits a map, the permutation [sort.Slice] (which is
    not stable) leaves rules of equal priority in, and the parsers
    [strconv.Atoi] and [time.ParseDuration]. The development holds for
    every choice of them. In this section one order [range_values] serves
    every [range] loop, and one reading [now] of the clock every
    [time.Now()] of a call; the module [Readings] further down gives each
    loop its order and each [time.Now()] its reading. *)
Variable range_values : forall A : Type, gmap string A -> list A.
Variable sort_by_priority : list Rule -> list Rule.
Variable Atoi : string -> option Z.
Variable ParseDuration : string -> option Duration.

(** ** Rule repository of the rate limiter (InMemoryRuleRepository) *)

Definition Save (rules : gmap string RateLimitRule) (rule : RateLimitRule)
    : gmap string RateLimitRule :=
  <[rl_ID rule := rule]> rules.

Definition GetByResource (rules : gmap string RateLimitRule) (resource : string)
    : list RateLimitRule :=
  filter (fun rule => String.eqb (rl_Resource rule) resource = true)
         (range_values RateLimitRule rules).

Definition GetByID (rules : gmap string RateLimitRule) (id : string) : result RateLimitRule :=
  match rules !! id with
  | None => Err (ErrRuleNotFound id)
  | Some rule => Ok rule
  end.

Definition Update (rules : gmap string RateLimitRule) (rule : RateLimitRule)
    : option error * gmap string RateLimitRule :=
  match rules !! rl_ID rule with
  | None => (Some (ErrRuleNotFound (rl_ID rule)), rules)
  | Some _ => (None, <[rl_ID rule := rule]> rules)
  end.

Definition Delete (rules : gmap string RateLimitRule) (id : string)
    : option error * gmap string RateLimitRule :=
  match rules !! id with
  | None => (Some (ErrRuleNotFound id), rules)
  | Some _ => (None, delete id rules)
  end.

(** ** Rule engine (RuleEngine over its InMemoryRuleRepository) *)

Definition GetActiveRules (rules : gmap string Rule) : list Rule :=
  filter (fun rule => rule_Enabled rule = true) (range_values Rule rules).

Definition EvaluateRules (now : Time) (rules : gmap string Rule)
    (evalCtx : RuleEvaluationContext) : option (list RuleEvaluationResult) :=
  evaluateEach now (sort_by_priority (GetActiveRules rules)) evalCtx.

(** ** Command handler (RateLimitCommandHandler) *)

(** [handleApplyRateLimit] at one reading [now] of the clock, for the replay
    of the stream, [CanMakeRequest], the event's ID and time stamp, and the
    window's start and end, which the code reads one after the other;
    [Readings.handleApplyRateLimit] takes each reading separately. *)
Definition handleApplyRateLimit (now : Time) (sys : System) (cmd : ApplyRateLimitCommand)
    : option error * System :=
  let aggregateID := apply_ClientID cmd +:+ ":" +:+ apply_Resource cmd in
  let events := GetEvents (sys_events sys) aggregateID in
  let aggregate := rehydrate now events (apply_ClientID cmd) (apply_Resource cmd) in
  match GetByResource (sys_rules sys) (apply_Resource cmd) with
  | [] => (Some (ErrNoRulesForResource (apply_Resource cmd)), sys)
  | rule :: _ =>
      let newEvents :=
        if CanMakeRequest now aggregate rule then
          [EvApplied
             {| applied_Base :=
                  {| ev_ID := sprintf_d "applied-" (UnixNano now);
                     ev_Type := "RateLimitApplied"; ev_Time := now;
                     ev_AggrID := aggregateID;
                     ev_Version := int_add (agg_Version aggregate) 1 |};
                applied_ClientID := apply_ClientID cmd;
                applied_Resource := apply_Resource cmd;
                applied_WindowStart := Truncate now (rl_Window rule);
                applied_WindowEnd := Add (Truncate now (rl_Window rule)) (rl_Window rule);
                applied_RequestCount := int_add (state_RequestCount (agg_State aggregate)) 1;
                applied_Limit := rl_Limit rule;
                applied_RemainingQuota :=
                  int_sub (rl_Limit rule)
                          (int_add (state_RequestCount (agg_State aggregate)) 1) |}]
        else
          [EvExceeded
             {| exceeded_Base :=
                  {| ev_ID := sprintf_d "exceeded-" (UnixNano now);
                     ev_Type := "RateLimitExceeded"; ev_Time := now;
                     ev_AggrID := aggregateID;
                     ev_Version := int_add (agg_Version aggregate) 1 |};
                exceeded_ClientID := apply_ClientID cmd;
                exceeded_Resource := apply_Resource cmd;
                exceeded_RequestCount := int_add (state_RequestCount (agg_State aggregate)) 1;
                exceeded_Limit := rl_Limit rule;
                exceeded_WindowStart := state_WindowStart (agg_State aggregate);
                exceeded_WindowEnd := state_WindowEnd (agg_State aggregate);
                exceeded_BlockedUntil := state_WindowEnd (agg_State aggregate) |}] in
      let '(err, events') :=
        SaveEvents (sys_events sys) aggregateID newEvents (agg_Version aggregate) in
      (err, withEvents sys events')
  end.

(** The commands of one client for one resource, handled one after the
    other at the instants [later]. *)
Fixpoint handleApplyRateLimit_each (later : list Time) (sys : System)
    (cmd : ApplyRateLimitCommand) : System :=
  match later with
  | [] => sys
  | now :: rest =>
      handleApplyRateLimit_each rest (handleApplyRateLimit now sys cmd).2 cmd
  end.

(** [handleCreateRule] at one reading [now] for the rule's ID, [CreatedAt]
    and [UpdatedAt], three readings in the code
    ([Readings.handleCreateRule]). *)
Definition handleCreateRule (now : Time) (sys : System) (cmd : CreateRuleCommand)
    : option error * System :=
  let rule :=
    {| rl_ID := sprintf_d "rule-" (UnixNano now);
       rl_Resource := create_Resource cmd; rl_Limit := create_Limit cmd;
       rl_Window := create_Window cmd; rl_Algorithm := create_Algorithm cmd;
       rl_CreatedAt := now; rl_UpdatedAt := now |} in
  (None, withRules sys (Save (sys_rules sys) rule)).

Definition handleUpdateRule (now : Time) (sys : System) (cmd : UpdateRuleCommand)
    : option error * System :=
  match GetByID (sys_rules sys) (update_RuleID cmd) with
  | Err err => (Some (ErrWrap "failed to get rule" err), sys)
  | Ok rule =>
      let rule' :=
        {| rl_ID := rl_ID rule;
           rl_Resource := update_Resource cmd; rl_Limit := update_Limit cmd;
           rl_Window := update_Window cmd; rl_Algorithm := update_Algorithm cmd;
           rl_CreatedAt := rl_CreatedAt rule; rl_UpdatedAt := now |} in
      let '(err, rules') := Update (sys_rules sys) rule' in
      (err, withRules sys rules')
  end.

Definition handleResetRateLimit (now : Time) (sys : System) (cmd : ResetRateLimitCommand)
    : option error * System :=
  let aggregateID := resetcmd_ClientID cmd +:+ ":" +:+ resetcmd_Resource cmd in
  let event :=
    EvWindowReset
      {| reset_Base :=
           {| ev_ID := sprintf_d "reset-" (UnixNano now);
              ev_Type := "RateLimitWindowReset"; ev_Time := now;
              ev_AggrID := aggregateID; ev_Version := 1 |};
         reset_ClientID := resetcmd_ClientID cmd;
         reset_Resource := resetcmd_Resource cmd;
         reset_WindowStart := now |} in
  let '(err, events') := SaveEvents (sys_events sys) aggregateID [event] 0 in
  (err, withEvents sys events').

(** [RateLimitCommandHandler.Handle]. *)
Definition Handle (now : Time) (sys : System) (cmd : Command) : option error * System :=
  match cmd with
  | CmdApplyRateLimit c => handleApplyRateLimit now sys c
  | CmdCreateRule c => handleCreateRule now sys c
  | CmdUpdateRule c => handleUpdateRule now sys c
  | CmdResetRateLimit c => handleResetRateLimit now sys c
  | CmdCheckRateLimit _ => (Some ErrUnknownCommandType, sys)
  end.

(** ** Service (RateLimiterService) *)

(** The query handler passes a status query on to the read model. *)
Definition handleGetRateLimitStatus (now : Time) (sys : System)
    (clientID resource : string) : RateLimitStatus :=
  GetRateLimitStatus now (sys_readModel sys) clientID resource.

Definition CheckRateLimit (now : Time) (sys : System)
    (clientID resource ipAddress userAgent : string) : result RateLimitStatus * System :=
  let currentStatus := handleGetRateLimitStatus now sys clientID resource in
  if st_IsBlocked currentStatus && Before now (st_BlockedUntil currentStatus) then
    (Ok currentStatus, sys)
  else
    let applyCmd :=
      {| apply_Base :=
           {| cmd_ID := sprintf_d "apply-" (UnixNano now);
              cmd_Type := "ApplyRateLimit"; cmd_Time := now |};
         apply_ClientID := clientID; apply_Resource := resource;
         apply_RequestedAt := now; apply_IPAddress := ipAddress;
         apply_UserAgent := userAgent |} in
    match Handle now sys (CmdApplyRateLimit applyCmd) with
    | (Some err, sys') => (Err (ErrWrap "failed to apply rate limit" err), sys')
    | (None, sys') => (Ok (handleGetRateLimitStatus now sys' clientID resource), sys')
    end.

Definition CreateRule (now : Time) (sys : System) (resource : string) (limit : Z)
    (window : Duration) (algorithm : string) : option error * System :=
  Handle now sys
    (CmdCreateRule
       {| create_Base :=
            {| cmd_ID := sprintf_d "create-rule-" (UnixNano now);
               cmd_Type := "CreateRule"; cmd_Time := now |};
          create_Resource := resource; create_Limit := limit;
          create_Window := window; create_Algorithm := algorithm |}).

Definition ResetRateLimit (now : Time) (sys : System) (clientID resource : string)
    : option error * System :=
  Handle now sys
    (CmdResetRateLimit
       {| resetcmd_Base :=
            {| cmd_ID := sprintf_d "reset-" (UnixNano now);
               cmd_Type := "ResetRateLimit"; cmd_Time := now |};
          resetcmd_ClientID := clientID; resetcmd_Resource := resource |}).

(** ** HTTP boundary (HTTPHandler) *)

(** [CreateRuleHandler] for a POST request whose body decodes to [req]: the
    status code it answers with. *)
Definition CreateRuleHandler (now : Time) (sys : System) (req : CreateRuleRequest)
    : Z * System :=
  if String.eqb (req_Resource req) "" || (req_Limit req <=? 0)
     || String.eqb (req_Window req) ""
  then (400, sys)
  else
    match ParseDuration (req_Window req) with
    | None => (400, sys)
    | Some window =>
        let algorithm :=
          if String.eqb (req_Algorithm req) "" then "sliding_window"
          else req_Algorithm req in
        match CreateRule now sys (req_Resource req) (req_Limit req) window algorithm with
        | (Some _, sys') => (500, sys')
        | (None, sys') => (201, sys')
        end
    end.

(** ** Integrated service (IntegratedRateLimiterService) *)

(** The conversions of [applyDynamicRateLimiting]. *)
Definition limitOf (limit : GoValue) : Z :=
  match limit with
  | VInt v => v
  | VFloat64 v => int_of_float64 v
  | VString v => default 0 (Atoi v)
  | _ => 0
  end.

Definition windowOf (window : GoValue) : Duration :=
  match window with
  | VString v => default 0 (ParseDuration v)
  | VInt v => int_mul v Second
  | VFloat64 v => int_mul (int_of_float64 v) Second
  | _ => 0
  end.

Definition algorithmOf (algorithm : option GoValue) : string :=
  match algorithm with
  | Some (VString alg) => alg
  | Some _ => ""
  | None => "sliding_window"
  end.

(** The loop of [applyDynamicRateLimiting]; the [k]-th rule it creates is
    created at the instant [clock k]. *)
Fixpoint applyDynamicRateLimiting (clock : nat -> Time) (k : nat) (sys : System)
    (actions : list RuleAction) (resource : string) : option error * System * nat :=
  match actions with
  | [] => (None, sys, k)
  | action :: rest =>
      if String.eqb (act_Type action) "rate_limit" then
        match act_Parameters action !! "limit", act_Parameters action !! "window" with
        | Some limit, Some window =>
            let limitInt := limitOf limit in
            let windowDuration := windowOf window in
            let algorithmStr := algorithmOf (act_Parameters action !! "algorithm") in
            if (0 <? limitInt) && (0 <? windowDuration) then
              match CreateRule (clock k) sys resource limitInt windowDuration algorithmStr with
              | (Some err, sys') =>
                  (Some (ErrWrap "failed to create dynamic rate limit rule" err), sys', S k)
              | (None, sys') => applyDynamicRateLimiting clock (S k) sys' rest resource
              end
            else applyDynamicRateLimiting clock k sys rest resource
        | _, _ => applyDynamicRateLimiting clock k sys rest resource
        end
      else applyDynamicRateLimiting clock k sys rest resource
  end.

(** [CheckRequestWithRules]: [clock 0] is the instant of the rule
    evaluation, [clock 1], [clock 2], ... those of the dynamic rules
    created, and the next reading that of the rate-limit check. [None] is a
    panic of the rule evaluation. *)
Definition CheckRequestWithRules (clock : nat -> Time) (sys : System)
    (clientID resource ipAddress userAgent : string)
    (metadata : gmap string string) (requestData : gmap string GoValue)
    : option (result RequestCheckResult * System) :=
  let evalCtx :=
    {| ctx_ClientID := clientID; ctx_Resource := resource; ctx_IPAddress := ipAddress;
       ctx_UserAgent := userAgent; ctx_Timestamp := clock O;
       ctx_Metadata := metadata; ctx_RequestData := requestData |} in
  match EvaluateRules (clock O) (sys_engineRules sys) evalCtx with
  | None => None
  | Some ruleResults =>
      if HasBlockingAction ruleResults then
        Some (Ok {| rc_Allowed := false; rc_Reason := "blocked by rule";
                    rc_RuleResults := ruleResults; rc_RateLimitStatus := None;
                    rc_BlockingRuleID := getFirstBlockingRuleID ruleResults;
                    rc_AppliedActions := [] |}, sys)
      else
        let rateLimitActions := GetRateLimitActions ruleResults in
        match applyDynamicRateLimiting clock 1 sys rateLimitActions resource with
        | (Some err, sys', _) =>
            Some (Err (ErrWrap "failed to apply dynamic rate limiting" err), sys')
        | (None, sys', k) =>
            match CheckRateLimit (clock k) sys' clientID resource ipAddress userAgent with
            | (Err err, sys'') => Some (Err (ErrWrap "failed to check rate limit" err), sys'')
            | (Ok rateLimitStatus, sys'') =>
                Some (Ok {| rc_Allowed := st_IsAllowed rateLimitStatus;
                            rc_Reason :=
                              if negb (st_IsAllowed rateLimitStatus) then "rate limited"
                              else determineReason rateLimitStatus ruleResults;
                            rc_RuleResults := ruleResults;
                            rc_RateLimitStatus := Some rateLimitStatus;
                            rc_BlockingRuleID := "";
                            rc_AppliedActions := [] |}, sys'')
            end
        end
  end.

End Runtime.

(** ** One choice of the runtime, for evaluating the code on concrete inputs *)

(** [range] in the order of the keys' encoding. *)
Definition range_in_key_order (A : Type) (m : gmap string A) : list A :=
  (map_to_list m).*2.

(** A stable sort by descending priority. *)
Fixpoint insert_by_priority (rule : Rule) (sorted : list Rule) : list Rule :=
  match sorted with
  | [] => [rule]
  | r :: rest =>
      if rule_Priority r <? rule_Priority rule then rule :: sorted
      else r :: insert_by_priority rule rest
  end.

Definition stable_sort_by_priority (rules : list Rule) : list Rule :=
  foldr insert_by_priority [] rules.

(** Parsers that know the literals of the default configuration. *)
Definition Atoi_digits (s : string) : option Z :=
  if String.eqb s "3" then Some 3 else if String.eqb s "5" then Some 5 else None.

Definition ParseDuration_minutes (s : string) : option Duration :=
  if String.eqb s "5m" then Some (5 * Minute)
  else if String.eqb s "1m" then Some Minute
  else None.

(** ** Concrete inputs *)

(** The default configuration of the integrated server, a client [u], and
    instants of the year 2025. *)
Module Scenario.

Definition t0 : Time := 63900000000 * Second.
Definition clock (n : nat) : Time := t0 + Z.of_nat n * Second.

Definition security_rule (id type : string) (priority : Z) (field operator : string)
    (value : GoValue) (action : RuleAction) : Rule :=
  {| rule_ID := id; rule_Name := id; rule_Type := type; rule_Description := "";
     rule_Priority := priority; rule_Enabled := true;
     rule_Conditions := [condition field operator value];
     rule_Actions := [action];
     rule_CreatedAt := t0; rule_UpdatedAt := t0; rule_CreatedBy := ""; rule_Tags := [] |}.

Definition deny_bots : Rule :=
  security_rule "block-suspicious-agents" "blacklist" 200 "user_agent" "contains"
    (VString "bot")
    {| act_Type := "deny";
       act_Parameters := {[ "reason" := VString "suspicious user agent" ]} |}.

Definition limit_logins : Rule :=
  security_rule "aggressive-login-rate-limit" "rate_limit" 150 "resource" "equals"
    (VString "login")
    {| act_Type := "rate_limit";
       act_Parameters :=
         <["limit" := VInt 3]> (<["window" := VString "5m"]>
           {[ "algorithm" := VString "fixed_window" ]}) |}.

Definition allow_internal : Rule :=
  security_rule "whitelist-internal-ips" "whitelist" 300 "ip_address" "starts_with"
    (VString "192.168.")
    {| act_Type := "allow"; act_Parameters := {[ "reason" := VString "internal IP" ]} |}.

Definition rate_rule (id resource : string) (limit : Z) (window : Duration)
    (algorithm : string) : RateLimitRule :=
  {| rl_ID := id; rl_Resource := resource; rl_Limit := limit; rl_Window := window;
     rl_Algorithm := algorithm; rl_CreatedAt := t0; rl_UpdatedAt := t0 |}.

Definition login_rule : RateLimitRule := rate_rule "rule-1" "login" 5 (15 * Minute) "fixed_window".
Definition zero_rule : RateLimitRule := rate_rule "rule-0" "closed" 0 Minute "fixed_window".

Definition system : System :=
  {| sys_events := ∅;
     sys_rules := <[rl_ID login_rule := login_rule]> {[ rl_ID zero_rule := zero_rule ]};
     sys_readModel := NewInMemoryReadModel;
     sys_engineRules :=
       <[rule_ID deny_bots := deny_bots]>
         (<[rule_ID limit_logins := limit_logins]>
            {[ rule_ID allow_internal := allow_internal ]}) |}.

Definition apply_command (resource : string) (now : Time) : ApplyRateLimitCommand :=
  {| apply_Base := {| cmd_ID := "apply-1"; cmd_Type := "ApplyRateLimit"; cmd_Time := now |};
     apply_ClientID := "u"; apply_Resource := resource; apply_RequestedAt := now;
     apply_IPAddress := "8.8.8.8"; apply_UserAgent := "Mozilla" |}.

(** The results of the rule evaluation for a request of a bot. *)
Definition bot_context : RuleEvaluationContext :=
  {| ctx_ClientID := "u"; ctx_Resource := "api"; ctx_IPAddress := "8.8.8.8";
     ctx_UserAgent := "evil-bot/1.0"; ctx_Timestamp := clock 0;
     ctx_Metadata := ∅; ctx_RequestData := ∅ |}.

Definition bot_results : list RuleEvaluationResult :=
  default []
    (EvaluateRules range_in_key_order stable_sort_by_priority (clock 0)
       (sys_engineRules system) bot_context).

Definition bot_denied : RuleEvaluationResult :=
  {| res_RuleID := "block-suspicious-agents"; res_RuleName := "block-suspicious-agents";
     res_Matched := true; res_Actions := rule_Actions deny_bots;
     res_Metadata := ∅; res_EvaluatedAt := clock 0 |}.

(** The system after one admitted login of [u] at [clock 1]. *)
Definition after_login : System :=
  (handleApplyRateLimit range_in_key_order (clock 1) system
     (apply_command "login" (clock 1))).2.

(** A read model that has projected a refusal lasting until [clock 60]. *)
Definition refusal : RateLimitExceededEvent :=
  {| exceeded_Base :=
       {| ev_ID := "exceeded-1"; ev_Type := "RateLimitExceeded"; ev_Time := clock 2;
          ev_AggrID := "u:login"; ev_Version := 2 |};
     exceeded_ClientID := "u"; exceeded_Resource := "login";
     exceeded_RequestCount := 6; exceeded_Limit := 5;
     exceeded_WindowStart := clock 0; exceeded_WindowEnd := clock 60;
     exceeded_BlockedUntil := clock 60 |}.

Definition blocked_system : System :=
  {| sys_events := sys_events after_login; sys_rules := sys_rules system;
     sys_readModel :=
       (UpdateFromEvent (clock 2) NewInMemoryReadModel (EvExceeded refusal)).2;
     sys_engineRules := sys_engineRules system |}.

Definition history_event (id : string) (at_ : Time) : RateLimitEvent :=
  {| he_EventID := id; he_EventType := "RateLimitApplied"; he_ClientID := "u";
     he_Resource := "login"; he_Timestamp := at_; he_RequestCount := 1; he_Limit := 5;
     he_IsBlocked := false; he_Metadata := ∅ |}.

Definition history_model : InMemoryReadModel :=
  {| rm_statuses := ∅;
     rm_history :=
       {[ "u:login" := [history_event "a" (clock 1)] ++ history_event "b" (clock 2)
                         :: [history_event "c" (clock 3); history_event "d" (clock 4)] ]};
     rm_stats := ∅ |}.

End Scenario.

(** C3 as the specification states it: under a rule with limit 0 every command
    appends a [RateLimitExceeded] event, whatever the stream held. *)
Definition limit_zero_denies_every_request : Prop :=
  forall (range_values : forall A : Type, gmap string A -> list A)
         (now : Time) (sys : System) (cmd : ApplyRateLimitCommand)
         (rule : RateLimitRule) (rules : list RateLimitRule),
    let aggregateID := apply_ClientID cmd +:+ ":" +:+ apply_Resource cmd in
    let events := GetEvents (sys_events sys) aggregateID in
    GetByResource range_values (sys_rules sys) (apply_Resource cmd) = rule :: rules ->
    rl_Limit rule = 0 ->
    len events <= int_max ->
    exists e,
      GetEvents (sys_events (handleApplyRateLimit range_values now sys cmd).2) aggregateID
      = events ++ [EvExceeded e].

(** * More of the code *)

(** ** What Go promises of [range] and [sort.Slice] *)

(** [range] over a map visits every entry once, in some order. *)
Definition range_visits_each_once
    (range_values : forall A : Type, gmap string A -> list A) : Prop :=
  forall (A : Type) (m : gmap string A), range_values A m ≡ₚ (map_to_list m).*2.

(** [sort.Slice] permutes the slice it is given. *)
Definition sort_permutes (sort_by_priority : list Rule -> list Rule) : Prop :=
  forall rules, sort_by_priority rules ≡ₚ rules.

(** ** Rule repository of the rule engine (its InMemoryRuleRepository) *)

Module RuleRepository.

Section Range.

Variable range_values : forall A : Type, gmap string A -> list A.

Definition GetRulesByType (rules : gmap string Rule) (ruleType : RuleType) : list Rule :=
  filter (fun rule => String.eqb (rule_Type rule) ruleType && rule_Enabled rule = true)
         (range_values Rule rules).

(** The inner loop of [hasAnyTag], and [hasAnyTag]. *)
Fixpoint tagAmong (ruleTag : string) (searchTags : list string) : bool :=
  match searchTags with
  | [] => false
  | searchTag :: rest => if String.eqb ruleTag searchTag then true else tagAmong ruleTag rest
  end.

Fixpoint hasAnyTag (ruleTags searchTags : list string) : bool :=
  match ruleTags with
  | [] => false
  | ruleTag :: rest => if tagAmong ruleTag searchTags then true else hasAnyTag rest searchTags
  end.

Definition GetRulesByTags (rules : gmap string Rule) (tags : list string) : list Rule :=
  filter (fun rule => rule_Enabled rule && hasAnyTag (rule_Tags rule) tags = true)
         (range_values Rule rules).

End Range.

Definition SaveRule (rules : gmap string Rule) (rule : Rule) : gmap string Rule :=
  <[rule_ID rule := rule]> rules.

Definition UpdateRule (rules : gmap string Rule) (rule : Rule)
    : option error * gmap string Rule :=
  match rules !! rule_ID rule with
  | None => (Some (ErrRuleNotFound (rule_ID rule)), rules)
  | Some _ => (None, <[rule_ID rule := rule]> rules)
  end.

Definition DeleteRule (rules : gmap string Rule) (ruleID : string)
    : option error * gmap string Rule :=
  match rules !! ruleID with
  | None => (Some (ErrRuleNotFound ruleID), rules)
  | Some _ => (None, delete ruleID rules)
  end.

Definition GetRuleByID (rules : gmap string Rule) (ruleID : string) : result Rule :=
  match rules !! ruleID with
  | None => Err (ErrRuleNotFound ruleID)
  | Some rule => Ok rule
  end.

End RuleRepository.

(** ** Rule engine: rule management and validation (RuleEngine) *)

Module RuleEngine.

(** The errors of [ValidateRule]; [i] is the index of the condition or
    action at fault. *)
Inductive ValidationError :=
| NameRequired
| ConditionRequired
| ActionRequired
| ConditionFieldRequired (i : Z)
| ConditionOperatorRequired (i : Z)
| InvalidOperator (i : Z) (operator : string)
| ActionTypeRequired (i : Z)
| InvalidActionType (i : Z) (type : string).

Definition validOperators : list string :=
  ["equals"; "not_equals"; "contains"; "starts_with"; "ends_with";
   "in"; "not_in"; "greater_than"; "less_than"; "greater_equal"; "less_equal"].

Definition validActions : list string :=
  ["allow"; "deny"; "block"; "rate_limit"; "throttle"; "log"; "alert"].

(** The search loops over [validOperators] and [validActions]. *)
Fixpoint oneOf (s : string) (valid : list string) : bool :=
  match valid with
  | [] => false
  | v :: rest => if String.eqb s v then true else oneOf s rest
  end.

Fixpoint validateConditions (i : Z) (conditions : list RuleCondition)
    : option ValidationError :=
  match conditions with
  | [] => None
  | condition :: rest =>
      if String.eqb (cond_Field condition) "" then Some (ConditionFieldRequired i)
      else if String.eqb (cond_Operator condition) "" then Some (ConditionOperatorRequired i)
      else if negb (oneOf (cond_Operator condition) validOperators)
      then Some (InvalidOperator i (cond_Operator condition))
      else validateConditions (int_add i 1) rest
  end.

Fixpoint validateActions (i : Z) (actions : list RuleAction) : option ValidationError :=
  match actions with
  | [] => None
  | action :: rest =>
      if String.eqb (act_Type action) "" then Some (ActionTypeRequired i)
      else if negb (oneOf (act_Type action) validActions)
      then Some (InvalidActionType i (act_Type action))
      else validateActions (int_add i 1) rest
  end.

(** [ValidateRule]: [None] is the nil error. *)
Definition ValidateRule (rule : Rule) : option ValidationError :=
  if String.eqb (rule_Name rule) "" then Some NameRequired
  else if len (rule_Conditions rule) =? 0 then Some ConditionRequired
  else if len (rule_Actions rule) =? 0 then Some ActionRequired
  else
    match validateConditions 0 (rule_Conditions rule) with
    | Some err => Some err
    | None => validateActions 0 (rule_Actions rule)
    end.

(** [CreateRule] at one reading [now] for [CreatedAt], [UpdatedAt] and the
    ID, three readings in the code ([Readings.RuleEngine.CreateRule]). *)
Definition CreateRule (now : Time) (rules : gmap string Rule) (rule : Rule)
    : gmap string Rule :=
  RuleRepository.SaveRule rules
    {| rule_ID := if String.eqb (rule_ID rule) "" then sprintf_d "rule-" (UnixNano now)
                  else rule_ID rule;
       rule_Name := rule_Name rule; rule_Type := rule_Type rule;
       rule_Description := rule_Description rule; rule_Priority := rule_Priority rule;
       rule_Enabled := rule_Enabled rule; rule_Conditions := rule_Conditions rule;
       rule_Actions := rule_Actions rule;
       rule_CreatedAt := now; rule_UpdatedAt := now;
       rule_CreatedBy := rule_CreatedBy rule; rule_Tags := rule_Tags rule |}.

Definition UpdateRule (now : Time) (rules : gmap string Rule) (rule : Rule)
    : option error * gmap string Rule :=
  RuleRepository.UpdateRule rules
    {| rule_ID := rule_ID rule;
       rule_Name := rule_Name rule; rule_Type := rule_Type rule;
       rule_Description := rule_Description rule; rule_Priority := rule_Priority rule;
       rule_Enabled := rule_Enabled rule; rule_Conditions := rule_Conditions rule;
       rule_Actions := rule_Actions rule;
       rule_CreatedAt := rule_CreatedAt rule; rule_UpdatedAt := now;
       rule_CreatedBy := rule_CreatedBy rule; rule_Tags := rule_Tags rule |}.

Definition DeleteRule (rules : gmap string Rule) (ruleID : string)
    : option error * gmap string Rule :=
  RuleRepository.DeleteRule rules ruleID.

Definition GetRule (rules : gmap string Rule) (ruleID : string) : result Rule :=
  RuleRepository.GetRuleByID rules ruleID.

Section Evaluation.

Variable range_values : forall A : Type, gmap string A -> list A.
Variable sort_by_priority : list Rule -> list Rule.

(** [EvaluateRulesByType]: the rules of the type, sorted, the disabled ones
    skipped once more. *)
Definition EvaluateRulesByType (now : Time) (rules : gmap string Rule)
    (ruleType : RuleType) (evalCtx : RuleEvaluationContext)
    : option (list RuleEvaluationResult) :=
  evaluateEach now
    (filter (fun rule => rule_Enabled rule = true)
       (sort_by_priority (RuleRepository.GetRulesByType range_values rules ruleType)))
    evalCtx.

End Evaluation.

End RuleEngine.

(** ** Integrated service: the rules it creates *)

Definition withEngineRules (sys : System) (rules : gmap string Rule) : System :=
  {| sys_events := sys_events sys; sys_rules := sys_rules sys;
     sys_readModel := sys_readModel sys; sys_engineRules := rules |}.

(** [CreateSecurityRule]. The rule engine's [CreateRule] stamps the rule; its
    repository never fails, so neither do the three functions below. *)
Definition CreateSecurityRule (now : Time) (sys : System) (name description : string)
    (conditions : list RuleCondition) (actions : list RuleAction) (priority : Z) : System :=
  withEngineRules sys
    (RuleEngine.CreateRule now (sys_engineRules sys)
       {| rule_ID := sprintf_d "security-rule-" (UnixNano now);
          rule_Name := name; rule_Type := "rate_limit"; rule_Description := description;
          rule_Priority := priority; rule_Enabled := true;
          rule_Conditions := conditions; rule_Actions := actions;
          rule_CreatedAt := zeroTime; rule_UpdatedAt := zeroTime; rule_CreatedBy := "";
          rule_Tags := ["security"; "auto-generated"] |}).

Definition CreateIPBasedRule (now : Time) (sys : System) (ipAddresses : list string)
    (action : string) (parameters : gmap string GoValue) : System :=
  let ipValues := map VString ipAddresses in
  let conditions := [condition "ip_address" "in" (VSlice ipValues)] in
  let actions :=
    if String.eqb action "block" then [{| act_Type := "deny"; act_Parameters := parameters |}]
    else if String.eqb action "rate_limit"
    then [{| act_Type := "rate_limit"; act_Parameters := parameters |}]
    else [] in
  withEngineRules sys
    (RuleEngine.CreateRule now (sys_engineRules sys)
       {| rule_ID := sprintf_d "ip-rule-" (UnixNano now);
          rule_Name := "IP-based " +:+ action +:+ " rule"; rule_Type := "blacklist";
          rule_Description := "Auto-generated IP-based " +:+ action +:+ " rule";
          rule_Priority := 100; rule_Enabled := true;
          rule_Conditions := conditions; rule_Actions := actions;
          rule_CreatedAt := zeroTime; rule_UpdatedAt := zeroTime; rule_CreatedBy := "";
          rule_Tags := ["ip-based"; "auto-generated"] |}).

Section DurationString.

(** [time.Duration.String] of Go's standard library. *)
Variable DurationString : Duration -> string.


End DurationString.

(** ** Event bus (EventBus) *)

(** A subscriber's channel is the queue of the events it has not yet
    received, oldest first; every channel is made with room for 100. *)
Definition channelCapacity : Z := 100.

Record EventBus := {
  bus_subscribers : gmap string (list (list Event))
}.

Definition NewEventBus : EventBus := {| bus_subscribers := ∅ |}.

(** [Subscribe]: a new, empty channel, last among those of the event type. *)
Definition Subscribe (b : EventBus) (eventType : string) : EventBus :=
  {| bus_subscribers :=
       <[eventType := default [] (bus_subscribers b !! eventType) ++ [[]]]>
         (bus_subscribers b) |}.

(** [select { case ch <- event: default: }]: the event is queued when the
    channel has room, and dropped otherwise. *)
Definition trySend (event : Event) (ch : list Event) : list Event :=
  if len ch <? channelCapacity then ch ++ [event] else ch.

Definition publishTo (key : string) (event : Event)
    (subscribers : gmap string (list (list Event))) : gmap string (list (list Event)) :=
  match subscribers !! key with
  | Some channels => <[key := map (trySend event) channels]> subscribers
  | None => subscribers
  end.

Definition Publish (b : EventBus) (event : Event) : EventBus :=
  {| bus_subscribers :=
       publishTo "*" event (publishTo (EventType event) event (bus_subscribers b)) |}.

(** ** Projection ([setupEventProjection]) *)

(** The loop of [setupEventProjection] over the events it receives, each
    with the instant at which it is projected; an error is logged and the
    loop goes on. *)
Definition projectEvents (r : InMemoryReadModel) (received : list (Time * Event))
    : InMemoryReadModel :=
  foldl (fun r '(now, event) => (UpdateFromEvent now r event).2) r received.

(** ** HTTP boundary: history *)


Section HistoryHandler.

(** [strconv.Atoi] and [time.Parse(time.RFC3339, _)]. *)
Variable Atoi : string -> option Z.
Variable ParseRFC3339 : string -> option Time.




End HistoryHandler.

(** ** The runtime, call by call *)

(** The definitions above give a call one reading of the clock and one
    order of iteration. The code reads [time.Now()] anew at every use, and
    Go draws the order of a [range] over a map anew at every loop. The
    definitions of this module take every reading and every order as an
    argument of its own; those above are their instances at one reading and
    one order. *)
Module Readings.

(** *** Rule engine *)

(** The loop of [EvaluateRules]: [EvaluateRule] reads the clock once, so the
    [i]-th rule evaluated is stamped with the reading [evaluatedAt i]. *)
Fixpoint evaluateEach (evaluatedAt : nat -> Time) (i : nat) (rules : list Rule)
    (evalCtx : RuleEvaluationContext) : option (list RuleEvaluationResult) :=
  match rules with
  | [] => Some []
  | rule :: rest =>
      match EvaluateRule (evaluatedAt i) rule evalCtx with
      | None => None
      | Some result =>
          match evaluateEach evaluatedAt (S i) rest evalCtx with
          | None => None
          | Some results => Some (result :: results)
          end
      end
  end.

Definition EvaluateRules (range_values : forall A : Type, gmap string A -> list A)
    (sort_by_priority : list Rule -> list Rule) (evaluatedAt : nat -> Time)
    (rules : gmap string Rule) (evalCtx : RuleEvaluationContext)
    : option (list RuleEvaluationResult) :=
  evaluateEach evaluatedAt 0 (sort_by_priority (GetActiveRules range_values rules)) evalCtx.

Module RuleEngine.

(** [CreateRule] reads the clock for [CreatedAt], again for [UpdatedAt], and
    a third time for the id of a rule that has none. *)
Definition CreateRule (createdAt updatedAt idAt : Time) (rules : gmap string Rule)
    (rule : Rule) : gmap string Rule :=
  RuleRepository.SaveRule rules
    {| rule_ID := if String.eqb (rule_ID rule) "" then sprintf_d "rule-" (UnixNano idAt)
                  else rule_ID rule;
       rule_Name := rule_Name rule; rule_Type := rule_Type rule;
       rule_Description := rule_Description rule; rule_Priority := rule_Priority rule;
       rule_Enabled := rule_Enabled rule; rule_Conditions := rule_Conditions rule;
       rule_Actions := rule_Actions rule;
       rule_CreatedAt := createdAt; rule_UpdatedAt := updatedAt;
       rule_CreatedBy := rule_CreatedBy rule; rule_Tags := rule_Tags rule |}.

End RuleEngine.

(** *** Rate limiter: creating a rule *)

(** [handleCreateRule] reads the clock for the id, for [CreatedAt] and for
    [UpdatedAt]. *)
Definition handleCreateRule (idAt createdAt updatedAt : Time) (sys : System)
    (cmd : CreateRuleCommand) : option error * System :=
  let rule :=
    {| rl_ID := sprintf_d "rule-" (UnixNano idAt);
       rl_Resource := create_Resource cmd; rl_Limit := create_Limit cmd;
       rl_Window := create_Window cmd; rl_Algorithm := create_Algorithm cmd;
       rl_CreatedAt := createdAt; rl_UpdatedAt := updatedAt |} in
  (None, withRules sys (Save (sys_rules sys) rule)).

(** The readings of one call of the service's [CreateRule]: two for the
    command, three in the handler. *)
Record CreateReadings := {
  commandIDAt : Time;
  commandTimeAt : Time;
  ruleIDAt : Time;
  ruleCreatedAt : Time;
  ruleUpdatedAt : Time
}.

(** [RateLimiterService.CreateRule]: the command handler's [Handle] passes a
    [CreateRuleCommand] on to [handleCreateRule]. *)
Definition CreateRule (at_ : CreateReadings) (sys : System) (resource : string) (limit : Z)
    (window : Duration) (algorithm : string) : option error * System :=
  handleCreateRule (ruleIDAt at_) (ruleCreatedAt at_) (ruleUpdatedAt at_) sys
    {| create_Base :=
         {| cmd_ID := sprintf_d "create-rule-" (UnixNano (commandIDAt at_));
            cmd_Type := "CreateRule"; cmd_Time := commandTimeAt at_ |};
       create_Resource := resource; create_Limit := limit;
       create_Window := window; create_Algorithm := algorithm |}.

(** *** Rate limiter: applying the rate limit *)

(** What the runtime gives one call of [handleApplyRateLimit]: the order in
    which the [range] loop of [GetByResource] visits the rules, and the
    readings of the clock, one in [ApplyEvent] for each event replayed, one
    in [CanMakeRequest], and one each for the id, the time, the window start
    and the window end of the event. *)
Record Run := {
  run_order : gmap string RateLimitRule -> list RateLimitRule;
  run_replayedAt : nat -> Time;
  run_checkedAt : Time;
  run_idAt : Time;
  run_stampedAt : Time;
  run_windowStartAt : Time;
  run_windowEndAt : Time
}.

(** The run in which every reading is [now] and the rules are visited in
    the order [range_values]. *)
Definition oneReading (range_values : forall A : Type, gmap string A -> list A)
    (now : Time) : Run :=
  {| run_order := range_values RateLimitRule;
     run_replayedAt := fun _ => now;
     run_checkedAt := now; run_idAt := now; run_stampedAt := now;
     run_windowStartAt := now; run_windowEndAt := now |}.

Definition GetByResource (order : gmap string RateLimitRule -> list RateLimitRule)
    (rules : gmap string RateLimitRule) (resource : string) : list RateLimitRule :=
  filter (fun rule => String.eqb (rl_Resource rule) resource = true) (order rules).

(** The replay of a stream, the [i]-th event applied at the reading
    [replayedAt i]. *)
Fixpoint replay (replayedAt : nat -> Time) (i : nat) (a : RateLimitAggregate)
    (events : list Event) : RateLimitAggregate :=
  match events with
  | [] => a
  | event :: rest => replay replayedAt (S i) (ApplyEvent (replayedAt i) a event) rest
  end.

Definition rehydrate (replayedAt : nat -> Time) (events : list Event)
    (clientID resource : string) : RateLimitAggregate :=
  replay replayedAt 0 (NewRateLimitAggregate clientID resource) events.

Definition handleApplyRateLimit (run : Run) (sys : System) (cmd : ApplyRateLimitCommand)
    : option error * System :=
  let aggregateID := apply_ClientID cmd +:+ ":" +:+ apply_Resource cmd in
  let events := GetEvents (sys_events sys) aggregateID in
  let aggregate :=
    rehydrate (run_replayedAt run) events (apply_ClientID cmd) (apply_Resource cmd) in
  match GetByResource (run_order run) (sys_rules sys) (apply_Resource cmd) with
  | [] => (Some (ErrNoRulesForResource (apply_Resource cmd)), sys)
  | rule :: _ =>
      let newEvents :=
        if CanMakeRequest (run_checkedAt run) aggregate rule then
          [EvApplied
             {| applied_Base :=
                  {| ev_ID := sprintf_d "applied-" (UnixNano (run_idAt run));
                     ev_Type := "RateLimitApplied"; ev_Time := run_stampedAt run;
                     ev_AggrID := aggregateID;
                     ev_Version := int_add (agg_Version aggregate) 1 |};
                applied_ClientID := apply_ClientID cmd;
                applied_Resource := apply_Resource cmd;
                applied_WindowStart := Truncate (run_windowStartAt run) (rl_Window rule);
                applied_WindowEnd :=
                  Add (Truncate (run_windowEndAt run) (rl_Window rule)) (rl_Window rule);
                applied_RequestCount := int_add (state_RequestCount (agg_State aggregate)) 1;
                applied_Limit := rl_Limit rule;
                applied_RemainingQuota :=
                  int_sub (rl_Limit rule)
                          (int_add (state_RequestCount (agg_State aggregate)) 1) |}]
        else
          [EvExceeded
             {| exceeded_Base :=
                  {| ev_ID := sprintf_d "exceeded-" (UnixNano (run_idAt run));
                     ev_Type := "RateLimitExceeded"; ev_Time := run_stampedAt run;
                     ev_AggrID := aggregateID;
                     ev_Version := int_add (agg_Version aggregate) 1 |};
                exceeded_ClientID := apply_ClientID cmd;
                exceeded_Resource := apply_Resource cmd;
                exceeded_RequestCount := int_add (state_RequestCount (agg_State aggregate)) 1;
                exceeded_Limit := rl_Limit rule;
                exceeded_WindowStart := state_WindowStart (agg_State aggregate);
                exceeded_WindowEnd := state_WindowEnd (agg_State aggregate);
                exceeded_BlockedUntil := state_WindowEnd (agg_State aggregate) |}] in
      let '(err, events') :=
        SaveEvents (sys_events sys) aggregateID newEvents (agg_Version aggregate) in
      (err, withEvents sys events')
  end.

(** The commands of one client for one resource, handled one after the
    other, each in a run of its own. *)
Fixpoint handleApplyRateLimit_each (runs : list Run) (sys : System)
    (cmd : ApplyRateLimitCommand) : System :=
  match runs with
  | [] => sys
  | run :: rest => handleApplyRateLimit_each rest (handleApplyRateLimit run sys cmd).2 cmd
  end.

End Readings.

(** ** Vocabulary of the properties *)

(** [substr] occurs in [str] at the byte index [i]. *)
Definition occursAt (str substr : string) (i : Z) : Prop :=
  exists pre post, str = pre +:+ substr +:+ post /\ strlen pre = i.

(** The state of the aggregate of a client and a resource, rebuilt at [now]
    from its stream in the event store. *)
Definition stateOf (now : Time) (sys : System) (clientID resource : string) : RateLimitState :=
  agg_State (rehydrate now (GetEvents (sys_events sys) (clientID +:+ ":" +:+ resource))
               clientID resource).

(** The state of an aggregate that has counted [k] commands in the window
    ending at [windowEnd], under a rule of limit [limit]. *)
Definition inWindow (windowEnd : Time) (limit k : Z) (state : RateLimitState) : Prop :=
  state_RequestCount state = k
  /\ state_WindowEnd state = windowEnd
  /\ state_RemainingQuota state = limit - Z.min k limit
  /\ (k <= limit -> state_IsBlocked state = false)
  /\ (state_IsBlocked state = true -> state_BlockedUntil state = windowEnd).

(** What the [i]-th command of a window (counting from 0) leaves in the
    stream under a rule of limit [limit]: an admission while [i < limit],
    a refusal afterwards. *)
Definition windowEvent (windowStart windowEnd : Time) (limit i : Z) (event : Event) : Prop :=
  if i <? limit then
    exists e, event = EvApplied e
      /\ applied_RequestCount e = i + 1
      /\ applied_RemainingQuota e = limit - (i + 1)
      /\ applied_WindowStart e = windowStart
      /\ applied_WindowEnd e = windowEnd
  else
    exists e, event = EvExceeded e
      /\ exceeded_RequestCount e = i + 1
      /\ exceeded_BlockedUntil e = windowEnd.

(** The figures kept for a client agree with each other: every total is
    the sum of the allowed and the blocked requests, the client's total is
    the sum of the totals of its resources and of the totals of its minutes
    (all in Go's [int] arithmetic), and no resource and no minute has two
    entries. *)
Definition statsConsistent (clientID : string) (stats : ClientStats) : Prop :=
  cs_ClientID stats = clientID
  /\ cs_TotalRequests stats
     = wrap_int (cs_AllowedRequests stats + cs_BlockedRequests stats)
  /\ Forall (fun rs => rs_TotalRequests rs
                       = wrap_int (rs_AllowedRequests rs + rs_BlockedRequests rs))
       (cs_ResourceStats stats)
  /\ Forall (fun dp => ts_TotalRequests dp
                       = wrap_int (ts_AllowedRequests dp + ts_BlockedRequests dp))
       (cs_TimeSeriesData stats)
  /\ cs_TotalRequests stats
     = wrap_int (foldr Z.add 0 (rs_TotalRequests <$> cs_ResourceStats stats))
  /\ cs_TotalRequests stats
     = wrap_int (foldr Z.add 0 (ts_TotalRequests <$> cs_TimeSeriesData stats))
  /\ NoDup (rs_Resource <$> cs_ResourceStats stats)
  /\ NoDup (ts_Timestamp <$> cs_TimeSeriesData stats).

(** The key under which the read model files an event: the client and the
    resource the event names. *)
Definition pairOf (event : Event) : string :=
  match event with
  | EvRequested e => requested_ClientID e +:+ ":" +:+ requested_Resource e
  | EvApplied e => applied_ClientID e +:+ ":" +:+ applied_Resource e
  | EvExceeded e => exceeded_ClientID e +:+ ":" +:+ exceeded_Resource e
  | EvWindowReset e => reset_ClientID e +:+ ":" +:+ reset_Resource e
  end.

(** The state of the aggregate of a client and a resource, rebuilt from its
    stream with the readings [replayedAt]. *)
Definition stateAt (replayedAt : nat -> Time) (sys : System) (clientID resource : string)
    : RateLimitState :=
  agg_State (Readings.rehydrate replayedAt
               (GetEvents (sys_events sys) (clientID +:+ ":" +:+ resource))
               clientID resource).

(** An order of iteration that visits every rule of the map once. *)
Definition visits_each_once (order : gmap string RateLimitRule -> list RateLimitRule)
    : Prop :=
  forall rules, order rules ≡ₚ (map_to_list rules).*2.

(** The repository has a rule for the resource, and all its rules for the
    resource have the limit [limit] and the window [window]. *)
Definition rules_of_resource (rules : gmap string RateLimitRule) (resource : string)
    (limit : Z) (window : Duration) : Prop :=
  (exists id rule, rules !! id = Some rule /\ rl_Resource rule = resource)
  /\ forall id rule,
       rules !! id = Some rule -> rl_Resource rule = resource ->
       rl_Limit rule = limit /\ rl_Window rule = window.

(** The readings of a run that decide and date the event all fall in the
    window of length [window] that starts at [windowStart], after the zero
    time, and its order visits every rule once. *)
Definition inside (windowStart : Time) (window : Duration) (run : Readings.Run) : Prop :=
  visits_each_once (Readings.run_order run)
  /\ zeroTime < Readings.run_checkedAt run
  /\ Truncate (Readings.run_checkedAt run) window = windowStart
  /\ Truncate (Readings.run_windowStartAt run) window = windowStart
  /\ Truncate (Readings.run_windowEndAt run) window = windowStart.

(** C8 as the specification states it for [in] and [not_in]: complements
    for every resolved field value and every condition value. *)
Definition in_and_not_in_complements_on_every_value : Prop :=
  forall (r : Rule) (ctx : RuleEvaluationContext) (field : string)
         (fieldValue value : GoValue),
    fieldValueOf field ctx = Some fieldValue ->
    (evaluateCondition r (condition field "not_in" value) ctx = Some true
     <-> evaluateCondition r (condition field "in" value) ctx = Some false).

(** ** More concrete inputs *)

Module Examples.

(** A rule of two searches per minute, beside the rules of the scenario. *)
Definition two_per_minute : RateLimitRule :=
  Scenario.rate_rule "rule-2" "search" 2 Minute "fixed_window".

Definition system : System :=
  withRules Scenario.system
    (<[rl_ID two_per_minute := two_per_minute]> (sys_rules Scenario.system)).

Definition search : ApplyRateLimitCommand := Scenario.apply_command "search" (Scenario.clock 1).

(** The scenario after the address 8.8.8.8 has been blocked. *)
Definition ip_system : System :=
  CreateIPBasedRule Scenario.t0 Scenario.system ["8.8.8.8"] "block" ∅.

Definition ip_context : RuleEvaluationContext :=
  {| ctx_ClientID := "u"; ctx_Resource := "api"; ctx_IPAddress := "8.8.8.8";
     ctx_UserAgent := "Mozilla"; ctx_Timestamp := Scenario.clock 0;
     ctx_Metadata := ∅; ctx_RequestData := ∅ |}.

(** A bus with one subscriber to the refusals, and two refusals. *)
Definition bus : EventBus := Subscribe NewEventBus "RateLimitExceeded".

Definition refusals : list Event :=
  [EvExceeded Scenario.refusal; EvExceeded Scenario.refusal].

(** The results of the rule evaluation for the request of a bot, each rule
    evaluated one second after the one before it. *)
Definition bot_results : list RuleEvaluationResult :=
  default []
    (Readings.EvaluateRules range_in_key_order stable_sort_by_priority Scenario.clock
       (sys_engineRules Scenario.system) Scenario.bot_context).

(** The system after one admitted search of [u], and a run of the next
    command in which the clock passes the end of the minute between the
    reading for the window start and the reading for the window end. *)
Definition searched_once : System :=
  (Readings.handleApplyRateLimit (Readings.oneReading range_in_key_order (Scenario.clock 1))
     system search).2.

Definition across_the_minute : Readings.Run :=
  {| Readings.run_order := range_in_key_order RateLimitRule;
     Readings.run_replayedAt := fun _ => Scenario.clock 59;
     Readings.run_checkedAt := Scenario.clock 59;
     Readings.run_idAt := Scenario.clock 59;
     Readings.run_stampedAt := Scenario.clock 59;
     Readings.run_windowStartAt := Scenario.clock 59 + 999999999;
     Readings.run_windowEndAt := Scenario.clock 60 |}.

(** A second rule for the searches, with the same limit and window, and two
    orders of iteration: that of the keys' encoding, which visits "rule-3"
    before "rule-2", and its reverse. *)
Definition two_per_minute_again : RateLimitRule :=
  Scenario.rate_rule "rule-3" "search" 2 Minute "sliding_window".

Definition two_rules : System :=
  withRules system (<[rl_ID two_per_minute_again := two_per_minute_again]> (sys_rules system)).

Definition forwards (rules : gmap string RateLimitRule) : list RateLimitRule :=
  range_in_key_order RateLimitRule rules.

Definition backwards (rules : gmap string RateLimitRule) : list RateLimitRule :=
  reverse (range_in_key_order RateLimitRule rules).

(** A run that starts at [start] and reads the clock every 100 nanoseconds. *)
Definition run_at (order : gmap string RateLimitRule -> list RateLimitRule)
    (start : Time) : Readings.Run :=
  {| Readings.run_order := order;
     Readings.run_replayedAt := fun i => start + Z.of_nat i;
     Readings.run_checkedAt := start + 100;
     Readings.run_idAt := start + 200;
     Readings.run_stampedAt := start + 300;
     Readings.run_windowStartAt := start + 400;
     Readings.run_windowEndAt := start + 500 |}.

End Examples.

(** * Properties *)

(** ** Go integers *)

(** Linear arithmetic with the bounds of [int] unfolded. *)
Ltac int_lia := unfold int_min, int_max in *; lia.

Lemma wrap_int_id (z : Z) : int_min <= z <= int_max -> wrap_int z = z.
Proof.
  unfold int_min, int_max, wrap_int. intros Hz.
  rewrite Z.mod_small; lia.
Qed.

Lemma wrap_int_range (z : Z) : int_min <= wrap_int z <= int_max.
Proof.
  unfold int_min, int_max, wrap_int.
  pose proof (Z.mod_pos_bound (z + 2 ^ 63) (2 ^ 64) ltac:(lia)). lia.
Qed.

Lemma wrap_int_add_l (a b : Z) : wrap_int (wrap_int a + b) = wrap_int (a + b).
Proof.
  unfold wrap_int.
  replace ((a + 2 ^ 63) mod 2 ^ 64 - 2 ^ 63 + b + 2 ^ 63)
    with ((a + 2 ^ 63) mod 2 ^ 64 + b) by lia.
  rewrite Zplus_mod_idemp_l. f_equal. f_equal. lia.
Qed.

Lemma len_app {A} (l k : list A) : len (l ++ k) = len l + len k.
Proof. unfold len. rewrite length_app. lia. Qed.

Lemma len_nonneg {A} (l : list A) : 0 <= len l.
Proof. unfold len. lia. Qed.

(** ** Event store *)

Lemma GetEvents_insert (events : gmap string (list Event)) (id : string) (l : list Event) :
  GetEvents (<[id := l]> events) id = l.
Proof. unfold GetEvents. by rewrite lookup_insert_eq. Qed.

Lemma GetEvents_insert_ne (events : gmap string (list Event)) (id id' : string)
    (l : list Event) :
  id <> id' -> GetEvents (<[id := l]> events) id' = GetEvents events id'.
Proof. intros Hne. unfold GetEvents. by rewrite lookup_insert_ne. Qed.

Lemma SaveEvents_ok (events : gmap string (list Event)) (id : string)
    (newEvents : list Event) (expectedVersion : Z) :
  len (GetEvents events id) = expectedVersion ->
  SaveEvents events id newEvents expectedVersion
  = (None, <[id := GetEvents events id ++ newEvents]> events).
Proof.
  intros Hlen. unfold SaveEvents, GetEvents in *.
  rewrite Hlen, Z.eqb_refl. reflexivity.
Qed.

Lemma SaveEvents_conflict (events : gmap string (list Event)) (id : string)
    (newEvents : list Event) (expectedVersion : Z) :
  len (GetEvents events id) <> expectedVersion ->
  SaveEvents events id newEvents expectedVersion
  = (Some (ErrConcurrencyConflict expectedVersion (len (GetEvents events id))), events).
Proof.
  intros Hlen. unfold SaveEvents, GetEvents in *.
  apply Z.eqb_neq in Hlen. rewrite Hlen. reflexivity.
Qed.

(** C2. [SaveEvents] fails, with the concurrency-conflict error, exactly
    when the number of events stored for the aggregate differs from
    [expectedVersion]; a failure leaves the whole store as it was, and a
    success stores the old events of the aggregate followed by the new ones,
    in order, and touches no other aggregate. *)
Theorem SaveEvents_optimistic_concurrency (events : gmap string (list Event))
    (aggregateID : string) (newEvents : list Event) (expectedVersion : Z) :
  let err := (SaveEvents events aggregateID newEvents expectedVersion).1 in
  let events' := (SaveEvents events aggregateID newEvents expectedVersion).2 in
  let stored := len (GetEvents events aggregateID) in
  (err <> None <-> stored <> expectedVersion)
  /\ (err <> None -> err = Some (ErrConcurrencyConflict expectedVersion stored))
  /\ (err <> None -> events' = events)
  /\ (err = None ->
      GetEvents events' aggregateID = GetEvents events aggregateID ++ newEvents
      /\ forall other, other <> aggregateID -> events' !! other = events !! other).
Proof.
  cbv zeta.
  destruct (Z.eq_dec (len (GetEvents events aggregateID)) expectedVersion) as [Heq | Hne].
  - rewrite (SaveEvents_ok _ _ _ _ Heq). cbn [fst snd].
    repeat split; try congruence.
    + apply GetEvents_insert.
    + intros other Hother. by rewrite lookup_insert_ne.
  - rewrite (SaveEvents_conflict _ _ _ _ Hne). cbn [fst snd].
    repeat split; try congruence; try done.
Qed.

(** ** Rate-limit aggregate *)

Lemma replay_app (now : Time) (a : RateLimitAggregate) (l k : list Event) :
  replay now a (l ++ k) = replay now (replay now a l) k.
Proof. unfold replay. apply foldl_app. Qed.

Lemma replay_Version (now : Time) (events : list Event) (a : RateLimitAggregate) :
  int_min <= agg_Version a <= int_max ->
  agg_Version (replay now a events) = wrap_int (agg_Version a + len events).
Proof.
  revert a. induction events as [| event events IH]; intros a Ha.
  - cbn. rewrite Z.add_0_r. symmetry. by apply wrap_int_id.
  - change (replay now a (event :: events))
      with (replay now (ApplyEvent now a event) events).
    rewrite IH; cbn [ApplyEvent agg_Version].
    + unfold int_add. rewrite wrap_int_add_l. f_equal. unfold len. cbn [length]. lia.
    + apply wrap_int_range.
Qed.

Lemma replay_Events (now : Time) (events : list Event) (a : RateLimitAggregate) :
  agg_Events (replay now a events) = agg_Events a ++ events.
Proof.
  revert a. induction events as [| event events IH]; intros a.
  - cbn. by rewrite app_nil_r.
  - change (replay now a (event :: events))
      with (replay now (ApplyEvent now a event) events).
    rewrite IH. cbn. by rewrite <- app_assoc.
Qed.

(** C5. After the events of any finite sequence are applied, one by one
    with [ApplyEvent], to a fresh aggregate, the aggregate's [Version] is the
    number of events applied: as the Go [int] it is, and so as a number for
    every sequence a Go slice can hold (at most [int_max] events). *)
Theorem replay_fresh_Version (now : Time) (clientID resource : string)
    (events : list Event) :
  agg_Version (replay now (NewRateLimitAggregate clientID resource) events)
  = wrap_int (len events)
  /\ (len events <= int_max ->
      agg_Version (replay now (NewRateLimitAggregate clientID resource) events)
      = len events).
Proof.
  assert (Hv : agg_Version (replay now (NewRateLimitAggregate clientID resource) events)
               = wrap_int (len events)).
  { rewrite replay_Version; [reflexivity |]. cbn. unfold int_min, int_max. lia. }
  split; [exact Hv |].
  intros Hlen. rewrite Hv. apply wrap_int_id.
  pose proof (len_nonneg events). unfold int_min. lia.
Qed.

Lemma rehydrate_snoc (now : Time) (events : list Event) (event : Event)
    (clientID resource : string) :
  rehydrate now (events ++ [event]) clientID resource
  = ApplyEvent now (rehydrate now events clientID resource) event.
Proof. unfold rehydrate. rewrite replay_app. reflexivity. Qed.

Lemma rehydrate_Version (now : Time) (events : list Event) (clientID resource : string) :
  len events <= int_max ->
  agg_Version (rehydrate now events clientID resource) = len events.
Proof.
  intros Hlen. unfold rehydrate.
  rewrite replay_Version by (cbn; unfold int_min, int_max; lia).
  cbn [NewRateLimitAggregate agg_Version]. apply wrap_int_id.
  pose proof (len_nonneg events). unfold int_min. lia.
Qed.

(** [CanMakeRequest] spelled out: the request is refused when the aggregate
    is blocked and [now] is before [BlockedUntil], or when [now] is not
    after [WindowEnd] and no quota remains. The rule is not consulted. *)
Lemma CanMakeRequest_false_iff (now : Time) (a : RateLimitAggregate) (rule : RateLimitRule) :
  CanMakeRequest now a rule = false
  <-> (state_IsBlocked (agg_State a) = true /\ now < state_BlockedUntil (agg_State a))
      \/ (now <= state_WindowEnd (agg_State a) /\ state_RemainingQuota (agg_State a) <= 0).
Proof.
  unfold CanMakeRequest, Before, After.
  destruct (state_IsBlocked (agg_State a)); cbn [andb];
    destruct (Z.ltb_spec now (state_BlockedUntil (agg_State a)));
    destruct (Z.ltb_spec (state_WindowEnd (agg_State a)) now);
    destruct (Z.ltb_spec 0 (state_RemainingQuota (agg_State a)));
    split; intros H'; try done; try lia; try (right; lia); try (left; split; [done | lia]);
    destruct H' as [[? ?] | [? ?]]; try done; lia.
Qed.

Section RuntimeProperties.

Variable range_values : forall A : Type, gmap string A -> list A.

(** The command handler appends exactly one event to the stream of the
    aggregate: [RateLimitApplied] when [CanMakeRequest] holds for the
    rehydrated aggregate and the first rule of the resource, and
    [RateLimitExceeded] otherwise. *)
Lemma handleApplyRateLimit_emits (now : Time) (sys : System) (cmd : ApplyRateLimitCommand)
    (rule : RateLimitRule) (rules : list RateLimitRule) :
  let aggregateID := apply_ClientID cmd +:+ ":" +:+ apply_Resource cmd in
  let events := GetEvents (sys_events sys) aggregateID in
  let aggregate := rehydrate now events (apply_ClientID cmd) (apply_Resource cmd) in
  let prior := state_RequestCount (agg_State aggregate) in
  GetByResource range_values (sys_rules sys) (apply_Resource cmd) = rule :: rules ->
  len events <= int_max ->
  exists newEvent,
    handleApplyRateLimit range_values now sys cmd
    = (None, withEvents sys (<[aggregateID := events ++ [newEvent]]> (sys_events sys)))
    /\ if CanMakeRequest now aggregate rule then
         exists e, newEvent = EvApplied e
           /\ applied_WindowStart e = Truncate now (rl_Window rule)
           /\ applied_WindowEnd e = Add (Truncate now (rl_Window rule)) (rl_Window rule)
           /\ applied_RequestCount e = int_add prior 1
           /\ applied_Limit e = rl_Limit rule
           /\ applied_RemainingQuota e = int_sub (rl_Limit rule) (int_add prior 1)
       else
         exists e, newEvent = EvExceeded e
           /\ exceeded_RequestCount e = int_add prior 1
           /\ exceeded_Limit e = rl_Limit rule
           /\ exceeded_WindowStart e = state_WindowStart (agg_State aggregate)
           /\ exceeded_WindowEnd e = state_WindowEnd (agg_State aggregate)
           /\ exceeded_BlockedUntil e = state_WindowEnd (agg_State aggregate).
Proof.
  cbv zeta. intros Hrules Hlen.
  unfold handleApplyRateLimit. rewrite Hrules.
  rewrite (rehydrate_Version _ _ _ _ Hlen).
  rewrite SaveEvents_ok by reflexivity.
  destruct (CanMakeRequest now _ rule);
    (eexists; split; [reflexivity |]; eexists; repeat split).
Qed.

(** While no quota remains and the window is open, every command is
    refused, and the refusal keeps the aggregate in that state. *)
Lemma denied_while_window_open (windowEnd : Time) (cmd : ApplyRateLimitCommand)
    (rule : RateLimitRule) (rules : list RateLimitRule) (later : list Time) :
  let aggregateID := apply_ClientID cmd +:+ ":" +:+ apply_Resource cmd in
  forall sys : System,
  GetByResource range_values (sys_rules sys) (apply_Resource cmd) = rule :: rules ->
  (forall now,
     let state := agg_State (rehydrate now (GetEvents (sys_events sys) aggregateID)
                               (apply_ClientID cmd) (apply_Resource cmd)) in
     state_RemainingQuota state <= 0 /\ state_WindowEnd state = windowEnd) ->
  Forall (fun now => now <= windowEnd) later ->
  len (GetEvents (sys_events sys) aggregateID) + len later <= int_max ->
  exists es,
    GetEvents (sys_events (handleApplyRateLimit_each range_values later sys cmd)) aggregateID
    = GetEvents (sys_events sys) aggregateID ++ map EvExceeded es
    /\ length es = length later.
Proof.
  cbv zeta. induction later as [| now later IH]; intros sys Hrules Hinv Hlater Hlen.
  - exists []. cbn. by rewrite app_nil_r.
  - apply Forall_cons in Hlater as [Hnow Hlater].
    pose proof (len_nonneg later) as Hnn.
    assert (Hlen1 : len (GetEvents (sys_events sys)
                           (apply_ClientID cmd +:+ ":" +:+ apply_Resource cmd)) <= int_max).
    { unfold len in *. cbn [length] in Hlen. lia. }
    destruct (handleApplyRateLimit_emits now sys cmd rule rules Hrules Hlen1)
      as (newEvent & Hrun & Hshape).
    destruct (Hinv now) as [Hquota Hend].
    assert (Hcan : CanMakeRequest now
                     (rehydrate now (GetEvents (sys_events sys)
                        (apply_ClientID cmd +:+ ":" +:+ apply_Resource cmd))
                        (apply_ClientID cmd) (apply_Resource cmd)) rule = false).
    { apply CanMakeRequest_false_iff. right. split; [lia | assumption]. }
    rewrite Hcan in Hshape. destruct Hshape as (e & -> & _).
    cbn [handleApplyRateLimit_each]. rewrite Hrun. cbn [snd].
    destruct (IH (withEvents sys
                    (<[apply_ClientID cmd +:+ ":" +:+ apply_Resource cmd :=
                       GetEvents (sys_events sys)
                         (apply_ClientID cmd +:+ ":" +:+ apply_Resource cmd)
                       ++ [EvExceeded e]]> (sys_events sys))))
      as (es & Hes & Hcount).
    + exact Hrules.
    + intros now'. cbn [withEvents sys_events]. rewrite GetEvents_insert, rehydrate_snoc.
      cbn. apply (Hinv now').
    + exact Hlater.
    + cbn [withEvents sys_events]. rewrite GetEvents_insert, len_app.
      unfold len in *. cbn [length] in *. lia.
    + exists (e :: es). split; [| cbn; lia].
      rewrite Hes. cbn [withEvents sys_events]. rewrite GetEvents_insert.
      rewrite <- app_assoc. reflexivity.
Qed.

(** C3, as the code has it. A rule with limit 0 is never consulted when a
    request is admitted. The command is refused (a [RateLimitExceeded]
    event, no [RateLimitApplied] event) exactly when the aggregate is blocked
    with [now] before [BlockedUntil], or [now] is not after [WindowEnd] and
    the remaining quota is not positive. From a fresh aggregate the command
    is admitted, with request count 1 and remaining quota -1; and once a
    command is admitted under the rule, every later command handled up to
    the end of the window it opened is refused. *)
Theorem limit_zero_refuses_within_window (now : Time) (sys : System)
    (cmd : ApplyRateLimitCommand) (rule : RateLimitRule) (rules : list RateLimitRule) :
  let aggregateID := apply_ClientID cmd +:+ ":" +:+ apply_Resource cmd in
  let events := GetEvents (sys_events sys) aggregateID in
  let aggregate := rehydrate now events (apply_ClientID cmd) (apply_Resource cmd) in
  let state := agg_State aggregate in
  let sys' := (handleApplyRateLimit range_values now sys cmd).2 in
  GetByResource range_values (sys_rules sys) (apply_Resource cmd) = rule :: rules ->
  rl_Limit rule = 0 ->
  len events <= int_max ->
  (exists newEvent,
     handleApplyRateLimit range_values now sys cmd
     = (None, withEvents sys (<[aggregateID := events ++ [newEvent]]> (sys_events sys)))
     /\ ((exists e, newEvent = EvExceeded e)
         <-> (state_IsBlocked state = true /\ now < state_BlockedUntil state)
             \/ (now <= state_WindowEnd state /\ state_RemainingQuota state <= 0))
     /\ ((exists e, newEvent = EvApplied e)
         <-> ~ ((state_IsBlocked state = true /\ now < state_BlockedUntil state)
                \/ (now <= state_WindowEnd state /\ state_RemainingQuota state <= 0))))
  /\ (events = [] -> zeroTime < now ->
      exists e, GetEvents (sys_events sys') aggregateID = [EvApplied e]
        /\ applied_RequestCount e = 1 /\ applied_RemainingQuota e = -1)
  /\ (forall e, GetEvents (sys_events sys') aggregateID = events ++ [EvApplied e] ->
      -1 <= state_RequestCount state < int_max ->
      forall later,
        Forall (fun now' => now' <= applied_WindowEnd e) later ->
        len events + 1 + len later <= int_max ->
        exists es,
          GetEvents (sys_events (handleApplyRateLimit_each range_values later sys' cmd)) aggregateID
          = events ++ EvApplied e :: map EvExceeded es
          /\ length es = length later).
Proof.
  cbv zeta. intros Hrules Hlimit Hlen.
  destruct (handleApplyRateLimit_emits now sys cmd rule rules Hrules Hlen)
    as (newEvent & Hrun & Hshape).
  rewrite Hrun. cbn [snd withEvents sys_events]. rewrite GetEvents_insert.
  pose proof (CanMakeRequest_false_iff now
                (rehydrate now (GetEvents (sys_events sys)
                   (apply_ClientID cmd +:+ ":" +:+ apply_Resource cmd))
                   (apply_ClientID cmd) (apply_Resource cmd)) rule) as Hiff.
  split; [| split].
  - exists newEvent. split; [reflexivity |].
    destruct (CanMakeRequest now _ rule); destruct Hshape as (e & -> & _); split; split.
    + intros (e' & He'). discriminate He'.
    + intros Hc. apply Hiff in Hc. discriminate Hc.
    + intros _ Hc. apply Hiff in Hc. discriminate Hc.
    + intros _. by exists e.
    + intros _. by apply Hiff.
    + intros _. by exists e.
    + intros (e' & He'). discriminate He'.
    + intros Hc. exfalso. apply Hc. by apply Hiff.
  - intros Hfresh Hnow. rewrite Hfresh in *.
    assert (Hcan : CanMakeRequest now (rehydrate now [] (apply_ClientID cmd)
                                         (apply_Resource cmd)) rule = true).
    { unfold CanMakeRequest, After. cbn.
      destruct (Z.ltb_spec zeroTime now); [reflexivity | lia]. }
    rewrite Hcan in Hshape.
    destruct Hshape as (e & -> & _ & _ & Hcount & _ & Hquota).
    exists e. split; [reflexivity |].
    rewrite Hcount, Hquota, Hlimit. split; reflexivity.
  - intros e He Hprior later Hlater Hlen'.
    apply app_inv_head in He. injection He as ->.
    destruct (CanMakeRequest now _ rule); destruct Hshape as (e' & He' & Hshape);
      [| discriminate He'].
    injection He' as <-.
    destruct Hshape as (_ & Hend & Hcount & _ & Hquota).
    destruct (denied_while_window_open (applied_WindowEnd e) cmd rule rules later
                (withEvents sys
                   (<[apply_ClientID cmd +:+ ":" +:+ apply_Resource cmd :=
                      GetEvents (sys_events sys)
                        (apply_ClientID cmd +:+ ":" +:+ apply_Resource cmd)
                      ++ [EvApplied e]]> (sys_events sys))))
      as (es & Hes & Hcount').
    + exact Hrules.
    + intros now'. cbn [withEvents sys_events]. rewrite GetEvents_insert, rehydrate_snoc.
      cbn. split; [| reflexivity].
      rewrite Hquota, Hlimit. unfold int_sub, int_add.
      rewrite (wrap_int_id (_ + 1)) by int_lia.
      rewrite wrap_int_id by int_lia. lia.
    + exact Hlater.
    + cbn [withEvents sys_events]. rewrite GetEvents_insert, len_app.
      change (len [EvApplied e]) with 1. exact Hlen'.
    + exists es. split; [| exact Hcount'].
      rewrite Hes. cbn [withEvents sys_events]. rewrite GetEvents_insert.
      rewrite <- app_assoc. reflexivity.
Qed.

(** ** Reset *)

Lemma withEvents_same (sys : System) : withEvents sys (sys_events sys) = sys.
Proof. destruct sys; reflexivity. Qed.

(** [handleResetRateLimit] saves its event with the expected version 0,
    whatever the stream holds: the command is refused with a concurrency
    conflict as soon as the aggregate has an event, and nothing is stored. *)
Lemma ResetRateLimit_conflict (now : Time) (sys : System) (clientID resource : string) :
  let events := GetEvents (sys_events sys) (clientID +:+ ":" +:+ resource) in
  events <> [] ->
  ResetRateLimit range_values now sys clientID resource
  = (Some (ErrConcurrencyConflict 0 (len events)), sys).
Proof.
  cbv zeta. intros Hne.
  unfold ResetRateLimit, Handle, handleResetRateLimit. cbn [resetcmd_ClientID resetcmd_Resource].
  rewrite SaveEvents_conflict.
  - by rewrite withEvents_same.
  - destruct (GetEvents _ _); [done | unfold len; cbn; lia].
Qed.

(** On an aggregate without events the reset is stored, stamped [now]. *)
Lemma ResetRateLimit_fresh (now : Time) (sys : System) (clientID resource : string) :
  let aggregateID := clientID +:+ ":" +:+ resource in
  GetEvents (sys_events sys) aggregateID = [] ->
  exists e,
    ResetRateLimit range_values now sys clientID resource
    = (None, withEvents sys (<[aggregateID := [EvWindowReset e]]> (sys_events sys)))
    /\ ev_Time (reset_Base e) = now /\ reset_WindowStart e = now.
Proof.
  cbv zeta. intros Hfresh.
  unfold ResetRateLimit, Handle, handleResetRateLimit. cbn [resetcmd_ClientID resetcmd_Resource].
  rewrite SaveEvents_ok by (rewrite Hfresh; reflexivity).
  rewrite Hfresh. eexists. split; [reflexivity |]. split; reflexivity.
Qed.

(** The reset command never touches the read model, so the status read
    after it is the status read before it. *)
Lemma ResetRateLimit_readModel (now : Time) (sys : System) (clientID resource : string) :
  sys_readModel (ResetRateLimit range_values now sys clientID resource).2
  = sys_readModel sys.
Proof.
  unfold ResetRateLimit, Handle, handleResetRateLimit.
  destruct (SaveEvents _ _ _ _) as [err events']. reflexivity.
Qed.

(** ** Rate-limit check *)

(** C9. When the status of the pair in the read model is blocked and [now]
    is before its [BlockedUntil], [CheckRateLimit] returns that status and
    the state it was given: no command is handled, so the event stream of
    the aggregate, and the request count of the aggregate rebuilt from it,
    are what they were. *)
Theorem CheckRateLimit_blocked (now : Time) (sys : System)
    (clientID resource ipAddress userAgent : string) :
  let status := GetRateLimitStatus now (sys_readModel sys) clientID resource in
  let after := (CheckRateLimit range_values now sys clientID resource ipAddress userAgent).2 in
  let aggregateID := clientID +:+ ":" +:+ resource in
  st_IsBlocked status = true ->
  now < st_BlockedUntil status ->
  CheckRateLimit range_values now sys clientID resource ipAddress userAgent = (Ok status, sys)
  /\ GetEvents (sys_events after) aggregateID = GetEvents (sys_events sys) aggregateID
  /\ state_RequestCount
       (agg_State (rehydrate now (GetEvents (sys_events after) aggregateID) clientID resource))
     = state_RequestCount
         (agg_State (rehydrate now (GetEvents (sys_events sys) aggregateID) clientID resource)).
Proof.
  cbv zeta. intros Hblocked Huntil.
  assert (Hrun : CheckRateLimit range_values now sys clientID resource ipAddress userAgent
                 = (Ok (GetRateLimitStatus now (sys_readModel sys) clientID resource), sys)).
  { unfold CheckRateLimit, handleGetRateLimitStatus, Before.
    rewrite Hblocked. cbn [andb].
    destruct (Z.ltb_spec now
                (st_BlockedUntil (GetRateLimitStatus now (sys_readModel sys) clientID resource)));
      [reflexivity | lia]. }
  rewrite Hrun. cbn [snd]. repeat split.
Qed.

End RuntimeProperties.

(** The status kept for a pair keeps its [IsAllowed] through the projection
    of a window reset. *)
Lemma updateFromWindowReset_IsAllowed (r : InMemoryReadModel)
    (event : RateLimitWindowResetEvent) (status : RateLimitStatus) :
  let key := reset_ClientID event +:+ ":" +:+ reset_Resource event in
  rm_statuses r !! key = Some status ->
  st_IsAllowed <$> (rm_statuses (updateFromWindowReset r event) !! key)
  = Some (st_IsAllowed status).
Proof.
  cbv zeta. intros Hkey. unfold updateFromWindowReset. cbn [rm_statuses].
  rewrite Hkey, lookup_insert_eq. reflexivity.
Qed.

(** ** Condition operators *)

(** [compareNumbers] answers 0 for all operands: for operands that are not
    numbers by its two type switches, for numbers by the test of [ok]. *)
Lemma compareNumbers_zero (a b : GoValue) : compareNumbers a b = 0.
Proof. unfold compareNumbers. destruct (toFloat64 a), (toFloat64 b); reflexivity. Qed.

(** So, once the field is found, [greater_than] and [less_than] are false
    and [greater_equal] and [less_equal] are true, whatever is compared. *)
Lemma ordering_operators (r : Rule) (ctx : RuleEvaluationContext) (field : string)
    (fieldValue value : GoValue) :
  fieldValueOf field ctx = Some fieldValue ->
  evaluateCondition r (condition field "greater_than" value) ctx = Some false
  /\ evaluateCondition r (condition field "less_than" value) ctx = Some false
  /\ evaluateCondition r (condition field "greater_equal" value) ctx = Some true
  /\ evaluateCondition r (condition field "less_equal" value) ctx = Some true.
Proof.
  intros Hfield. unfold evaluateCondition, condition. cbn. rewrite Hfield.
  rewrite compareNumbers_zero. repeat split.
Qed.

Lemma evaluateCondition_equals (r : Rule) (ctx : RuleEvaluationContext) (field : string)
    (fieldValue value : GoValue) :
  fieldValueOf field ctx = Some fieldValue ->
  evaluateCondition r (condition field "equals" value) ctx = go_eq fieldValue value
  /\ evaluateCondition r (condition field "not_equals" value) ctx = go_ne fieldValue value.
Proof.
  intros Hfield. unfold evaluateCondition, condition. cbn. rewrite Hfield. split; reflexivity.
Qed.

Lemma evaluateCondition_in (r : Rule) (ctx : RuleEvaluationContext) (field : string)
    (fieldValue : GoValue) (values : list GoValue) :
  fieldValueOf field ctx = Some fieldValue ->
  evaluateCondition r (condition field "in" (VSlice values)) ctx = in_loop fieldValue values
  /\ evaluateCondition r (condition field "not_in" (VSlice values)) ctx
     = not_in_loop fieldValue values.
Proof.
  intros Hfield. unfold evaluateCondition, condition. cbn. rewrite Hfield. split; reflexivity.
Qed.

(** A condition value that is not a sequence of candidates makes both [in]
    and [not_in] false. *)
Lemma evaluateCondition_in_not_a_slice (r : Rule) (ctx : RuleEvaluationContext)
    (field : string) (value : GoValue) :
  (forall values, value <> VSlice values) ->
  evaluateCondition r (condition field "in" value) ctx = Some false
  /\ evaluateCondition r (condition field "not_in" value) ctx = Some false.
Proof.
  intros Hvalue. unfold evaluateCondition, condition. cbn.
  destruct (fieldValueOf field ctx); [| split; reflexivity].
  destruct value; try (split; reflexivity). by destruct (Hvalue l).
Qed.

Lemma go_ne_complement (a b : GoValue) (answer : bool) :
  go_ne a b = Some answer <-> go_eq a b = Some (negb answer).
Proof.
  unfold go_ne. destruct (go_eq a b) as [[] |], answer; cbn; split; congruence.
Qed.

Lemma not_in_loop_complement (fieldValue : GoValue) (values : list GoValue) (answer : bool) :
  not_in_loop fieldValue values = Some answer
  <-> in_loop fieldValue values = Some (negb answer).
Proof.
  induction values as [| val values IH]; cbn.
  - destruct answer; cbn; split; congruence.
  - destruct (go_eq fieldValue val) as [[] |]; [| exact IH |].
    + destruct answer; cbn; split; congruence.
    + split; congruence.
Qed.

(** C8, as the code has it. For a field that resolves to a value, and every
    condition value, [not_equals] evaluates to true exactly when [equals]
    evaluates to false (and to false exactly when [equals] evaluates to
    true). For every condition value that is a sequence of candidates,
    [not_in] evaluates to true exactly when [in] evaluates to false (and to
    false exactly when [in] evaluates to true). For every condition value
    that is not such a sequence, [in] and [not_in] both evaluate to false.
    When a comparison panics, both operators of a pair panic. *)
Theorem equals_and_in_complements (r : Rule) (ctx : RuleEvaluationContext)
    (field : string) (fieldValue : GoValue) :
  fieldValueOf field ctx = Some fieldValue ->
  (forall value answer,
     evaluateCondition r (condition field "not_equals" value) ctx = Some answer
     <-> evaluateCondition r (condition field "equals" value) ctx = Some (negb answer))
  /\ (forall values answer,
        evaluateCondition r (condition field "not_in" (VSlice values)) ctx = Some answer
        <-> evaluateCondition r (condition field "in" (VSlice values)) ctx
            = Some (negb answer))
  /\ (forall value,
        (forall values, value <> VSlice values) ->
        evaluateCondition r (condition field "in" value) ctx = Some false
        /\ evaluateCondition r (condition field "not_in" value) ctx = Some false).
Proof.
  intros Hfield. split; [| split].
  - intros value answer.
    destruct (evaluateCondition_equals r ctx field fieldValue value Hfield) as [-> ->].
    apply go_ne_complement.
  - intros values answer.
    destruct (evaluateCondition_in r ctx field fieldValue values Hfield) as [-> ->].
    apply not_in_loop_complement.
  - intros value Hvalue. by apply evaluateCondition_in_not_a_slice.
Qed.

(** ** History *)

Lemma inTimeRange_spec (startTime endTime : Time) (event : RateLimitEvent) :
  inTimeRange startTime endTime event = true
  <-> startTime < he_Timestamp event /\ he_Timestamp event < endTime.
Proof.
  unfold inTimeRange, After, Before. rewrite andb_true_iff, !Z.ltb_lt. reflexivity.
Qed.

Lemma inTimeRange_endpoint (startTime endTime : Time) (event : RateLimitEvent) :
  he_Timestamp event = startTime \/ he_Timestamp event = endTime ->
  inTimeRange startTime endTime event = false.
Proof.
  intros Hend. apply not_true_iff_false. rewrite inTimeRange_spec. lia.
Qed.

Lemma filterByTimeRange_app (startTime endTime : Time) (l k : list RateLimitEvent) :
  filterByTimeRange startTime endTime (l ++ k)
  = filterByTimeRange startTime endTime l ++ filterByTimeRange startTime endTime k.
Proof.
  induction l as [| event l IH]; [reflexivity |].
  cbn. destruct (inTimeRange startTime endTime event); cbn; by rewrite IH.
Qed.

Lemma elem_of_filterByTimeRange (startTime endTime : Time) (l : list RateLimitEvent)
    (event : RateLimitEvent) :
  event ∈ filterByTimeRange startTime endTime l
  <-> event ∈ l /\ startTime < he_Timestamp event /\ he_Timestamp event < endTime.
Proof.
  induction l as [| x l IH]; cbn.
  - rewrite !elem_of_nil. tauto.
  - destruct (inTimeRange startTime endTime x) eqn:Hx.
    + rewrite !elem_of_cons, IH. apply inTimeRange_spec in Hx.
      split; [intros [-> | ?]; tauto | tauto].
    + rewrite elem_of_cons, IH. apply not_true_iff_false in Hx.
      rewrite inTimeRange_spec in Hx.
      split; [tauto | intros [[-> | ?] ?]; tauto].
Qed.

(** The filter written with the strict comparisons themselves. *)
Lemma filterByTimeRange_strict (startTime endTime : Time) (l : list RateLimitEvent) :
  filterByTimeRange startTime endTime l
  = filter (fun event => startTime < he_Timestamp event /\ he_Timestamp event < endTime) l.
Proof.
  induction l as [| x l IH]; [reflexivity |].
  cbn [filterByTimeRange]. rewrite filter_cons, IH.
  destruct (inTimeRange startTime endTime x) eqn:Hx.
  - apply inTimeRange_spec in Hx. by rewrite decide_True.
  - apply not_true_iff_false in Hx. rewrite inTimeRange_spec in Hx. by rewrite decide_False.
Qed.

Lemma slice_list_elem_of {A} (l paged : list A) (lo hi : Z) (x : A) :
  slice_list l lo hi = Some paged -> x ∈ paged -> x ∈ l.
Proof.
  unfold slice_list. destruct (_ && _); [| discriminate].
  intros [= <-] Hx.
  apply subseteq_take in Hx. by apply subseteq_drop in Hx.
Qed.

Lemma GetRateLimitHistory_elem_of (r : InMemoryReadModel) (clientID resource : string)
    (startTime endTime : Time) (limit offset : Z) (hist : RateLimitHistory)
    (event : RateLimitEvent) :
  GetRateLimitHistory r clientID resource startTime endTime limit offset = Some hist ->
  event ∈ hist_Events hist ->
  event ∈ filterByTimeRange startTime endTime
            (default [] (rm_history r !! (clientID +:+ ":" +:+ resource))).
Proof.
  unfold GetRateLimitHistory.
  destruct (_ <=? offset).
  - intros [= <-]. cbn. by rewrite elem_of_nil.
  - destruct (slice_list _ _ _) as [paged |] eqn:Hslice; [| discriminate].
    intros [= <-]. cbn. by apply (slice_list_elem_of _ _ _ _ _ Hslice).
Qed.

Lemma GetRateLimitHistory_TotalCount (r : InMemoryReadModel) (clientID resource : string)
    (startTime endTime : Time) (limit offset : Z) (hist : RateLimitHistory) :
  GetRateLimitHistory r clientID resource startTime endTime limit offset = Some hist ->
  hist_TotalCount hist
  = len (filterByTimeRange startTime endTime
           (default [] (rm_history r !! (clientID +:+ ":" +:+ resource)))).
Proof.
  unfold GetRateLimitHistory.
  destruct (_ <=? offset).
  - by intros [= <-].
  - destruct (slice_list _ _ _) as [paged |]; [| discriminate]. by intros [= <-].
Qed.

(** C10. An event of the history whose timestamp is the start time or the
    end time of the query is not among the events returned, and is not
    counted: every returned event lies strictly between the two, the total
    count is the number of events strictly between the two, and the answer
    is the one the query gets on the history without that event. *)
Theorem GetRateLimitHistory_excludes_endpoints (r : InMemoryReadModel)
    (clientID resource : string) (startTime endTime : Time) (limit offset : Z)
    (before after : list RateLimitEvent) (event : RateLimitEvent) (hist : RateLimitHistory) :
  let key := clientID +:+ ":" +:+ resource in
  rm_history r !! key = Some (before ++ event :: after) ->
  he_Timestamp event = startTime \/ he_Timestamp event = endTime ->
  GetRateLimitHistory r clientID resource startTime endTime limit offset = Some hist ->
  (event ∉ hist_Events hist)
  /\ (forall e, e ∈ hist_Events hist ->
        startTime < he_Timestamp e /\ he_Timestamp e < endTime)
  /\ hist_TotalCount hist
     = len (filter (fun e => startTime < he_Timestamp e /\ he_Timestamp e < endTime)
              (before ++ after))
  /\ GetRateLimitHistory
       {| rm_statuses := rm_statuses r;
          rm_history := <[key := before ++ after]> (rm_history r);
          rm_stats := rm_stats r |}
       clientID resource startTime endTime limit offset
     = Some hist.
Proof.
  cbv zeta. intros Hkey Hend Hrun.
  assert (Hfilter : filterByTimeRange startTime endTime (before ++ event :: after)
                    = filterByTimeRange startTime endTime (before ++ after)).
  { rewrite !filterByTimeRange_app. cbn [filterByTimeRange].
    by rewrite (inTimeRange_endpoint _ _ _ Hend). }
  assert (Hin : forall e, e ∈ hist_Events hist ->
                  startTime < he_Timestamp e /\ he_Timestamp e < endTime).
  { intros e He. apply (GetRateLimitHistory_elem_of _ _ _ _ _ _ _ _ _ Hrun) in He.
    apply elem_of_filterByTimeRange in He. tauto. }
  repeat split.
  - intros He. apply Hin in He. lia.
  - by apply Hin.
  - by apply Hin.
  - rewrite (GetRateLimitHistory_TotalCount _ _ _ _ _ _ _ _ Hrun), Hkey.
    cbn [default from_option id].
    by rewrite Hfilter, filterByTimeRange_strict.
  - rewrite <- Hrun. unfold GetRateLimitHistory. cbn [rm_history].
    rewrite lookup_insert_eq, Hkey. cbn [default from_option id]. by rewrite Hfilter.
Qed.

(** ** Integrated service *)


Lemma hasBlockingIn_true (actions : list RuleAction) :
  hasBlockingIn actions = true
  <-> exists action, action ∈ actions
        /\ (act_Type action = "deny" \/ act_Type action = "block").
Proof.
  induction actions as [| action actions IH]; cbn.
  - split; [discriminate | intros (a & Ha & _); by apply elem_of_nil in Ha].
  - unfold isBlockingAction.
    destruct (String.eqb_spec (act_Type action) "deny") as [Hd | Hd]; cbn.
    { split; [intros _ | reflexivity]. exists action. split; [left | by left]. }
    destruct (String.eqb_spec (act_Type action) "block") as [Hb | Hb]; cbn.
    { split; [intros _ | reflexivity]. exists action. split; [left | by right]. }
    rewrite IH. split.
    + intros (a & Ha & Ht). exists a. split; [by right | exact Ht].
    + intros (a & Ha & Ht). apply elem_of_cons in Ha as [-> | Ha].
      * destruct Ht; contradiction.
      * by exists a.
Qed.

Lemma blocks_test (result : RuleEvaluationResult) :
  res_Matched result && hasBlockingIn (res_Actions result) = true <-> blocks result.
Proof. unfold blocks. by rewrite andb_true_iff, hasBlockingIn_true. Qed.

(** [HasBlockingAction] holds exactly when some result blocks; the rule id
    [getFirstBlockingRuleID] then returns is that of the first result, in the
    order of evaluation, that blocks. *)
Lemma HasBlockingAction_first (results : list RuleEvaluationResult) :
  (exists result, result ∈ results /\ blocks result) ->
  HasBlockingAction results = true
  /\ exists earlier first later,
       results = earlier ++ first :: later
       /\ Forall (fun result => ~ blocks result) earlier
       /\ blocks first
       /\ getFirstBlockingRuleID results = res_RuleID first.
Proof.
  induction results as [| result results IH]; intros (b & Hb & Hblocks).
  - by apply elem_of_nil in Hb.
  - cbn. destruct (res_Matched result && hasBlockingIn (res_Actions result)) eqn:Htest.
    + split; [reflexivity |]. exists [], result, results.
      repeat split; [constructor | by apply blocks_test..].
    + assert (Hnot : ~ blocks result).
      { rewrite <- blocks_test. congruence. }
      apply elem_of_cons in Hb as [-> | Hb]; [contradiction |].
      destruct IH as (Hhas & earlier & first & later & -> & Hearlier & Hfirst & Hid).
      { by exists b. }
      split; [exact Hhas |]. exists (result :: earlier), first, later.
      repeat split; [by constructor | apply Hfirst.. | exact Hid].
Qed.

Lemma HasBlockingAction_true (results : list RuleEvaluationResult) :
  HasBlockingAction results = true -> exists result, result ∈ results /\ blocks result.
Proof.
  induction results as [| result results IH]; cbn; [discriminate |].
  destruct (res_Matched result && hasBlockingIn (res_Actions result)) eqn:Htest.
  - intros _. exists result. split; [left | by apply blocks_test].
  - intros Hrest. destruct (IH Hrest) as (b & Hb & Hblocks). exists b. split; [by right | done].
Qed.

(** A rule that is enabled, whose conditions all hold and that has an
    action of type [deny] or [block] yields a result that blocks, whatever
    its priority. *)
Lemma EvaluateRule_blocks (now : Time) (rule : Rule) (ctx : RuleEvaluationContext) :
  rule_Enabled rule = true ->
  evaluateConditions rule (rule_Conditions rule) ctx = Some true ->
  (exists action, action ∈ rule_Actions rule
     /\ (act_Type action = "deny" \/ act_Type action = "block")) ->
  exists result, EvaluateRule now rule ctx = Some result
    /\ res_RuleID result = rule_ID rule /\ blocks result.
Proof.
  intros Henabled Hconds Haction. unfold EvaluateRule.
  rewrite Henabled, Hconds. cbn. eexists. split; [reflexivity |].
  split; [reflexivity |]. split; [reflexivity | exact Haction].
Qed.

Lemma evaluateEach_elem_of (now : Time) (ctx : RuleEvaluationContext) (rules : list Rule) :
  forall results rule result,
    evaluateEach now rules ctx = Some results ->
    rule ∈ rules ->
    EvaluateRule now rule ctx = Some result ->
    result ∈ results.
Proof.
  induction rules as [| r rules IH]; intros results rule result Heach Hrule Hresult.
  - by apply elem_of_nil in Hrule.
  - cbn in Heach.
    destruct (EvaluateRule now r ctx) as [res |] eqn:Hr; [| discriminate].
    destruct (evaluateEach now rules ctx) as [rest |] eqn:Hrest; [| discriminate].
    injection Heach as <-.
    apply elem_of_cons in Hrule as [-> | Hrule].
    + rewrite Hr in Hresult. injection Hresult as <-. left.
    + right. by apply (IH rest rule result).
Qed.

Section IntegratedProperties.

Variable range_values : forall A : Type, gmap string A -> list A.
Variable sort_by_priority : list Rule -> list Rule.
Variable Atoi : string -> option Z.
Variable ParseDuration : string -> option Duration.

(** Both ways a rule reaches the repository at run time keep a limit that
    is not positive out: the HTTP handler answers 400, and the dynamic
    installation skips the action. *)
Lemma CreateRuleHandler_rejects_limit (now : Time) (sys : System) (req : CreateRuleRequest) :
  req_Limit req <= 0 ->
  CreateRuleHandler range_values ParseDuration now sys req = (400, sys).
Proof.
  intros Hlimit. unfold CreateRuleHandler.
  destruct (Z.leb_spec (req_Limit req) 0); [| lia].
  by rewrite orb_true_r.
Qed.


Lemma applyDynamicRateLimiting_limits_positive (clock : nat -> Time)
    (actions : list RuleAction) (resource : string) :
  forall (k : nat) (sys : System),
    limits_positive (sys_rules sys) ->
    limits_positive
      (sys_rules (applyDynamicRateLimiting range_values Atoi ParseDuration
                    clock k sys actions resource).1.2).
Proof.
  induction actions as [| action actions IH]; intros k sys Hpos; [exact Hpos |].
  cbn [applyDynamicRateLimiting].
  destruct (String.eqb (act_Type action) "rate_limit"); [| by apply IH].
  destruct (act_Parameters action !! "limit") as [limit |]; [| by apply IH].
  destruct (act_Parameters action !! "window") as [window |]; [| by apply IH].
  destruct (Z.ltb_spec 0 (limitOf Atoi limit)) as [Hlimit |]; [| by apply IH].
  destruct (0 <? windowOf ParseDuration window); [| by apply IH].
  cbn [andb]. unfold CreateRule, Handle, handleCreateRule.
  apply IH. cbn [withRules sys_rules]. unfold Save. cbn [rl_ID].
  intros id rule Hlookup. apply lookup_insert_Some in Hlookup as [[_ <-] | [_ Hlookup]].
  - exact Hlimit.
  - by apply (Hpos id).
Qed.

(** C1. When some result of the rule evaluation is matched and has an
    action of type [deny] or [block], [CheckRequestWithRules] answers that
    the request is not allowed, with the reason "blocked by rule" and the
    rule id of the first such result in the order of evaluation, and it
    returns the state it was given: no rule is created and no command is
    handled, so the event store is unchanged. Neither the priority of the
    rule nor the state of the rate limiter enters. *)
Theorem CheckRequestWithRules_blocked (clock : nat -> Time) (sys : System)
    (clientID resource ipAddress userAgent : string)
    (metadata : gmap string string) (requestData : gmap string GoValue)
    (ruleResults : list RuleEvaluationResult) :
  let evalCtx :=
    {| ctx_ClientID := clientID; ctx_Resource := resource; ctx_IPAddress := ipAddress;
       ctx_UserAgent := userAgent; ctx_Timestamp := clock O;
       ctx_Metadata := metadata; ctx_RequestData := requestData |} in
  EvaluateRules range_values sort_by_priority (clock O) (sys_engineRules sys) evalCtx
  = Some ruleResults ->
  (exists result, result ∈ ruleResults /\ blocks result) ->
  exists earlier first later decision,
    ruleResults = earlier ++ first :: later
    /\ Forall (fun result => ~ blocks result) earlier
    /\ blocks first
    /\ CheckRequestWithRules range_values sort_by_priority Atoi ParseDuration
         clock sys clientID resource ipAddress userAgent metadata requestData
       = Some (Ok decision, sys)
    /\ rc_Allowed decision = false
    /\ rc_Reason decision = "blocked by rule"
    /\ rc_BlockingRuleID decision = res_RuleID first
    /\ rc_RateLimitStatus decision = None.
Proof.
  cbv zeta. intros Heval Hsome.
  destruct (HasBlockingAction_first ruleResults Hsome)
    as (Hhas & earlier & first & later & Hsplit & Hearlier & Hfirst & Hid).
  exists earlier, first, later. eexists.
  split; [exact Hsplit |]. split; [exact Hearlier |]. split; [exact Hfirst |].
  unfold CheckRequestWithRules. rewrite Heval, Hhas.
  split; [reflexivity |]. cbn. rewrite Hid. repeat split.
Qed.

(** In terms of the rules: a rule among those evaluated that is enabled,
    whose conditions hold for the request and that denies or blocks, makes
    the answer "not allowed", at whatever place the sort leaves it. *)
Lemma CheckRequestWithRules_denying_rule (clock : nat -> Time) (sys : System)
    (clientID resource ipAddress userAgent : string)
    (metadata : gmap string string) (requestData : gmap string GoValue)
    (ruleResults : list RuleEvaluationResult) (rule : Rule) :
  let evalCtx :=
    {| ctx_ClientID := clientID; ctx_Resource := resource; ctx_IPAddress := ipAddress;
       ctx_UserAgent := userAgent; ctx_Timestamp := clock O;
       ctx_Metadata := metadata; ctx_RequestData := requestData |} in
  EvaluateRules range_values sort_by_priority (clock O) (sys_engineRules sys) evalCtx
  = Some ruleResults ->
  rule ∈ sort_by_priority (GetActiveRules range_values (sys_engineRules sys)) ->
  rule_Enabled rule = true ->
  evaluateConditions rule (rule_Conditions rule) evalCtx = Some true ->
  (exists action, action ∈ rule_Actions rule
     /\ (act_Type action = "deny" \/ act_Type action = "block")) ->
  exists decision,
    CheckRequestWithRules range_values sort_by_priority Atoi ParseDuration
      clock sys clientID resource ipAddress userAgent metadata requestData
    = Some (Ok decision, sys)
    /\ rc_Allowed decision = false.
Proof.
  cbv zeta. intros Heval Hrule Henabled Hconds Haction.
  destruct (EvaluateRule_blocks (clock O) rule _ Henabled Hconds Haction)
    as (result & Hresult & _ & Hblocks).
  assert (Hin : result ∈ ruleResults).
  { unfold EvaluateRules in Heval. by apply (evaluateEach_elem_of _ _ _ _ _ _ Heval Hrule). }
  destruct (HasBlockingAction_first ruleResults) as [Hhas _]; [by exists result |].
  unfold CheckRequestWithRules. rewrite Heval, Hhas.
  eexists. split; reflexivity.
Qed.

End IntegratedProperties.


(** * The code on concrete inputs *)

(** C2, on an input: a second writer that still expects version 0 is
    refused, and the stream keeps the first writer's event alone. *)
Example SaveEvents_second_writer :
  let first := EvRequested
    {| requested_Base := {| ev_ID := "1"; ev_Type := "RateLimitRequested";
                            ev_Time := Scenario.t0; ev_AggrID := "u:login"; ev_Version := 1 |};
       requested_ClientID := "u"; requested_Resource := "login";
       requested_RequestedAt := Scenario.t0; requested_IPAddress := "";
       requested_UserAgent := "" |} in
  let stored := (SaveEvents ∅ "u:login" [first] 0).2 in
  GetEvents stored "u:login" = [first]
  /\ SaveEvents stored "u:login" [first] 0 = (Some (ErrConcurrencyConflict 0 1), stored)
  /\ GetEvents (SaveEvents stored "u:login" [first] 1).2 "u:login" = [first; first].
Proof. cbv zeta. repeat split; vm_compute; reflexivity. Qed.

(** C1, on the bot request of the default configuration. *)
Example CheckRequestWithRules_bot :
  CheckRequestWithRules range_in_key_order stable_sort_by_priority Atoi_digits
    ParseDuration_minutes Scenario.clock Scenario.system
    "u" "api" "8.8.8.8" "evil-bot/1.0" ∅ ∅
  = Some (Ok {| rc_Allowed := false; rc_Reason := "blocked by rule";
                rc_RuleResults := Scenario.bot_results; rc_RateLimitStatus := None;
                rc_BlockingRuleID := "block-suspicious-agents";
                rc_AppliedActions := [] |}, Scenario.system).
Proof. vm_compute. reflexivity. Qed.

(** The hypotheses of [CheckRequestWithRules_blocked] hold for the bot
    request, and so does its conclusion. *)
Lemma CheckRequestWithRules_blocked_witness :
  (exists result, result ∈ Scenario.bot_results /\ blocks result)
  /\ exists decision,
       CheckRequestWithRules range_in_key_order stable_sort_by_priority Atoi_digits
         ParseDuration_minutes Scenario.clock Scenario.system
         "u" "api" "8.8.8.8" "evil-bot/1.0" ∅ ∅
       = Some (Ok decision, Scenario.system)
       /\ rc_Allowed decision = false
       /\ rc_Reason decision = "blocked by rule".
Proof.
  assert (Hsome : exists result, result ∈ Scenario.bot_results /\ blocks result).
  { exists Scenario.bot_denied. split.
    - apply (list_elem_of_lookup_2 _ 1). vm_compute. reflexivity.
    - split; [reflexivity |]. eexists. split; [left | left; reflexivity]. }
  split; [exact Hsome |].
  destruct (CheckRequestWithRules_blocked range_in_key_order stable_sort_by_priority
              Atoi_digits ParseDuration_minutes Scenario.clock Scenario.system
              "u" "api" "8.8.8.8" "evil-bot/1.0" ∅ ∅ Scenario.bot_results)
    as (_ & _ & _ & decision & _ & _ & _ & Hrun & Hallowed & Hreason & _).
  - vm_compute. reflexivity.
  - exact Hsome.
  - exists decision. split; [exact Hrun |]. split; [exact Hallowed | exact Hreason].
Defined.

(** C5, on an input: three events, version 3. *)
Example replay_three_events :
  let e := EvWindowReset
    {| reset_Base := {| ev_ID := "r"; ev_Type := "RateLimitWindowReset";
                        ev_Time := Scenario.t0; ev_AggrID := "u:login"; ev_Version := 1 |};
       reset_ClientID := "u"; reset_Resource := "login";
       reset_WindowStart := Scenario.t0 |} in
  agg_Version (replay Scenario.t0 (NewRateLimitAggregate "u" "login")
                 [e; EvExceeded Scenario.refusal; e]) = 3.
Proof. vm_compute. reflexivity. Qed.

(** The first command against a fresh aggregate is admitted under the rule
    with limit 0: request count 1, remaining quota -1. *)
Example limit_zero_first_request :
  exists e,
    GetEvents (sys_events (handleApplyRateLimit range_in_key_order (Scenario.clock 1)
                             Scenario.system
                             (Scenario.apply_command "closed" (Scenario.clock 1))).2)
      "u:closed" = [EvApplied e]
    /\ applied_Limit e = 0 /\ applied_RequestCount e = 1 /\ applied_RemainingQuota e = -1.
Proof. eexists. vm_compute. repeat split. Qed.

(** C3 does not hold as stated: the first command against the fresh
    aggregate [u:closed], under the rule with limit 0, appends a
    [RateLimitApplied] event. *)
Lemma limit_zero_admits_fresh_request : ~ limit_zero_denies_every_request.
Proof.
  intros Hclaim.
  destruct (Hclaim range_in_key_order (Scenario.clock 1) Scenario.system
              (Scenario.apply_command "closed" (Scenario.clock 1))
              Scenario.zero_rule []) as [e He].
  - vm_compute. reflexivity.
  - reflexivity.
  - vm_compute. discriminate.
  - vm_compute in He. discriminate He.
Qed.

(** The hypotheses of [limit_zero_refuses_within_window] hold for the
    resource [closed], and the two commands that follow the admitted one
    within its window are refused. *)
Lemma limit_zero_refuses_within_window_witness :
  GetByResource range_in_key_order (sys_rules Scenario.system) "closed"
  = [Scenario.zero_rule]
  /\ rl_Limit Scenario.zero_rule = 0
  /\ forall e,
       GetEvents (sys_events (handleApplyRateLimit range_in_key_order (Scenario.clock 1)
                                Scenario.system
                                (Scenario.apply_command "closed" (Scenario.clock 1))).2)
         "u:closed" = [EvApplied e] ->
       exists es,
         GetEvents
           (sys_events
              (handleApplyRateLimit_each range_in_key_order
                 [Scenario.clock 2; Scenario.clock 3]
                 (handleApplyRateLimit range_in_key_order (Scenario.clock 1)
                    Scenario.system
                    (Scenario.apply_command "closed" (Scenario.clock 1))).2
                 (Scenario.apply_command "closed" (Scenario.clock 1))))
           "u:closed"
         = EvApplied e :: map EvExceeded es
         /\ length es = 2%nat.
Proof.
  assert (Hrules : GetByResource range_in_key_order (sys_rules Scenario.system) "closed"
                   = [Scenario.zero_rule]) by (vm_compute; reflexivity).
  split; [exact Hrules |]. split; [reflexivity |].
  intros e He.
  destruct (limit_zero_refuses_within_window range_in_key_order (Scenario.clock 1)
              Scenario.system (Scenario.apply_command "closed" (Scenario.clock 1))
              Scenario.zero_rule [])
    as (_ & _ & Hlater).
  - exact Hrules.
  - reflexivity.
  - vm_compute. discriminate.
  - apply (Hlater e He).
    + vm_compute. split; [discriminate | reflexivity].
    + assert (Hend : applied_WindowEnd e = Scenario.clock 1 - Scenario.clock 1 mod Minute + Minute).
      { vm_compute in He. injection He as <-. reflexivity. }
      rewrite Hend. repeat constructor; vm_compute; discriminate.
    + vm_compute. discriminate.
Defined.

(** C4, on an input: after one admitted login of [u] the reset of
    [u:login] is refused with a concurrency conflict (expected version 0,
    found 1), and nothing is stored. *)
Theorem ResetRateLimit_after_login_conflict :
  GetEvents (sys_events Scenario.after_login) "u:login" <> []
  /\ ResetRateLimit range_in_key_order (Scenario.clock 2) Scenario.after_login "u" "login"
     = (Some (ErrConcurrencyConflict 0 1), Scenario.after_login).
Proof. split; [vm_compute; discriminate | vm_compute; reflexivity]. Qed.

(** C4, second part, on an input: a read model that has projected a refusal
    and then the reset of the same pair still answers [IsAllowed = false]. *)
Example status_after_projected_reset :
  let reset :=
    {| reset_Base := {| ev_ID := "reset-1"; ev_Type := "RateLimitWindowReset";
                        ev_Time := Scenario.clock 3; ev_AggrID := "u:login";
                        ev_Version := 1 |};
       reset_ClientID := "u"; reset_Resource := "login";
       reset_WindowStart := Scenario.clock 3 |} in
  let status :=
    GetRateLimitStatus (Scenario.clock 4)
      (UpdateFromEvent (Scenario.clock 3) (sys_readModel Scenario.blocked_system)
         (EvWindowReset reset)).2 "u" "login" in
  st_IsAllowed status = false /\ st_RequestCount status = 0.
Proof. cbv zeta. split; vm_compute; reflexivity. Qed.

(** C7, on an input: the client id [u], a string, is [greater_equal] to
    the number 5, and [less_equal] to it. *)
Theorem greater_equal_on_a_string :
  let ctx := Scenario.bot_context in
  is_numeric (VString (ctx_ClientID ctx)) = false
  /\ evaluateCondition Scenario.deny_bots (condition "client_id" "greater_equal" (VInt 5)) ctx
     = Some true
  /\ evaluateCondition Scenario.deny_bots (condition "client_id" "less_equal" (VInt 5)) ctx
     = Some true.
Proof. cbv zeta. repeat split; vm_compute; reflexivity. Qed.

(** C7: numbers fare no better, 5 is not [greater_than] 3. *)
Example greater_than_on_numbers :
  evaluateCondition Scenario.deny_bots (condition "n" "greater_than" (VInt 3))
    {| ctx_ClientID := "u"; ctx_Resource := "api"; ctx_IPAddress := ""; ctx_UserAgent := "";
       ctx_Timestamp := Scenario.t0; ctx_Metadata := ∅;
       ctx_RequestData := {[ "n" := VInt 5 ]} |}
  = Some false.
Proof. vm_compute. reflexivity. Qed.

(** The hypothesis of [equals_and_in_complements] holds for the field
    [client_id] of the bot request, and so do instances of its conclusion:
    on the candidates [v] and [u], and on the string [u], which is no
    sequence of candidates. *)
Lemma equals_and_in_complements_witness :
  fieldValueOf "client_id" Scenario.bot_context = Some (VString "u")
  /\ (evaluateCondition Scenario.deny_bots
        (condition "client_id" "not_equals" (VString "v")) Scenario.bot_context = Some true
      <-> evaluateCondition Scenario.deny_bots
            (condition "client_id" "equals" (VString "v")) Scenario.bot_context = Some false)
  /\ (evaluateCondition Scenario.deny_bots
        (condition "client_id" "not_in" (VSlice [VString "v"; VString "u"]))
        Scenario.bot_context = Some false
      <-> evaluateCondition Scenario.deny_bots
            (condition "client_id" "in" (VSlice [VString "v"; VString "u"]))
            Scenario.bot_context = Some true)
  /\ evaluateCondition Scenario.deny_bots
       (condition "client_id" "in" (VString "u")) Scenario.bot_context = Some false
  /\ evaluateCondition Scenario.deny_bots
       (condition "client_id" "not_in" (VString "u")) Scenario.bot_context = Some false.
Proof.
  assert (Hfield : fieldValueOf "client_id" Scenario.bot_context = Some (VString "u"))
    by reflexivity.
  split; [exact Hfield |].
  destruct (equals_and_in_complements Scenario.deny_bots Scenario.bot_context
              "client_id" (VString "u") Hfield) as (Heq & Hin & Hother).
  split; [exact (Heq (VString "v") true) |].
  split; [exact (Hin [VString "v"; VString "u"] false) |].
  apply (Hother (VString "u")). discriminate.
Defined.

(** C8 does not hold as stated: on the condition value "u", a string and no
    sequence of candidates, [in] evaluates to false and [not_in] does not
    evaluate to true. *)
Lemma in_and_not_in_both_false_on_a_string : ~ in_and_not_in_complements_on_every_value.
Proof.
  intros Hclaim.
  destruct (Hclaim Scenario.deny_bots Scenario.bot_context "client_id"
              (VString "u") (VString "u") eq_refl) as [_ Hnot_in].
  discriminate (Hnot_in eq_refl).
Qed.

(** The hypotheses of [CheckRateLimit_blocked] hold at [clock 3] for a read
    model that has projected a refusal lasting until [clock 60]. *)
Lemma CheckRateLimit_blocked_witness :
  let status :=
    GetRateLimitStatus (Scenario.clock 3) (sys_readModel Scenario.blocked_system)
      "u" "login" in
  st_IsBlocked status = true
  /\ Scenario.clock 3 < st_BlockedUntil status
  /\ CheckRateLimit range_in_key_order (Scenario.clock 3) Scenario.blocked_system
       "u" "login" "8.8.8.8" "Mozilla"
     = (Ok status, Scenario.blocked_system).
Proof.
  cbv zeta.
  assert (Hblocked : st_IsBlocked (GetRateLimitStatus (Scenario.clock 3)
                        (sys_readModel Scenario.blocked_system) "u" "login") = true)
    by (vm_compute; reflexivity).
  assert (Huntil : Scenario.clock 3
                   < st_BlockedUntil (GetRateLimitStatus (Scenario.clock 3)
                        (sys_readModel Scenario.blocked_system) "u" "login"))
    by (vm_compute; reflexivity).
  split; [exact Hblocked |]. split; [exact Huntil |].
  exact (proj1 (CheckRateLimit_blocked range_in_key_order (Scenario.clock 3)
                  Scenario.blocked_system "u" "login" "8.8.8.8" "Mozilla"
                  Hblocked Huntil)).
Defined.

(** The hypotheses of [GetRateLimitHistory_excludes_endpoints] hold for the
    event stamped [clock 2] and a query that starts at [clock 2]. *)
Lemma GetRateLimitHistory_excludes_endpoints_witness :
  exists hist,
    GetRateLimitHistory Scenario.history_model "u" "login"
      (Scenario.clock 2) (Scenario.clock 4) 10 0 = Some hist
    /\ (Scenario.history_event "b" (Scenario.clock 2) ∉ hist_Events hist)
    /\ hist_TotalCount hist
       = len (filter (fun e => Scenario.clock 2 < he_Timestamp e
                               /\ he_Timestamp e < Scenario.clock 4)
                ([Scenario.history_event "a" (Scenario.clock 1)]
                 ++ [Scenario.history_event "c" (Scenario.clock 3);
                     Scenario.history_event "d" (Scenario.clock 4)])).
Proof.
  eexists. split; [vm_compute; reflexivity |].
  match goal with
  | |- (_ ∉ hist_Events ?h) /\ _ =>
      destruct (GetRateLimitHistory_excludes_endpoints Scenario.history_model
                  "u" "login" (Scenario.clock 2) (Scenario.clock 4) 10 0
                  [Scenario.history_event "a" (Scenario.clock 1)]
                  [Scenario.history_event "c" (Scenario.clock 3);
                   Scenario.history_event "d" (Scenario.clock 4)]
                  (Scenario.history_event "b" (Scenario.clock 2)) h)
        as (Hout & _ & Hcount & _)
  end.
  - vm_compute. reflexivity.
  - left. reflexivity.
  - vm_compute. reflexivity.
  - split; [exact Hout | exact Hcount].
Defined.

(** C10, on an input: of the events at [clock 1] to [clock 4], a query
    from [clock 2] to [clock 4] returns the one at [clock 3] alone. *)
Example GetRateLimitHistory_open_interval :
  GetRateLimitHistory Scenario.history_model "u" "login"
    (Scenario.clock 2) (Scenario.clock 4) 10 0
  = Some {| hist_Events := [Scenario.history_event "c" (Scenario.clock 3)];
            hist_TotalCount := 1; hist_HasMore := false |}.
Proof. vm_compute. reflexivity. Qed.

(** C6. The window end is not the window start plus the window: the
    handler reads the clock for the window start and reads it again for the
    window end. In the second search of [u], whose aggregate satisfies
    [CanMakeRequest] under the rule of two searches per minute, the clock
    passes the end of the minute between the two readings: the event stored
    has request count 2 and remaining quota 0, its window starts at [t0],
    and its window ends two minutes, not one, after [t0]. *)
Theorem window_end_from_a_second_reading :
  let sys' := (Readings.handleApplyRateLimit Examples.across_the_minute
                 Examples.searched_once Examples.search).2 in
  Readings.GetByResource (Readings.run_order Examples.across_the_minute)
    (sys_rules Examples.searched_once) "search" = [Examples.two_per_minute]
  /\ CanMakeRequest (Readings.run_checkedAt Examples.across_the_minute)
       (Readings.rehydrate (Readings.run_replayedAt Examples.across_the_minute)
          (GetEvents (sys_events Examples.searched_once) "u:search") "u" "search")
       Examples.two_per_minute = true
  /\ exists e,
       GetEvents (sys_events sys') "u:search" !! 1%nat = Some (EvApplied e)
       /\ applied_RequestCount e = 2
       /\ applied_RemainingQuota e = 0
       /\ applied_WindowStart e = Scenario.t0
       /\ applied_WindowEnd e = Add Scenario.t0 (2 * Minute)
       /\ applied_WindowEnd e
          <> Add (applied_WindowStart e) (rl_Window Examples.two_per_minute).
Proof.
  cbv zeta. split; [vm_compute; reflexivity |]. split; [vm_compute; reflexivity |].
  eexists. split; [vm_compute; reflexivity |].
  repeat split; try (vm_compute; reflexivity). vm_compute. discriminate.
Qed.

(** * Further properties *)

(** ** Strings *)

Lemma string_length_app (s t : string) :
  String.length (s +:+ t) = (String.length s + String.length t)%nat.
Proof. induction s as [| c s IH]; simpl; [reflexivity | by f_equal]. Qed.

Lemma string_app_nil_r (s : string) : s +:+ "" = s.
Proof.
  induction s as [| c s IH]; [reflexivity |].
  change (String c (s +:+ "") = String c s). by rewrite IH.
Qed.

Lemma string_length_zero (s : string) : String.length s = 0%nat -> s = "".
Proof. by destruct s. Qed.

Lemma substring_prefix (sub s : string) :
  String.substring 0 (String.length sub) s = sub <-> exists post, s = sub +:+ post.
Proof.
  revert s. induction sub as [| a sub IH]; intros s.
  - cbn. split; [intros _; by exists s | intros _; by destruct s].
  - destruct s as [| c s]; cbn.
    + split; [discriminate | intros (post & Hs); discriminate Hs].
    + split.
      * intros [= -> Hsub]. apply IH in Hsub as (post & ->). by exists post.
      * intros (post & [= -> ->]). f_equal. apply IH. by exists post.
Qed.

Lemma substring_occurrence (n : nat) (sub s : string) :
  (n + String.length sub <= String.length s)%nat ->
  String.substring n (String.length sub) s = sub
  <-> exists pre post, s = pre +:+ sub +:+ post /\ String.length pre = n.
Proof.
  revert s. induction n as [| n IH]; intros s Hlen.
  - rewrite substring_prefix. split.
    + intros (post & ->). by exists "", post.
    + intros (pre & post & -> & Hpre). apply string_length_zero in Hpre as ->. by exists post.
  - destruct s as [| c s]; [cbn in Hlen; lia |].
    cbn [String.substring]. rewrite IH by (cbn in Hlen; lia). split.
    + intros (pre & post & -> & <-). by exists (String c pre), post.
    + intros (pre & post & Hs & Hpre). destruct pre as [| c' pre]; [discriminate |].
      cbn in Hs, Hpre. injection Hs as -> ->. exists pre, post. split; [reflexivity | lia].
Qed.

Lemma occursAt_bounds (str substr : string) (i : Z) :
  occursAt str substr i -> 0 <= i <= strlen str - strlen substr.
Proof.
  intros (pre & post & -> & <-). unfold strlen. rewrite !string_length_app. lia.
Qed.

Lemma slice_string_occursAt (str substr : string) (i : Z) :
  0 <= i <= strlen str - strlen substr ->
  slice_string str i (i + strlen substr) = substr <-> occursAt str substr i.
Proof.
  intros Hi. unfold slice_string, occursAt, strlen in *.
  replace (Z.to_nat (i + Z.of_nat (String.length substr) - i))
    with (String.length substr) by lia.
  rewrite substring_occurrence by lia. split.
  - intros (pre & post & -> & Hpre). exists pre, post. split; [reflexivity | lia].
  - intros (pre & post & -> & Hpre). exists pre, post. split; [reflexivity | lia].
Qed.

Lemma findSubstring_loop_spec (n : nat) (str substr : string) (i : Z) :
  0 <= i -> i + Z.of_nat n <= strlen str - strlen substr + 1 ->
  let found := findSubstring_loop n str substr i in
  (found = -1 /\ forall j, i <= j < i + Z.of_nat n -> ~ occursAt str substr j)
  \/ (i <= found < i + Z.of_nat n /\ occursAt str substr found
      /\ forall j, i <= j < found -> ~ occursAt str substr j).
Proof.
  cbv zeta. revert i. induction n as [| n IH]; intros i Hi Hn.
  - left. split; [reflexivity | intros j Hj; lia].
  - cbn [findSubstring_loop].
    destruct (String.eqb_spec (slice_string str i (i + strlen substr)) substr) as [Heq | Hne].
    + right. split; [lia |]. split; [| intros j Hj; lia].
      apply slice_string_occursAt; [lia | exact Heq].
    + assert (Hnot : ~ occursAt str substr i).
      { intros Hocc. apply Hne. apply slice_string_occursAt; [lia | exact Hocc]. }
      destruct (IH (i + 1)) as [[Hfound Hnone] | (Hrange & Hocc & Hfirst)]; [lia | lia | |].
      * left. split; [exact Hfound |]. intros j Hj.
        destruct (Z.eq_dec j i) as [-> | Hji]; [exact Hnot | apply Hnone; lia].
      * right. split; [lia |]. split; [exact Hocc |]. intros j Hj.
        destruct (Z.eq_dec j i) as [-> | Hji]; [exact Hnot | apply Hfirst; lia].
Qed.

Lemma findSubstring_spec (str substr : string) :
  let found := findSubstring str substr in
  (found = -1 /\ forall j, ~ occursAt str substr j)
  \/ (0 <= found /\ occursAt str substr found
      /\ forall j, j < found -> ~ occursAt str substr j).
Proof.
  cbv zeta. unfold findSubstring.
  destruct (Z.eqb_spec (strlen substr) 0) as [Hempty | Hnonempty].
  - right. split; [lia |]. split.
    + exists "", str. assert (substr = "") as ->; [| done].
      apply string_length_zero. unfold strlen in Hempty. lia.
    + intros j Hj Hocc. apply occursAt_bounds in Hocc. lia.
  - destruct (Z.ltb_spec (strlen str) (strlen substr)) as [Hshort | Hlong].
    + left. split; [reflexivity |]. intros j Hocc. apply occursAt_bounds in Hocc. lia.
    + destruct (findSubstring_loop_spec
                  (Z.to_nat (strlen str - strlen substr + 1)) str substr 0)
        as [[Hfound Hnone] | (Hrange & Hocc & Hfirst)]; [lia | lia | |].
      * left. split; [exact Hfound |]. intros j Hocc.
        pose proof (occursAt_bounds _ _ _ Hocc). apply (Hnone j); [lia | exact Hocc].
      * right. split; [lia |]. split; [exact Hocc |]. intros j Hj Hocc'.
        pose proof (occursAt_bounds _ _ _ Hocc'). apply (Hfirst j); [lia | exact Hocc'].
Qed.

(** X1. [findSubstring] returns the index of the first occurrence of
    [substr] in [str], and -1 exactly when [substr] does not occur. *)
Theorem findSubstring_first_occurrence (str substr : string) :
  let found := findSubstring str substr in
  (found = -1 <-> forall j, ~ occursAt str substr j)
  /\ (found <> -1 ->
      0 <= found /\ occursAt str substr found
      /\ forall j, j < found -> ~ occursAt str substr j).
Proof.
  cbv zeta.
  destruct (findSubstring_spec str substr) as [[Hfound Hnone] | (Hpos & Hocc & Hfirst)].
  - split; [split; [intros _; exact Hnone | intros _; exact Hfound] |].
    intros Hne. contradiction.
  - split; [| intros _; by repeat split].
    split; [lia | intros Hnone; by destruct (Hnone _ Hocc)].
Qed.

(** X2. [containsString] holds exactly when [substr] occurs in [str] and the
    two strings differ: a string does not contain itself. *)
Theorem containsString_iff (str substr : string) :
  containsString str substr = true
  <-> str <> substr /\ exists pre post, str = pre +:+ substr +:+ post.
Proof.
  unfold containsString. rewrite !andb_true_iff, !negb_true_iff.
  rewrite Z.leb_le, String.eqb_neq, Z.eqb_neq.
  destruct (findSubstring_spec str substr) as [[Hfound Hnone] | (Hpos & Hocc & _)].
  - split; [intros [[_ _] Hne]; contradiction |].
    intros (_ & pre & post & Hstr). destruct (Hnone (strlen pre)). by exists pre, post.
  - split.
    + intros [[_ Hne] _]. split; [exact Hne |].
      destruct Hocc as (pre & post & Hstr & _). by exists pre, post.
    + intros [Hne _]. split; [split; [| exact Hne] | lia].
      apply occursAt_bounds in Hocc. lia.
Qed.

(** X3. On two strings, [starts_with] holds exactly when the condition value
    is a prefix of the field value and [ends_with] exactly when it is a
    suffix; so both hold for the empty string. *)
Theorem starts_with_ends_with_iff (r : Rule) (ctx : RuleEvaluationContext)
    (field str value : string) :
  fieldValueOf field ctx = Some (VString str) ->
  (evaluateCondition r (condition field "starts_with" (VString value)) ctx = Some true
   <-> exists rest, str = value +:+ rest)
  /\ (evaluateCondition r (condition field "ends_with" (VString value)) ctx = Some true
      <-> exists rest, str = rest +:+ value).
Proof.
  intros Hfield. unfold evaluateCondition, condition. cbn. rewrite Hfield. split.
  - destruct (Z.leb_spec (strlen value) (strlen str)) as [Hle | Hgt]; cbn [andb].
    + pose proof (slice_string_occursAt str value 0) as Hslice. cbn [Z.add] in Hslice.
      split.
      * intros [= Heq%String.eqb_eq]. apply Hslice in Heq as (pre & post & -> & Hpre); [| lia].
        assert (pre = "") as ->; [apply string_length_zero; unfold strlen in Hpre; lia |].
        by exists post.
      * intros (rest & ->). f_equal. apply String.eqb_eq, Hslice; [lia |].
        by exists "", rest.
    + split; [discriminate |]. intros (rest & ->).
      unfold strlen in Hgt. rewrite string_length_app in Hgt. lia.
  - destruct (Z.leb_spec (strlen value) (strlen str)) as [Hle | Hgt]; cbn [andb].
    + pose proof (slice_string_occursAt str value (strlen str - strlen value)) as Hslice.
      replace (strlen str - strlen value + strlen value) with (strlen str) in Hslice by lia.
      split.
      * intros [= Heq%String.eqb_eq]. apply Hslice in Heq as (pre & post & Hstr & Hpre); [| lia].
        assert (post = "") as ->.
        { apply string_length_zero. rewrite Hstr in Hpre. unfold strlen in Hpre.
          rewrite !string_length_app in Hpre. lia. }
        exists pre. by rewrite string_app_nil_r in Hstr.
      * intros (rest & ->). f_equal. apply String.eqb_eq, Hslice; [lia |].
        exists rest, "". rewrite string_app_nil_r. split; [reflexivity |].
        unfold strlen. rewrite string_length_app. lia.
    + split; [discriminate |]. intros (rest & ->).
      unfold strlen in Hgt. rewrite string_length_app in Hgt. lia.
Qed.

(** ** Rule evaluation *)

Lemma evaluateConditions_true (r : Rule) (ctx : RuleEvaluationContext)
    (conditions : list RuleCondition) :
  evaluateConditions r conditions ctx = Some true
  <-> Forall (fun c => evaluateCondition r c ctx = Some true) conditions.
Proof.
  induction conditions as [| c conditions IH]; cbn.
  - split; [constructor | reflexivity].
  - rewrite Forall_cons, <- IH.
    destruct (evaluateCondition r c ctx) as [[] |]; split; try tauto; try discriminate;
      intros [? ?]; discriminate.
Qed.

(** X4. A rule that is disabled is not evaluated at all: the result is
    unmatched and without actions, whatever its conditions would do. For a
    rule that is evaluated without a panic, the result is matched exactly
    when the rule is enabled and every condition holds, and it carries the
    actions of the rule when matched and none otherwise. *)
Theorem EvaluateRule_matched_iff (now : Time) (r : Rule) (ctx : RuleEvaluationContext) :
  (rule_Enabled r = false ->
   exists result, EvaluateRule now r ctx = Some result
     /\ res_Matched result = false /\ res_Actions result = [])
  /\ (forall result, EvaluateRule now r ctx = Some result ->
      (res_Matched result = true
       <-> rule_Enabled r = true
           /\ Forall (fun c => evaluateCondition r c ctx = Some true) (rule_Conditions r))
      /\ res_Actions result = (if res_Matched result then rule_Actions r else [])
      /\ res_RuleID result = rule_ID r
      /\ res_EvaluatedAt result = now).
Proof.
  unfold EvaluateRule. split.
  - intros ->. cbn. eexists. by repeat split.
  - intros result. destruct (rule_Enabled r); cbn.
    + destruct (evaluateConditions r (rule_Conditions r) ctx) as [matched |] eqn:Hconds;
        [| discriminate].
      intros [= <-]. cbn. split; [| by repeat split]. split.
      * intros ->. split; [reflexivity | by apply evaluateConditions_true].
      * intros [_ Hall]. apply evaluateConditions_true in Hall. congruence.
    + intros [= <-]. cbn. split; [| by repeat split].
      split; [discriminate | intros [? _]; discriminate].
Qed.

Lemma hasBlockingIn_app (l k : list RuleAction) :
  hasBlockingIn (l ++ k) = hasBlockingIn l || hasBlockingIn k.
Proof.
  induction l as [| action l IH]; [reflexivity |].
  cbn. destruct (isBlockingAction action); [reflexivity | exact IH].
Qed.

Lemma GetMatchedActions_app (l k : list RuleEvaluationResult) :
  GetMatchedActions (l ++ k) = GetMatchedActions l ++ GetMatchedActions k.
Proof. induction l as [| r l IH]; cbn; [reflexivity | by rewrite IH, app_assoc]. Qed.

Lemma HasBlockingAction_matched (results : list RuleEvaluationResult) :
  HasBlockingAction results = hasBlockingIn (GetMatchedActions results).
Proof.
  induction results as [| r results IH]; [reflexivity |].
  cbn. rewrite hasBlockingIn_app, IH.
  destruct (res_Matched r); cbn; [| reflexivity].
  by destruct (hasBlockingIn (res_Actions r)).
Qed.

Lemma GetRateLimitActions_matched (results : list RuleEvaluationResult) :
  GetRateLimitActions results
  = filter (fun action => String.eqb (act_Type action) "rate_limit" = true)
      (GetMatchedActions results).
Proof.
  induction results as [| r results IH]; [reflexivity |].
  cbn. rewrite filter_app, IH. by destruct (res_Matched r).
Qed.

(** X5. [HasBlockingAction] and [GetRateLimitActions] see the results only
    through [GetMatchedActions], the actions of the matched results in
    order: the first tells whether one of these has type [deny] or [block],
    the second keeps those of type [rate_limit]. A result that is not matched
    changes neither answer, wherever it stands. *)
Theorem matched_actions_decide (results : list RuleEvaluationResult) :
  HasBlockingAction results = hasBlockingIn (GetMatchedActions results)
  /\ GetRateLimitActions results
     = filter (fun action => String.eqb (act_Type action) "rate_limit" = true)
         (GetMatchedActions results)
  /\ (forall before result after,
        results = before ++ result :: after ->
        res_Matched result = false ->
        HasBlockingAction results = HasBlockingAction (before ++ after)
        /\ GetRateLimitActions results = GetRateLimitActions (before ++ after)).
Proof.
  split; [apply HasBlockingAction_matched |]. split; [apply GetRateLimitActions_matched |].
  intros before result after -> Hunmatched.
  assert (Hsame : GetMatchedActions (before ++ result :: after)
                  = GetMatchedActions (before ++ after)).
  { rewrite !GetMatchedActions_app. cbn. by rewrite Hunmatched. }
  by rewrite !HasBlockingAction_matched, !GetRateLimitActions_matched, Hsame.
Qed.

(** ** What the concrete runtime promises *)

Lemma range_in_key_order_visits : range_visits_each_once range_in_key_order.
Proof. intros A m. reflexivity. Qed.

Lemma insert_by_priority_permutes (rule : Rule) (sorted : list Rule) :
  insert_by_priority rule sorted ≡ₚ rule :: sorted.
Proof.
  induction sorted as [| r sorted IH]; [reflexivity |].
  cbn. destruct (rule_Priority r <? rule_Priority rule); [reflexivity |].
  rewrite IH. apply Permutation_swap.
Qed.

Lemma stable_sort_permutes : sort_permutes stable_sort_by_priority.
Proof.
  intros rules. unfold stable_sort_by_priority.
  induction rules as [| rule rules IH]; [reflexivity |].
  cbn. by rewrite insert_by_priority_permutes, IH.
Qed.

Lemma range_elem_of (range_values : forall A : Type, gmap string A -> list A)
    (A : Type) (m : gmap string A) (x : A) :
  range_visits_each_once range_values ->
  x ∈ range_values A m <-> exists k, m !! k = Some x.
Proof.
  intros Hrange. rewrite (Hrange A m), list_elem_of_fmap. split.
  - intros ([k y] & -> & Hin). exists k. by apply elem_of_map_to_list.
  - intros (k & Hk). exists (k, x). split; [reflexivity | by apply elem_of_map_to_list].
Qed.

Lemma evaluateEach_ids (now : Time) (ctx : RuleEvaluationContext) (rules : list Rule) :
  forall results,
    evaluateEach now rules ctx = Some results ->
    res_RuleID <$> results = rule_ID <$> rules
    /\ Forall (fun result => res_EvaluatedAt result = now) results.
Proof.
  induction rules as [| r rules IH]; intros results Heach.
  - injection Heach as <-. split; [reflexivity | constructor].
  - cbn in Heach.
    destruct (EvaluateRule now r ctx) as [res |] eqn:Hr; [| discriminate].
    destruct (evaluateEach now rules ctx) as [rest |]; [| discriminate].
    injection Heach as <-.
    destruct (IH rest eq_refl) as [Hids Hat].
    assert (Hres : res_RuleID res = rule_ID r /\ res_EvaluatedAt res = now).
    { unfold EvaluateRule in Hr. destruct (negb (rule_Enabled r)).
      - by injection Hr as <-.
      - destruct (evaluateConditions _ _ _); [by injection Hr as <- | discriminate]. }
    destruct Hres as [Hid Hnow]. split; [cbn; by rewrite Hid, Hids | by constructor].
Qed.

Lemma evaluateEach_at_ids (evaluatedAt : nat -> Time) (ctx : RuleEvaluationContext)
    (rules : list Rule) :
  forall (i : nat) results,
    Readings.evaluateEach evaluatedAt i rules ctx = Some results ->
    res_RuleID <$> results = rule_ID <$> rules
    /\ forall (j : nat) result,
         results !! j = Some result -> res_EvaluatedAt result = evaluatedAt (i + j)%nat.
Proof.
  induction rules as [| r rules IH]; intros i results Heach.
  - injection Heach as <-. split; [reflexivity |].
    intros j result Hj. by rewrite lookup_nil in Hj.
  - cbn in Heach.
    destruct (EvaluateRule (evaluatedAt i) r ctx) as [res |] eqn:Hr; [| discriminate].
    destruct (Readings.evaluateEach evaluatedAt (S i) rules ctx) as [rest |] eqn:Hrest;
      [| discriminate].
    injection Heach as <-.
    destruct (IH (S i) rest Hrest) as [Hids Hat].
    assert (Hres : res_RuleID res = rule_ID r /\ res_EvaluatedAt res = evaluatedAt i).
    { unfold EvaluateRule in Hr. destruct (negb (rule_Enabled r)).
      - by injection Hr as <-.
      - destruct (evaluateConditions _ _ _); [by injection Hr as <- | discriminate]. }
    destruct Hres as [Hid Hnow]. split; [cbn; by rewrite Hid, Hids |].
    intros [| j] result Hj.
    + injection Hj as <-. by rewrite Nat.add_0_r.
    + cbn in Hj. rewrite (Hat j result Hj). f_equal. lia.
Qed.

Section EvaluationProperties.

Variable range_values : forall A : Type, gmap string A -> list A.
Variable sort_by_priority : list Rule -> list Rule.

(** X6. An evaluation that does not panic yields one result per enabled
    rule of the repository and none for a disabled rule: up to the order,
    the rule ids of the results are those of the enabled rules. Every rule
    is evaluated at a reading of the clock of its own, and the [i]-th
    result carries the [i]-th of these readings. *)
Theorem EvaluateRules_one_result_per_enabled_rule (evaluatedAt : nat -> Time)
    (rules : gmap string Rule) (evalCtx : RuleEvaluationContext)
    (results : list RuleEvaluationResult) :
  range_visits_each_once range_values ->
  sort_permutes sort_by_priority ->
  Readings.EvaluateRules range_values sort_by_priority evaluatedAt rules evalCtx
  = Some results ->
  res_RuleID <$> results
    ≡ₚ rule_ID <$> filter (fun rule => rule_Enabled rule = true) (map_to_list rules).*2
  /\ forall (i : nat) result,
       results !! i = Some result -> res_EvaluatedAt result = evaluatedAt i.
Proof.
  intros Hrange Hsort Heval. unfold Readings.EvaluateRules, GetActiveRules in Heval.
  destruct (evaluateEach_at_ids _ _ _ _ _ Heval) as [Hids Hat].
  split; [| exact Hat].
  by rewrite Hids, (Hsort _), (Hrange Rule rules).
Qed.

(** X7. [EvaluateRulesByType] evaluates the enabled rules of the given type
    and no other rule: up to the order, the rule ids of its results are
    those of the rules of the repository that have the type and are
    enabled. *)
Theorem EvaluateRulesByType_results (now : Time) (rules : gmap string Rule)
    (ruleType : RuleType) (evalCtx : RuleEvaluationContext)
    (results : list RuleEvaluationResult) :
  range_visits_each_once range_values ->
  sort_permutes sort_by_priority ->
  RuleEngine.EvaluateRulesByType range_values sort_by_priority now rules ruleType evalCtx
  = Some results ->
  res_RuleID <$> results
    ≡ₚ rule_ID <$> filter (fun rule => rule_Type rule = ruleType /\ rule_Enabled rule = true)
                     (map_to_list rules).*2.
Proof.
  intros Hrange Hsort Heval. unfold RuleEngine.EvaluateRulesByType in Heval.
  destruct (evaluateEach_ids _ _ _ _ Heval) as [Hids _].
  rewrite Hids, (Hsort _). unfold RuleRepository.GetRulesByType.
  rewrite (Hrange Rule rules). f_equiv.
  induction ((map_to_list rules).*2) as [| rule l IH]; [reflexivity |].
  rewrite !filter_cons.
  destruct (String.eqb_spec (rule_Type rule) ruleType) as [Htype | Htype];
    destruct (rule_Enabled rule) eqn:Henabled; cbn [andb].
  - rewrite !decide_True by done. rewrite filter_cons, decide_True by done. by rewrite IH.
  - rewrite !decide_False by (try discriminate; intros [_ ?]; discriminate). exact IH.
  - rewrite !decide_False by (try discriminate; intros [? _]; contradiction). exact IH.
  - rewrite !decide_False by (try discriminate; intros [? _]; contradiction). exact IH.
Qed.

(** X8. [GetRulesByTags] returns the rules of the repository that are
    enabled and carry at least one of the tags asked for; with no tag asked
    for it returns nothing. *)
Theorem GetRulesByTags_iff (rules : gmap string Rule) (tags : list string) (rule : Rule) :
  range_visits_each_once range_values ->
  rule ∈ RuleRepository.GetRulesByTags range_values rules tags
  <-> (exists id, rules !! id = Some rule)
      /\ rule_Enabled rule = true
      /\ exists tag, tag ∈ rule_Tags rule /\ tag ∈ tags.
Proof.
  intros Hrange. unfold RuleRepository.GetRulesByTags.
  rewrite list_elem_of_filter, (range_elem_of _ _ _ _ Hrange), andb_true_iff.
  assert (Hamong : forall t l, RuleRepository.tagAmong t l = true <-> t ∈ l).
  { intros t l. induction l as [| s l IH]; cbn.
    - split; [discriminate | by intros ?%elem_of_nil].
    - rewrite elem_of_cons. destruct (String.eqb_spec t s); [tauto |].
      rewrite IH. tauto. }
  assert (Hany : RuleRepository.hasAnyTag (rule_Tags rule) tags = true
                 <-> exists tag, tag ∈ rule_Tags rule /\ tag ∈ tags).
  { induction (rule_Tags rule) as [| t l IH]; cbn.
    - split; [discriminate | intros (tag & ?%elem_of_nil & _); done].
    - destruct (RuleRepository.tagAmong t tags) eqn:Ht.
      + split; [intros _ | reflexivity]. exists t. split; [left | by apply Hamong].
      + rewrite IH. split.
        * intros (tag & Hin & Htags). exists tag. split; [by right | done].
        * intros (tag & Hin & Htags). apply elem_of_cons in Hin as [-> | Hin].
          -- apply Hamong in Htags. congruence.
          -- by exists tag. }
  rewrite Hany. tauto.
Qed.

End EvaluationProperties.

(** ** Rule validation and rule management *)

Lemma oneOf_true (s : string) (valid : list string) :
  RuleEngine.oneOf s valid = true <-> s ∈ valid.
Proof.
  induction valid as [| v valid IH]; cbn.
  - split; [discriminate | by intros ?%elem_of_nil].
  - rewrite elem_of_cons. destruct (String.eqb_spec s v); [tauto |]. rewrite IH. tauto.
Qed.

Lemma validateConditions_accepts (i : Z) (conditions : list RuleCondition) :
  RuleEngine.validateConditions i conditions = None
  <-> Forall (fun c => cond_Field c <> ""
                       /\ cond_Operator c ∈ RuleEngine.validOperators) conditions.
Proof.
  revert i.
  induction conditions as [| c conditions IH]; intros i;
    cbn [RuleEngine.validateConditions].
  - split; [constructor | reflexivity].
  - rewrite Forall_cons.
    destruct (String.eqb_spec (cond_Field c) "") as [Hfield | Hfield].
    { split; [discriminate | intros [[? _] _]; contradiction]. }
    destruct (String.eqb_spec (cond_Operator c) "") as [Hop | Hop].
    { split; [discriminate |]. intros [[_ Hin] _]. rewrite Hop in Hin.
      apply oneOf_true in Hin. discriminate Hin. }
    destruct (RuleEngine.oneOf (cond_Operator c) RuleEngine.validOperators) eqn:Hvalid;
      cbn [negb].
    + apply oneOf_true in Hvalid. rewrite IH. tauto.
    + split; [discriminate |]. intros [[_ Hin] _]. apply oneOf_true in Hin. congruence.
Qed.

Lemma validateActions_accepts (i : Z) (actions : list RuleAction) :
  RuleEngine.validateActions i actions = None
  <-> Forall (fun a => act_Type a ∈ RuleEngine.validActions) actions.
Proof.
  revert i.
  induction actions as [| a actions IH]; intros i; cbn [RuleEngine.validateActions].
  - split; [constructor | reflexivity].
  - rewrite Forall_cons.
    destruct (String.eqb_spec (act_Type a) "") as [Htype | Htype].
    { split; [discriminate |]. intros [Hin _]. rewrite Htype in Hin.
      apply oneOf_true in Hin. discriminate Hin. }
    destruct (RuleEngine.oneOf (act_Type a) RuleEngine.validActions) eqn:Hvalid;
      cbn [negb].
    + apply oneOf_true in Hvalid. rewrite IH. tauto.
    + split; [discriminate |]. intros [Hin _]. apply oneOf_true in Hin. congruence.
Qed.

(** X9. [ValidateRule] accepts a rule exactly when its name is not empty, it
    has at least one condition and at least one action, every condition
    names a field and one of the eleven operators, and every action has one
    of the seven action types. *)
Theorem ValidateRule_accepts_iff (rule : Rule) :
  RuleEngine.ValidateRule rule = None
  <-> rule_Name rule <> ""
      /\ (rule_Conditions rule <> [])
      /\ (rule_Actions rule <> [])
      /\ Forall (fun c => cond_Field c <> ""
                          /\ cond_Operator c ∈ RuleEngine.validOperators)
           (rule_Conditions rule)
      /\ Forall (fun a => act_Type a ∈ RuleEngine.validActions) (rule_Actions rule).
Proof.
  unfold RuleEngine.ValidateRule.
  destruct (String.eqb_spec (rule_Name rule) "") as [Hname | Hname].
  { split; [discriminate | intros [? _]; contradiction]. }
  destruct (rule_Conditions rule) as [| c conditions] eqn:Hconds.
  { cbn. split; [discriminate | intros (_ & ? & _); contradiction]. }
  destruct (rule_Actions rule) as [| a actions] eqn:Hactions.
  { cbn. split; [discriminate | intros (_ & _ & ? & _); contradiction]. }
  assert (Hc : (len (c :: conditions) =? 0) = false).
  { apply Z.eqb_neq. unfold len. cbn [length]. lia. }
  assert (Ha : (len (a :: actions) =? 0) = false).
  { apply Z.eqb_neq. unfold len. cbn [length]. lia. }
  rewrite Hc, Ha.
  rewrite <- (validateConditions_accepts 0), <- (validateActions_accepts 0).
  destruct (RuleEngine.validateConditions 0 (c :: conditions)) as [err |].
  - split; [discriminate | intros (_ & _ & _ & ? & _); discriminate].
  - split; [intros ->; by repeat split | intros (_ & _ & _ & _ & ?); done].
Qed.

(** X10. The rule engine stores a rule as it is given, valid or not, under
    its id, or under "rule-" followed by a reading of the clock in
    nanoseconds when it has none. [CreateRule] reads the clock once for
    [CreatedAt], once more for [UpdatedAt] and a third time for that id, and
    the stored rule carries each reading where it was taken; [GetRule] then
    returns the stored rule, and the rules under other ids are untouched. *)
Theorem CreateRule_GetRule (createdAt updatedAt idAt : Time) (rules : gmap string Rule)
    (rule : Rule) :
  let id := if String.eqb (rule_ID rule) "" then sprintf_d "rule-" (UnixNano idAt)
            else rule_ID rule in
  let rules' := Readings.RuleEngine.CreateRule createdAt updatedAt idAt rules rule in
  (exists stored,
     RuleEngine.GetRule rules' id = Ok stored
     /\ rule_ID stored = id
     /\ rule_CreatedAt stored = createdAt /\ rule_UpdatedAt stored = updatedAt
     /\ rule_Name stored = rule_Name rule /\ rule_Type stored = rule_Type rule
     /\ rule_Priority stored = rule_Priority rule
     /\ rule_Enabled stored = rule_Enabled rule
     /\ rule_Conditions stored = rule_Conditions rule
     /\ rule_Actions stored = rule_Actions rule
     /\ rule_Tags stored = rule_Tags rule)
  /\ (forall other, other <> id ->
        RuleEngine.GetRule rules' other = RuleEngine.GetRule rules other).
Proof.
  cbv zeta. unfold RuleEngine.GetRule, RuleRepository.GetRuleByID,
    Readings.RuleEngine.CreateRule, RuleRepository.SaveRule. cbn [rule_ID]. split.
  - rewrite lookup_insert_eq. eexists. split; [reflexivity |]. by repeat split.
  - intros other Hother. by rewrite lookup_insert_ne.
Qed.

(** X11. Updating or deleting a rule whose id the repository does not hold
    fails with "rule not found" and leaves the repository as it was. An
    update of a stored rule replaces it and stamps it with the instant of the
    update; after the deletion of a stored rule [GetRule] no longer finds
    it; neither touches the rules under other ids. *)
Theorem UpdateRule_DeleteRule (now : Time) (rules : gmap string Rule) (rule : Rule)
    (ruleID : string) :
  (rules !! rule_ID rule = None ->
   RuleEngine.UpdateRule now rules rule = (Some (ErrRuleNotFound (rule_ID rule)), rules))
  /\ (rules !! rule_ID rule <> None ->
      exists stored,
        (RuleEngine.UpdateRule now rules rule).1 = None
        /\ RuleEngine.GetRule (RuleEngine.UpdateRule now rules rule).2 (rule_ID rule)
           = Ok stored
        /\ rule_UpdatedAt stored = now /\ rule_CreatedAt stored = rule_CreatedAt rule
        /\ rule_Conditions stored = rule_Conditions rule
        /\ rule_Actions stored = rule_Actions rule)
  /\ (rules !! ruleID = None ->
      RuleEngine.DeleteRule rules ruleID = (Some (ErrRuleNotFound ruleID), rules))
  /\ (rules !! ruleID <> None ->
      (RuleEngine.DeleteRule rules ruleID).1 = None
      /\ RuleEngine.GetRule (RuleEngine.DeleteRule rules ruleID).2 ruleID
         = Err (ErrRuleNotFound ruleID))
  /\ (forall other,
        (other <> rule_ID rule ->
         RuleEngine.GetRule (RuleEngine.UpdateRule now rules rule).2 other
         = RuleEngine.GetRule rules other)
        /\ (other <> ruleID ->
            RuleEngine.GetRule (RuleEngine.DeleteRule rules ruleID).2 other
            = RuleEngine.GetRule rules other)).
Proof.
  unfold RuleEngine.UpdateRule, RuleEngine.DeleteRule, RuleEngine.GetRule,
    RuleRepository.UpdateRule, RuleRepository.DeleteRule, RuleRepository.GetRuleByID.
  cbn [rule_ID]. split; [| split; [| split; [| split; [| intros other; split]]]].
  - by intros ->.
  - intros Hsome. destruct (rules !! rule_ID rule); [| done]. cbn.
    rewrite lookup_insert_eq. eexists. by repeat split.
  - by intros ->.
  - intros Hsome. destruct (rules !! ruleID); [| done]. cbn.
    by rewrite lookup_delete_eq.
  - intros Hother. destruct (rules !! rule_ID rule); cbn; [| done].
    by rewrite lookup_insert_ne.
  - intros Hother. destruct (rules !! ruleID); cbn; [| done].
    by rewrite lookup_delete_ne.
Qed.

(** ** Command handler: what a command changes *)

Lemma withRules_same (sys : System) : withRules sys (sys_rules sys) = sys.
Proof. destruct sys; reflexivity. Qed.

Lemma SaveEvents_extends (events : gmap string (list Event)) (id : string)
    (newEvents : list Event) (expectedVersion : Z) :
  let err := (SaveEvents events id newEvents expectedVersion).1 in
  let events' := (SaveEvents events id newEvents expectedVersion).2 in
  (err <> None -> events' = events)
  /\ (forall other, other <> id -> events' !! other = events !! other)
  /\ exists new, GetEvents events' id = GetEvents events id ++ new
                 /\ (new = [] \/ new = newEvents).
Proof.
  cbv zeta. unfold SaveEvents. fold (GetEvents events id).
  destruct (len (GetEvents events id) =? expectedVersion); cbn [negb fst snd].
  - split; [done |]. split.
    + intros other Hother. by rewrite lookup_insert_ne.
    + exists newEvents. rewrite GetEvents_insert. by split; [| right].
  - split; [done |]. split; [done |].
    exists []. rewrite app_nil_r. by split; [| left].
Qed.

Section HandlerProperties.

Variable range_values : forall A : Type, gmap string A -> list A.

(** X12. What a command leaves alone. No command touches the read model or
    the rules of the rule engine, and a command that fails changes nothing
    at all. ApplyRateLimit and ResetRateLimit leave the rule repository as
    it is and the stream of every other aggregate as it is, and append at
    most one event to the stream of their own aggregate; CreateRule and
    UpdateRule leave the event store as it is, and so do the commands the
    handler does not know, which it refuses. *)
Theorem Handle_frame (now : Time) (sys : System) (cmd : Command) :
  let err := (Handle range_values now sys cmd).1 in
  let sys' := (Handle range_values now sys cmd).2 in
  let appends (aggregateID : string) :=
    sys_rules sys' = sys_rules sys
    /\ (forall other, other <> aggregateID ->
          sys_events sys' !! other = sys_events sys !! other)
    /\ exists new,
         GetEvents (sys_events sys') aggregateID
         = GetEvents (sys_events sys) aggregateID ++ new
         /\ (length new <= 1)%nat in
  sys_readModel sys' = sys_readModel sys
  /\ sys_engineRules sys' = sys_engineRules sys
  /\ (err <> None -> sys' = sys)
  /\ match cmd with
     | CmdApplyRateLimit c => appends (apply_ClientID c +:+ ":" +:+ apply_Resource c)
     | CmdResetRateLimit c => appends (resetcmd_ClientID c +:+ ":" +:+ resetcmd_Resource c)
     | CmdCreateRule _ | CmdUpdateRule _ => sys_events sys' = sys_events sys
     | CmdCheckRateLimit _ => err = Some ErrUnknownCommandType /\ sys' = sys
     end.
Proof.
  cbv zeta. destruct cmd as [c | c | c | c | c]; cbn [Handle].
  - by repeat split.
  - unfold handleApplyRateLimit.
    destruct (GetByResource range_values (sys_rules sys) (apply_Resource c)) as [| rule rules].
    { cbn [fst snd]. repeat split; try done.
      exists []. split; [by rewrite app_nil_r | cbn; lia]. }
    match goal with
    | |- context [SaveEvents ?ev ?id ?new ?v] =>
        pose proof (SaveEvents_extends ev id new v) as (Herr & Hother & (added & Hadd & Hnew));
        destruct (SaveEvents ev id new v) as [err events'] eqn:Hsave
    end.
    cbn [fst snd] in *. cbn [withEvents sys_readModel sys_engineRules sys_rules sys_events].
    repeat split; try done.
    + intros Hfail. rewrite (Herr Hfail). apply withEvents_same.
    + exists added. split; [exact Hadd |].
      destruct Hnew as [-> | ->]; [cbn; lia |].
      by destruct (CanMakeRequest _ _ _).
  - by repeat split.
  - unfold handleUpdateRule.
    destruct (GetByID (sys_rules sys) (update_RuleID c)) as [rule | e]; [| by repeat split].
    unfold Update. cbn [rl_ID].
    destruct (sys_rules sys !! rl_ID rule); cbn [fst snd]; repeat split; try done.
    intros _. apply withRules_same.
  - unfold handleResetRateLimit.
    match goal with
    | |- context [SaveEvents ?ev ?id ?new ?v] =>
        pose proof (SaveEvents_extends ev id new v) as (Herr & Hother & (added & Hadd & Hnew));
        destruct (SaveEvents ev id new v) as [err events'] eqn:Hsave
    end.
    cbn [fst snd] in *. cbn [withEvents sys_readModel sys_engineRules sys_rules sys_events].
    repeat split; try done.
    + intros Hfail. rewrite (Herr Hfail). apply withEvents_same.
    + exists added. split; [exact Hadd |].
      destruct Hnew as [-> | ->]; cbn; lia.
Qed.

(** One command, at the level of the state: the event it appends and the
    state rebuilt from the longer stream. *)
Lemma handleApplyRateLimit_step (now : Time) (sys : System) (cmd : ApplyRateLimitCommand)
    (rule : RateLimitRule) (rules : list RateLimitRule) :
  let aggregateID := apply_ClientID cmd +:+ ":" +:+ apply_Resource cmd in
  let events := GetEvents (sys_events sys) aggregateID in
  let sys' := (handleApplyRateLimit range_values now sys cmd).2 in
  GetByResource range_values (sys_rules sys) (apply_Resource cmd) = rule :: rules ->
  len events < int_max ->
  exists newEvent,
    GetEvents (sys_events sys') aggregateID = events ++ [newEvent]
    /\ sys_rules sys' = sys_rules sys
    /\ ev_Version (baseOf newEvent) = len events + 1
    /\ ev_Time (baseOf newEvent) = now
    /\ (forall now',
          stateOf now' sys' (apply_ClientID cmd) (apply_Resource cmd)
          = applyToState now' (stateOf now' sys (apply_ClientID cmd) (apply_Resource cmd))
              newEvent)
    /\ let state := stateOf now sys (apply_ClientID cmd) (apply_Resource cmd) in
       if CanMakeRequest now
            (rehydrate now events (apply_ClientID cmd) (apply_Resource cmd)) rule
       then exists e, newEvent = EvApplied e
              /\ applied_WindowStart e = Truncate now (rl_Window rule)
              /\ applied_WindowEnd e = Add (Truncate now (rl_Window rule)) (rl_Window rule)
              /\ applied_RequestCount e = int_add (state_RequestCount state) 1
              /\ applied_RemainingQuota e
                 = int_sub (rl_Limit rule) (int_add (state_RequestCount state) 1)
       else exists e, newEvent = EvExceeded e
              /\ exceeded_RequestCount e = int_add (state_RequestCount state) 1
              /\ exceeded_BlockedUntil e = state_WindowEnd state.
Proof.
  cbv zeta. intros Hrules Hlen.
  unfold handleApplyRateLimit. rewrite Hrules.
  rewrite (rehydrate_Version _ _ _ _ (Z.lt_le_incl _ _ Hlen)).
  rewrite SaveEvents_ok by reflexivity. cbn [snd].
  unfold stateOf. cbn [withEvents sys_events sys_rules]. rewrite GetEvents_insert.
  assert (Hversion : int_add (len (GetEvents (sys_events sys)
                        (apply_ClientID cmd +:+ ":" +:+ apply_Resource cmd))) 1
                     = len (GetEvents (sys_events sys)
                        (apply_ClientID cmd +:+ ":" +:+ apply_Resource cmd)) + 1).
  { unfold int_add. rewrite wrap_int_id; [reflexivity |].
    pose proof (len_nonneg (GetEvents (sys_events sys)
                  (apply_ClientID cmd +:+ ":" +:+ apply_Resource cmd))).
    int_lia. }
  destruct (CanMakeRequest now _ rule);
    (eexists; split; [reflexivity |]; split; [reflexivity |]; split; [exact Hversion |];
     split; [reflexivity |]; split;
     [intros now'; by rewrite rehydrate_snoc | eexists; by repeat split]).
Qed.

(** Every command, admitted or refused, adds one to the request count and
    one event to the stream. *)
Lemma handleApplyRateLimit_each_counts (cmd : ApplyRateLimitCommand) (rule : RateLimitRule)
    (rules : list RateLimitRule) (later : list Time) :
  let aggregateID := apply_ClientID cmd +:+ ":" +:+ apply_Resource cmd in
  forall (k : Z) (sys : System),
  let sys' := handleApplyRateLimit_each range_values later sys cmd in
  GetByResource range_values (sys_rules sys) (apply_Resource cmd) = rule :: rules ->
  (forall now,
     state_RequestCount (stateOf now sys (apply_ClientID cmd) (apply_Resource cmd)) = k) ->
  len (GetEvents (sys_events sys) aggregateID) + len later <= int_max ->
  int_min <= k -> k + len later <= int_max ->
  exists new,
    GetEvents (sys_events sys') aggregateID = GetEvents (sys_events sys) aggregateID ++ new
    /\ length new = length later
    /\ (forall (i : nat) event, new !! i = Some event ->
          ev_Version (baseOf event)
          = len (GetEvents (sys_events sys) aggregateID) + Z.of_nat i + 1
          /\ later !! i = Some (ev_Time (baseOf event))
          /\ match event with
             | EvApplied e => applied_RequestCount e = k + Z.of_nat i + 1
             | EvExceeded e => exceeded_RequestCount e = k + Z.of_nat i + 1
             | _ => False
             end)
    /\ forall now,
         state_RequestCount (stateOf now sys' (apply_ClientID cmd) (apply_Resource cmd))
         = k + len later.
Proof.
  cbv zeta. induction later as [| now later IH]; intros k sys Hrules Hcount Hlen Hmin Hmax.
  - exists []. cbn [handleApplyRateLimit_each]. rewrite app_nil_r.
    split; [reflexivity |]. split; [reflexivity |]. split.
    + intros i event Hi. by rewrite lookup_nil in Hi.
    + intros now. rewrite Hcount. unfold len. cbn. lia.
  - pose proof (len_nonneg later) as Hnn.
    pose proof (len_nonneg (GetEvents (sys_events sys)
                  (apply_ClientID cmd +:+ ":" +:+ apply_Resource cmd))) as Hnn'.
    assert (Hcons : len (now :: later) = len later + 1).
    { unfold len. cbn [length]. lia. }
    rewrite Hcons in *.
    destruct (handleApplyRateLimit_step now sys cmd rule rules Hrules ltac:(lia))
      as (newEvent & Hstream & Hsame & Hversion & Htime & Hstate & Hshape).
    cbn [handleApplyRateLimit_each].
    set (sys1 := (handleApplyRateLimit range_values now sys cmd).2) in *.
    assert (Hnew : match newEvent with
                   | EvApplied e => applied_RequestCount e = k + 1
                   | EvExceeded e => exceeded_RequestCount e = k + 1
                   | _ => False
                   end).
    { cbv zeta in Hshape. rewrite Hcount in Hshape. unfold int_add in Hshape.
      rewrite wrap_int_id in Hshape by int_lia.
      destruct (CanMakeRequest now _ rule).
      - by destruct Hshape as (e & -> & _ & _ & -> & _).
      - by destruct Hshape as (e & -> & -> & _). }
    destruct (IH (k + 1) sys1) as (new & Hnewstream & Hnewlen & Hall & Hfinal).
    + by rewrite Hsame.
    + intros now'. rewrite Hstate, <- (Hcount now').
      destruct newEvent as [e | e | e | e]; try done; cbn [applyToState state_RequestCount];
        rewrite Hnew; by rewrite Hcount.
    + rewrite Hstream, len_app. change (len [newEvent]) with 1. lia.
    + lia.
    + lia.
    + exists (newEvent :: new). rewrite Hnewstream, Hstream, <- app_assoc.
      split; [reflexivity |]. split; [cbn; lia |]. split.
      * intros [| i] event Hi.
        -- injection Hi as <-. rewrite Hversion, Htime. split; [lia |]. split; [done |].
           destruct newEvent; try done; rewrite Hnew; lia.
        -- cbn in Hi. destruct (Hall i event Hi) as (Hv & Ht & Hc).
           rewrite Hstream, len_app in Hv. change (len [newEvent]) with 1 in Hv.
           split; [lia |]. split; [exact Ht |].
           destruct event; try done; rewrite Hc; lia.
      * intros now'. rewrite Hfinal. lia.
Qed.

(** X13. The request count counts commands, not requests of a window: from
    an empty stream, whatever the instants of the commands (in one window or
    across many) and whether they are admitted or refused, the [i]-th
    command appends one event, stamped with its instant, whose version and
    whose request count are both [i], and the count of the rebuilt state is
    the number of commands handled. Nothing in the handler starts the count
    again when a window ends. *)
Theorem request_count_counts_every_command (sys : System) (cmd : ApplyRateLimitCommand)
    (rule : RateLimitRule) (rules : list RateLimitRule) (later : list Time) :
  let aggregateID := apply_ClientID cmd +:+ ":" +:+ apply_Resource cmd in
  let sys' := handleApplyRateLimit_each range_values later sys cmd in
  GetByResource range_values (sys_rules sys) (apply_Resource cmd) = rule :: rules ->
  GetEvents (sys_events sys) aggregateID = [] ->
  len later <= int_max ->
  length (GetEvents (sys_events sys') aggregateID) = length later
  /\ (forall (i : nat) event,
        GetEvents (sys_events sys') aggregateID !! i = Some event ->
        ev_Version (baseOf event) = Z.of_nat i + 1
        /\ later !! i = Some (ev_Time (baseOf event))
        /\ match event with
           | EvApplied e => applied_RequestCount e = Z.of_nat i + 1
           | EvExceeded e => exceeded_RequestCount e = Z.of_nat i + 1
           | _ => False
           end)
  /\ forall now,
       state_RequestCount (stateOf now sys' (apply_ClientID cmd) (apply_Resource cmd))
       = len later.
Proof.
  cbv zeta. intros Hrules Hfresh Hlen.
  destruct (handleApplyRateLimit_each_counts cmd rule rules later 0 sys)
    as (new & Hstream & Hnewlen & Hall & Hfinal).
  - exact Hrules.
  - intros now. unfold stateOf. by rewrite Hfresh.
  - rewrite Hfresh. exact Hlen.
  - int_lia.
  - lia.
  - rewrite Hfresh in *. cbn [app] in Hstream. rewrite Hstream.
    split; [exact Hnewlen |]. split.
    + intros i event Hi. destruct (Hall i event Hi) as (Hv & Ht & Hc).
      change (len []) with 0 in Hv. split; [lia |]. split; [exact Ht |].
      destruct event; try done; rewrite Hc; lia.
    + intros now. rewrite Hfinal. lia.
Qed.

End HandlerProperties.

(** ** The rules of the rate limiter and the service *)

Lemma sprintf_d_inj (prefix : string) (n m : Z) :
  sprintf_d prefix n = sprintf_d prefix m -> n = m.
Proof.
  unfold sprintf_d. intros Heq.
  apply (inj pretty). by apply (inj (String.app prefix)).
Qed.

Section ServiceProperties.

Variable range_values : forall A : Type, gmap string A -> list A.

Lemma GetByResource_elem_of (rules : gmap string RateLimitRule) (resource : string)
    (rule : RateLimitRule) :
  range_visits_each_once range_values ->
  rule ∈ GetByResource range_values rules resource
  <-> (exists id, rules !! id = Some rule) /\ rl_Resource rule = resource.
Proof.
  intros Hrange. unfold GetByResource.
  rewrite list_elem_of_filter, (range_elem_of _ _ _ _ Hrange).
  destruct (String.eqb_spec (rl_Resource rule) resource); split; intros [? ?]; done.
Qed.

(** X16. A command for a resource fails exactly when the repository has no
    rule for the resource; the error names the resource and nothing is
    stored. Otherwise the limit written into the event is the limit of one
    of the rules of the resource: the first in the order in which the map
    of rules is visited, so with several rules for one resource the choice
    is the runtime's. *)
Theorem handleApplyRateLimit_fails_iff_no_rule (now : Time) (sys : System)
    (cmd : ApplyRateLimitCommand) :
  let aggregateID := apply_ClientID cmd +:+ ":" +:+ apply_Resource cmd in
  let err := (handleApplyRateLimit range_values now sys cmd).1 in
  let sys' := (handleApplyRateLimit range_values now sys cmd).2 in
  range_visits_each_once range_values ->
  len (GetEvents (sys_events sys) aggregateID) <= int_max ->
  (err <> None
   <-> ~ exists id rule, sys_rules sys !! id = Some rule
                         /\ rl_Resource rule = apply_Resource cmd)
  /\ (err <> None ->
      err = Some (ErrNoRulesForResource (apply_Resource cmd)) /\ sys' = sys)
  /\ (err = None ->
      exists id rule event,
        sys_rules sys !! id = Some rule
        /\ rl_Resource rule = apply_Resource cmd
        /\ GetEvents (sys_events sys') aggregateID
           = GetEvents (sys_events sys) aggregateID ++ [event]
        /\ match event with
           | EvApplied e => applied_Limit e = rl_Limit rule
           | EvExceeded e => exceeded_Limit e = rl_Limit rule
           | _ => False
           end).
Proof.
  cbv zeta. intros Hrange Hlen.
  destruct (GetByResource range_values (sys_rules sys) (apply_Resource cmd))
    as [| rule rules] eqn:Hrules.
  - assert (Hrun : handleApplyRateLimit range_values now sys cmd
                   = (Some (ErrNoRulesForResource (apply_Resource cmd)), sys)).
    { unfold handleApplyRateLimit. by rewrite Hrules. }
    rewrite Hrun. cbn [fst snd]. split; [| by split].
    split; [| done]. intros _ (id & rule & Hid & Hres).
    assert (Hin : rule ∈ GetByResource range_values (sys_rules sys) (apply_Resource cmd)).
    { apply (GetByResource_elem_of _ _ _ Hrange). split; [by exists id | done]. }
    rewrite Hrules in Hin. by apply elem_of_nil in Hin.
  - destruct (handleApplyRateLimit_emits range_values now sys cmd rule rules Hrules Hlen)
      as (newEvent & Hrun & Hshape).
    assert (Hin : rule ∈ GetByResource range_values (sys_rules sys) (apply_Resource cmd)).
    { rewrite Hrules. left. }
    apply (GetByResource_elem_of _ _ _ Hrange) in Hin as [[id Hid] Hres].
    rewrite Hrun. cbn [fst snd withEvents sys_events]. rewrite GetEvents_insert.
    split; [| split; [done |]].
    + split; [done |]. intros Hnone. exfalso. apply Hnone. by exists id, rule.
    + intros _. exists id, rule, newEvent.
      split; [exact Hid |]. split; [exact Hres |]. split; [reflexivity |].
      destruct (CanMakeRequest now _ rule).
      * by destruct Hshape as (e & -> & _ & _ & _ & -> & _).
      * by destruct Hshape as (e & -> & _ & -> & _).
Qed.

(** X17. The service does not validate a rule it creates and names it by
    the clock alone: [CreateRule] never fails, whatever the limit and the
    window, and stores the rule under "rule-" followed by a reading of the
    clock in nanoseconds; [CreatedAt] and [UpdatedAt] are two further
    readings. Two rules whose ids were read at different nanoseconds are
    both kept; read at the same nanosecond, the second takes the place of
    the first. *)
Theorem CreateRule_named_by_the_clock (at1 at2 : Readings.CreateReadings) (sys : System)
    (resource1 resource2 : string) (limit1 limit2 : Z) (window1 window2 : Duration)
    (algorithm1 algorithm2 : string) :
  let first := Readings.CreateRule at1 sys resource1 limit1 window1 algorithm1 in
  let second := Readings.CreateRule at2 first.2 resource2 limit2 window2 algorithm2 in
  let rule1 :=
    {| rl_ID := sprintf_d "rule-" (UnixNano (Readings.ruleIDAt at1));
       rl_Resource := resource1;
       rl_Limit := limit1; rl_Window := window1; rl_Algorithm := algorithm1;
       rl_CreatedAt := Readings.ruleCreatedAt at1;
       rl_UpdatedAt := Readings.ruleUpdatedAt at1 |} in
  let rule2 :=
    {| rl_ID := sprintf_d "rule-" (UnixNano (Readings.ruleIDAt at2));
       rl_Resource := resource2;
       rl_Limit := limit2; rl_Window := window2; rl_Algorithm := algorithm2;
       rl_CreatedAt := Readings.ruleCreatedAt at2;
       rl_UpdatedAt := Readings.ruleUpdatedAt at2 |} in
  first.1 = None /\ second.1 = None
  /\ GetByID (sys_rules first.2) (rl_ID rule1) = Ok rule1
  /\ GetByID (sys_rules second.2) (rl_ID rule2) = Ok rule2
  /\ (UnixNano (Readings.ruleIDAt at1) <> UnixNano (Readings.ruleIDAt at2) ->
      GetByID (sys_rules second.2) (rl_ID rule1) = Ok rule1)
  /\ (UnixNano (Readings.ruleIDAt at1) = UnixNano (Readings.ruleIDAt at2) ->
      sys_rules second.2 = <[rl_ID rule2 := rule2]> (sys_rules sys))
  /\ (forall id, id <> rl_ID rule1 -> id <> rl_ID rule2 ->
        GetByID (sys_rules second.2) id = GetByID (sys_rules sys) id).
Proof.
  cbv zeta. unfold Readings.CreateRule, Readings.handleCreateRule, Save, GetByID.
  cbn [fst snd withRules sys_rules rl_ID create_Resource create_Limit create_Window
       create_Algorithm].
  split; [reflexivity |]. split; [reflexivity |].
  split; [by rewrite lookup_insert_eq |]. split; [by rewrite lookup_insert_eq |].
  split; [| split].
  - intros Hne. rewrite lookup_insert_ne, lookup_insert_eq; [reflexivity |].
    intros Heq. apply sprintf_d_inj in Heq. congruence.
  - intros ->. apply insert_insert_eq.
  - intros id Hne1 Hne2. by rewrite !lookup_insert_ne.
Qed.

Lemma handleApplyRateLimit_readModel (now : Time) (sys : System)
    (cmd : ApplyRateLimitCommand) :
  sys_readModel (handleApplyRateLimit range_values now sys cmd).2 = sys_readModel sys.
Proof.
  unfold handleApplyRateLimit.
  destruct (GetByResource range_values (sys_rules sys) (apply_Resource cmd)); [reflexivity |].
  by destruct (SaveEvents _ _ _ _).
Qed.

Lemma CheckRateLimit_status (now : Time) (sys : System)
    (clientID resource ipAddress userAgent : string) (status : RateLimitStatus) :
  (CheckRateLimit range_values now sys clientID resource ipAddress userAgent).1 = Ok status ->
  status = GetRateLimitStatus now (sys_readModel sys) clientID resource.
Proof.
  unfold CheckRateLimit, handleGetRateLimitStatus, Handle.
  destruct (_ && _); cbn [fst]; [congruence |].
  match goal with
  | |- context [handleApplyRateLimit range_values now sys ?c] =>
      pose proof (handleApplyRateLimit_readModel now sys c) as Hsame;
      destruct (handleApplyRateLimit range_values now sys c) as [[err |] sys']
  end; cbn [fst snd] in *; [discriminate |].
  rewrite Hsame. congruence.
Qed.

Lemma CheckRateLimit_readModel (now : Time) (sys : System)
    (clientID resource ipAddress userAgent : string) :
  sys_readModel (CheckRateLimit range_values now sys clientID resource ipAddress userAgent).2
  = sys_readModel sys.
Proof.
  unfold CheckRateLimit, handleGetRateLimitStatus, Handle.
  destruct (_ && _); cbn [snd]; [reflexivity |].
  match goal with
  | |- context [handleApplyRateLimit range_values now sys ?c] =>
      pose proof (handleApplyRateLimit_readModel now sys c) as Hsame;
      destruct (handleApplyRateLimit range_values now sys c) as [[err |] sys']
  end; exact Hsame.
Qed.


End ServiceProperties.

(** ** History: pages *)

Lemma GetRateLimitHistory_paged (r : InMemoryReadModel) (clientID resource : string)
    (startTime endTime : Time) (limit offset : Z) :
  let filtered :=
    filterByTimeRange startTime endTime
      (default [] (rm_history r !! (clientID +:+ ":" +:+ resource))) in
  0 <= offset -> 0 <= limit -> offset + limit <= int_max ->
  GetRateLimitHistory r clientID resource startTime endTime limit offset
  = Some {| hist_Events := take (Z.to_nat limit) (drop (Z.to_nat offset) filtered);
            hist_TotalCount := len filtered;
            hist_HasMore := offset + limit <? len filtered |}.
Proof.
  cbv zeta. unfold GetRateLimitHistory.
  set (filtered := filterByTimeRange startTime endTime _).
  pose proof (len_nonneg filtered) as Hnn.
  intros Hoffset Hlimit Hsum. cbv zeta.
  unfold int_add. rewrite wrap_int_id by int_lia.
  destruct (Z.leb_spec (len filtered) offset) as [Hpast | Hin].
  - f_equal. f_equal.
    + rewrite drop_ge; [by rewrite take_nil | unfold len in Hpast; lia].
    + symmetry. apply Z.ltb_ge. lia.
  - unfold slice_list.
    destruct (Z.ltb_spec (len filtered) (offset + limit)) as [Hshort | Hlong].
    + replace ((0 <=? offset) && (offset <=? len filtered) && (len filtered <=? len filtered))
        with true by (symmetry; rewrite !andb_true_iff, !Z.leb_le; lia).
      f_equal. f_equal.
      * rewrite !take_ge; [reflexivity | |]; rewrite length_drop; unfold len in *; lia.
      * rewrite Z.ltb_irrefl. symmetry. apply Z.ltb_ge. lia.
    + replace ((0 <=? offset) && (offset <=? offset + limit)
               && (offset + limit <=? len filtered))
        with true by (symmetry; rewrite !andb_true_iff, !Z.leb_le; lia).
      f_equal. f_equal. f_equal. lia.
Qed.

(** X19. Pages of the history. For an offset that is not negative and a
    limit that is not negative, whose sum is an [int], [GetRateLimitHistory]
    does not panic: it returns the events of the time range from position
    [offset] on, at most [limit] of them, in the order of the history,
    together with the number of all events of the range, and it reports
    more events exactly when some lie beyond the page. A negative offset
    makes the slice expression panic, whatever the history. *)
Theorem GetRateLimitHistory_page (r : InMemoryReadModel) (clientID resource : string)
    (startTime endTime : Time) (limit offset : Z) :
  let filtered :=
    filterByTimeRange startTime endTime
      (default [] (rm_history r !! (clientID +:+ ":" +:+ resource))) in
  let history := GetRateLimitHistory r clientID resource startTime endTime limit offset in
  (0 <= offset -> 0 <= limit -> offset + limit <= int_max ->
   history
   = Some {| hist_Events := take (Z.to_nat limit) (drop (Z.to_nat offset) filtered);
             hist_TotalCount := len filtered;
             hist_HasMore := offset + limit <? len filtered |})
  /\ (offset < 0 -> history = None).
Proof.
  cbv zeta. split; [apply GetRateLimitHistory_paged |].
  intros Hneg. unfold GetRateLimitHistory.
  set (filtered := filterByTimeRange startTime endTime _).
  pose proof (len_nonneg filtered) as Hnn. cbv zeta.
  destruct (Z.leb_spec (len filtered) offset) as [Hpast | Hin]; [lia |].
  unfold slice_list. destruct (Z.leb_spec 0 offset); [lia | reflexivity].
Qed.

Section HistoryHandlerProperties.

Variable Atoi : string -> option Z.
Variable ParseRFC3339 : string -> option Time.




End HistoryHandlerProperties.

(** ** Projection: the statistics *)

Lemma wrap_int_add_r (a b : Z) : wrap_int (a + wrap_int b) = wrap_int (a + b).
Proof. rewrite (Z.add_comm a), wrap_int_add_l. f_equal. lia. Qed.

Lemma wrap_int_idemp (a : Z) : wrap_int (wrap_int a) = wrap_int a.
Proof. apply wrap_int_id, wrap_int_range. Qed.

Section UpdateFirst.

Context {A K : Type} (p : A -> bool) (fresh : A) (f : A -> A).

Lemma updateFirst_Forall (P : A -> Prop) (l : list A) :
  (forall x, P x -> P (f x)) -> P (f fresh) -> Forall P l ->
  Forall P (updateFirst p fresh f l).
Proof.
  intros Hf Hfresh. induction 1 as [| x l Hx Hl IH]; cbn.
  - by constructor.
  - destruct (p x); constructor; auto.
Qed.

Lemma updateFirst_key_elem_of (key : A -> K) (k k' : K) (l : list A) :
  (forall x, key (f x) = key x) -> key fresh = k ->
  k' ∈ key <$> updateFirst p fresh f l -> k' ∈ key <$> l \/ k' = k.
Proof.
  intros Hf Hfresh. induction l as [| x l IH]; cbn.
  - rewrite Hf, Hfresh. intros Hin%list_elem_of_singleton. by right.
  - destruct (p x); cbn; rewrite ?Hf, !elem_of_cons; [tauto |].
    intros [-> | Hin]; [by left; left |]. destruct (IH Hin); [left; by right | by right].
Qed.

Lemma updateFirst_keys (key : A -> K) (k : K) (l : list A) :
  (forall x, p x = true <-> key x = k) -> (forall x, key (f x) = key x) ->
  key fresh = k ->
  NoDup (key <$> l) -> NoDup (key <$> updateFirst p fresh f l).
Proof.
  intros Hp Hf Hfresh.
  induction l as [| x l IH]; intros Hnodup; cbn.
  - rewrite Hf, Hfresh. apply NoDup_singleton.
  - apply NoDup_cons in Hnodup as [Hx Hnodup].
    destruct (p x) eqn:Hpx; cbn.
    + rewrite Hf. by apply NoDup_cons.
    + apply NoDup_cons. split; [| by apply IH].
      intros Hin. apply (updateFirst_key_elem_of key k) in Hin as [Hin | Heq]; try done.
      apply Hp in Heq. congruence.
Qed.

Lemma updateFirst_sum (g : A -> Z) (l : list A) :
  (forall x, g (f x) = int_add (g x) 1) -> g fresh = 0 ->
  wrap_int (foldr Z.add 0 (g <$> updateFirst p fresh f l))
  = wrap_int (foldr Z.add 0 (g <$> l) + 1).
Proof.
  intros Hf Hfresh. induction l as [| x l IH]; cbn.
  - rewrite Hf, Hfresh. unfold int_add. rewrite Z.add_0_r. apply wrap_int_idemp.
  - destruct (p x); cbn.
    + rewrite Hf. unfold int_add.
      rewrite (Z.add_comm (wrap_int _)), wrap_int_add_r. f_equal. lia.
    + rewrite <- wrap_int_add_r, IH, wrap_int_add_r. f_equal. lia.
Qed.

End UpdateFirst.

Lemma count_step (total allowed blocked : Z) (isAllowed : bool) :
  total = wrap_int (allowed + blocked) ->
  int_add total 1
  = wrap_int ((if isAllowed then int_add allowed 1 else allowed)
              + (if isAllowed then blocked else int_add blocked 1)).
Proof.
  intros ->. unfold int_add. rewrite wrap_int_add_l.
  destruct isAllowed; rewrite ?wrap_int_add_l, ?wrap_int_add_r; f_equal; lia.
Qed.

Lemma updateClientStats_consistent (now : Time) (stats : gmap string ClientStats)
    (clientID resource : string) (allowed : bool) :
  (forall client s, stats !! client = Some s -> statsConsistent client s) ->
  forall client s,
    updateClientStats now stats clientID resource allowed !! client = Some s ->
    statsConsistent client s.
Proof.
  intros Hall client s. unfold updateClientStats. cbv zeta.
  set (old := match stats !! clientID with Some s' => s' | None => _ end).
  assert (Hold : statsConsistent clientID old).
  { subst old. destruct (stats !! clientID) as [s' |] eqn:Hlookup; [by apply Hall |].
    unfold statsConsistent. cbn. repeat split; try constructor. }
  intros Hlookup. apply lookup_insert_Some in Hlookup as [[<- <-] | [_ Hlookup]];
    [| by apply Hall].
  destruct Hold as (Hid & Htotal & Hrs & Hdp & Hsumrs & Hsumdp & Hnrs & Hndp).
  unfold statsConsistent. cbn [cs_ClientID cs_TotalRequests cs_AllowedRequests
    cs_BlockedRequests cs_ResourceStats cs_TimeSeriesData].
  split; [exact Hid |]. split; [by apply count_step |].
  split; [| split; [| split; [| split; [| split]]]].
  - apply updateFirst_Forall; [| | exact Hrs].
    + intros rs Hrs'. by apply count_step.
    + by destruct allowed.
  - apply updateFirst_Forall; [| | exact Hdp].
    + intros dp Hdp'. by apply count_step.
    + by destruct allowed.
  - rewrite updateFirst_sum; [| done | done].
    rewrite Hsumrs. unfold int_add. by rewrite wrap_int_add_l.
  - rewrite updateFirst_sum; [| done | done].
    rewrite Hsumdp. unfold int_add. by rewrite wrap_int_add_l.
  - apply (updateFirst_keys _ _ _ rs_Resource resource); try done.
    intros rs. cbn. by destruct (String.eqb_spec (rs_Resource rs) resource).
  - apply (updateFirst_keys _ _ _ ts_Timestamp (Truncate now Minute)); try done.
    intros dp. unfold Equal. apply Z.eqb_eq.
Qed.

Lemma UpdateFromEvent_consistent (now : Time) (r : InMemoryReadModel) (event : Event) :
  (forall client s, rm_stats r !! client = Some s -> statsConsistent client s) ->
  forall client s,
    rm_stats (UpdateFromEvent now r event).2 !! client = Some s -> statsConsistent client s.
Proof.
  intros Hall. destruct event as [e | e | e | e]; cbn [UpdateFromEvent snd];
    try exact Hall; cbn [updateFromRateLimitApplied updateFromRateLimitExceeded rm_stats];
    by apply updateClientStats_consistent.
Qed.

Lemma projectEvents_consistent (received : list (Time * Event)) :
  forall r,
    (forall client s, rm_stats r !! client = Some s -> statsConsistent client s) ->
    forall client s, rm_stats (projectEvents r received) !! client = Some s ->
                     statsConsistent client s.
Proof.
  induction received as [| [now event] received IH]; intros r Hall; [exact Hall |].
  unfold projectEvents. cbn [foldl]. apply IH. by apply UpdateFromEvent_consistent.
Qed.

(** X21. The statistics of a client are consistent, whatever events the
    projection was fed, in whatever order and at whatever instants, and
    whether the client is known or not: in what [GetClientStats] returns,
    the total is the number of allowed plus the number of blocked requests,
    and so it is for each of the client's resources and minutes; the
    client's total is the sum of the totals of its resources and the sum of
    the totals of its minutes; and no resource and no minute is entered
    twice (all counts in Go's [int] arithmetic). *)
Theorem GetClientStats_consistent (received : list (Time * Event)) (clientID : string) :
  statsConsistent clientID
    (GetClientStats (projectEvents NewInMemoryReadModel received) clientID).
Proof.
  unfold GetClientStats.
  destruct (rm_stats (projectEvents NewInMemoryReadModel received) !! clientID)
    as [stats |] eqn:Hlookup.
  - apply (projectEvents_consistent received NewInMemoryReadModel); [| exact Hlookup].
    intros client s Hempty. cbn in Hempty. by rewrite lookup_empty in Hempty.
  - unfold statsConsistent. cbn. repeat split; constructor.
Qed.

(** ** Projection: what an event changes *)

(** X22. What the projection of one event changes. An event of a type the
    read model does not project (a [RateLimitRequested] event) is answered
    with an error and changes nothing. Every other event adds exactly one
    entry, carrying the id, the type and the time of the event, at the end
    of the history of the pair it names, and leaves the history and the
    status of every other pair as they were. An admission sets the status
    of the pair to allowed and not blocked with the figures of the event, a
    refusal to not allowed and blocked with a retry delay that is never
    negative, and a reset changes no statistics and creates no status where
    there was none. *)
Theorem UpdateFromEvent_changes (now : Time) (r : InMemoryReadModel) (event : Event) :
  let err := (UpdateFromEvent now r event).1 in
  let r' := (UpdateFromEvent now r event).2 in
  let key := pairOf event in
  (forall e, event = EvRequested e -> err = Some ErrUnknownEventType /\ r' = r)
  /\ ((forall e, event <> EvRequested e) ->
      err = None
      /\ (exists entry,
            rm_history r' !! key = Some (default [] (rm_history r !! key) ++ [entry])
            /\ he_EventID entry = EventID event
            /\ he_EventType entry = EventType event
            /\ he_Timestamp entry = Timestamp event
            /\ (he_IsBlocked entry = true <-> exists e, event = EvExceeded e))
      /\ forall other, other <> key ->
           rm_history r' !! other = rm_history r !! other
           /\ rm_statuses r' !! other = rm_statuses r !! other)
  /\ (forall e, event = EvApplied e ->
      exists status,
        rm_statuses r' !! key = Some status
        /\ st_IsAllowed status = true /\ st_IsBlocked status = false
        /\ st_RequestCount status = applied_RequestCount e
        /\ st_RemainingQuota status = applied_RemainingQuota e
        /\ st_ResetTime status = applied_WindowEnd e)
  /\ (forall e, event = EvExceeded e ->
      exists status,
        rm_statuses r' !! key = Some status
        /\ st_IsAllowed status = false /\ st_IsBlocked status = true
        /\ st_BlockedUntil status = exceeded_BlockedUntil e
        /\ st_RemainingQuota status = 0
        /\ 0 <= st_RetryAfter status)
  /\ (forall e, event = EvWindowReset e ->
      rm_stats r' = rm_stats r
      /\ (rm_statuses r !! key = None -> rm_statuses r' = rm_statuses r)).
Proof.
  cbv zeta. split; [| split; [| split; [| split]]].
  - by intros e ->.
  - intros Hprojected.
    destruct event as [e | e | e | e]; [by destruct (Hprojected e) | | |];
      cbn [UpdateFromEvent fst snd pairOf];
      (split; [reflexivity |]); (split; [| intros other Hother]).
    + eexists. cbn [updateFromRateLimitApplied rm_history]. unfold appendHistory.
      rewrite lookup_insert_eq. split; [reflexivity |]. repeat split; [done |].
      intros (e' & He'). discriminate He'.
    + cbn [updateFromRateLimitApplied rm_history rm_statuses]. unfold appendHistory.
      by rewrite !lookup_insert_ne.
    + eexists. cbn [updateFromRateLimitExceeded rm_history]. unfold appendHistory.
      rewrite lookup_insert_eq. split; [reflexivity |]. repeat split. by exists e.
    + cbn [updateFromRateLimitExceeded rm_history rm_statuses]. unfold appendHistory.
      by rewrite !lookup_insert_ne.
    + eexists. cbn [updateFromWindowReset rm_history]. unfold appendHistory.
      rewrite lookup_insert_eq. split; [reflexivity |]. repeat split; [done |].
      intros (e' & He'). discriminate He'.
    + cbn [updateFromWindowReset rm_history rm_statuses]. unfold appendHistory.
      rewrite lookup_insert_ne by done. split; [reflexivity |].
      destruct (rm_statuses r !! _); [by rewrite lookup_insert_ne | reflexivity].
  - intros e ->. cbn [UpdateFromEvent snd pairOf updateFromRateLimitApplied rm_statuses].
    rewrite lookup_insert_eq. eexists. split; [reflexivity |]. by repeat split.
  - intros e ->. cbn [UpdateFromEvent snd pairOf updateFromRateLimitExceeded rm_statuses].
    rewrite lookup_insert_eq. eexists. split; [reflexivity |].
    cbn [st_IsAllowed st_IsBlocked st_BlockedUntil st_RemainingQuota st_RetryAfter].
    repeat split.
    destruct (Z.ltb_spec (int_of_float64 (Seconds (Until now (exceeded_BlockedUntil e)))) 0);
      lia.
  - intros e ->. cbn [UpdateFromEvent snd pairOf updateFromWindowReset rm_stats rm_statuses].
    split; [reflexivity |]. by intros ->.
Qed.

(** ** Integrated service: the decision *)

Section DecisionProperties.

Variable range_values : forall A : Type, gmap string A -> list A.
Variable sort_by_priority : list Rule -> list Rule.
Variable Atoi : string -> option Z.
Variable ParseDuration : string -> option Duration.

(** Installing the dynamic rules never fails, and it writes to the rule
    repository of the rate limiter only. *)
Lemma applyDynamicRateLimiting_frame (clock : nat -> Time) (actions : list RuleAction)
    (resource : string) :
  forall (k : nat) (sys : System),
    let out := applyDynamicRateLimiting range_values Atoi ParseDuration
                 clock k sys actions resource in
    out.1.1 = None
    /\ sys_events out.1.2 = sys_events sys
    /\ sys_readModel out.1.2 = sys_readModel sys
    /\ sys_engineRules out.1.2 = sys_engineRules sys.
Proof.
  cbv zeta. induction actions as [| action actions IH]; intros k sys; [done |].
  cbn [applyDynamicRateLimiting].
  destruct (String.eqb (act_Type action) "rate_limit"); [| by apply IH].
  destruct (act_Parameters action !! "limit") as [limit |]; [| by apply IH].
  destruct (act_Parameters action !! "window") as [window |]; [| by apply IH].
  destruct ((0 <? limitOf Atoi limit) && (0 <? windowOf ParseDuration window));
    [| by apply IH].
  unfold CreateRule, Handle, handleCreateRule.
  match goal with
  | |- context [applyDynamicRateLimiting _ _ _ _ (S k) ?s _ _] =>
      destruct (IH (S k) s) as (Herr & Hevents & Hmodel & Hengine)
  end.
  by rewrite Herr, Hevents, Hmodel, Hengine.
Qed.

(** X23. What decides. When [CheckRequestWithRules] does not panic, it
    leaves the read model and the rules of the rule engine as they were,
    and its answer is one of three. Blocked by a rule: not allowed, reason
    "blocked by rule", no status, nothing changed. Or a decision taken from
    the status that the read model held for the pair before the call:
    allowed exactly when that status says so, and allowed when the read
    model holds no status for the pair; the events in the event store, the
    one stored by this call included, do not enter. Or the error of the
    rate-limit command, wrapped twice; installing dynamic rules never
    fails. *)
Theorem CheckRequestWithRules_decision (clock : nat -> Time) (sys : System)
    (clientID resource ipAddress userAgent : string)
    (metadata : gmap string string) (requestData : gmap string GoValue)
    (outcome : result RequestCheckResult) (sys' : System) :
  CheckRequestWithRules range_values sort_by_priority Atoi ParseDuration
    clock sys clientID resource ipAddress userAgent metadata requestData
  = Some (outcome, sys') ->
  sys_readModel sys' = sys_readModel sys
  /\ sys_engineRules sys' = sys_engineRules sys
  /\ match outcome with
     | Ok decision =>
         (rc_Allowed decision = false /\ rc_Reason decision = "blocked by rule"
          /\ rc_RateLimitStatus decision = None /\ sys' = sys)
         \/ (exists status,
               rc_RateLimitStatus decision = Some status
               /\ rc_Allowed decision = st_IsAllowed status
               /\ rc_Allowed decision
                  = match rm_statuses (sys_readModel sys) !! (clientID +:+ ":" +:+ resource)
                    with
                    | Some held => st_IsAllowed held
                    | None => true
                    end
               /\ rc_Reason decision = determineReason status (rc_RuleResults decision)
               /\ rc_BlockingRuleID decision = "")
     | Err err =>
         exists cause,
           err = ErrWrap "failed to check rate limit"
                   (ErrWrap "failed to apply rate limit" cause)
     end.
Proof.
  unfold CheckRequestWithRules.
  destruct (EvaluateRules _ _ _ _ _) as [ruleResults |]; [| discriminate].
  destruct (HasBlockingAction ruleResults).
  { intros [= <- <-]. split; [reflexivity |]. split; [reflexivity |]. left. by repeat split. }
  pose proof (applyDynamicRateLimiting_frame clock (GetRateLimitActions ruleResults)
                resource 1%nat sys) as (Herr & _ & Hmodel & Hengine).
  destruct (applyDynamicRateLimiting _ _ _ _ _ _ _ _) as [[err sys1] k].
  cbn [fst snd] in Herr, Hmodel, Hengine. subst err.
  pose proof (CheckRateLimit_readModel range_values (clock k) sys1 clientID resource
                ipAddress userAgent) as Hmodel'.
  pose proof (CheckRateLimit_status range_values (clock k) sys1 clientID resource
                ipAddress userAgent) as Hstatus.
  assert (Hengine' : sys_engineRules
                       (CheckRateLimit range_values (clock k) sys1 clientID resource
                          ipAddress userAgent).2 = sys_engineRules sys1).
  { unfold CheckRateLimit, Handle, handleApplyRateLimit. destruct (_ && _); [reflexivity |].
    cbn [apply_Resource apply_ClientID].
    destruct (GetByResource range_values (sys_rules sys1) resource); [reflexivity |].
    by destruct (SaveEvents _ _ _ _) as [[?|] ?]. }
  assert (Herror : forall err,
            (CheckRateLimit range_values (clock k) sys1 clientID resource
               ipAddress userAgent).1 = Err err ->
            exists cause, err = ErrWrap "failed to apply rate limit" cause).
  { unfold CheckRateLimit. destruct (_ && _); [discriminate |].
    destruct (Handle _ _ _ _) as [[cause |] ?]; cbn [fst]; [| discriminate].
    intros err [= <-]. by exists cause. }
  destruct (CheckRateLimit _ _ _ _ _ _ _) as [[status | err] sys2].
  - cbn [fst snd] in *. intros [= <- <-].
    split; [congruence |]. split; [congruence |]. right.
    exists status. split; [reflexivity |]. split; [reflexivity |].
    cbn [rc_Allowed rc_Reason rc_RuleResults rc_BlockingRuleID].
    split; [| split; [| reflexivity]].
    + rewrite (Hstatus status eq_refl), Hmodel. unfold GetRateLimitStatus.
      by destruct (rm_statuses (sys_readModel sys) !! _).
    + unfold determineReason. by destruct (st_IsAllowed status).
  - cbn [fst snd] in *. intros [= <- <-].
    split; [congruence |]. split; [congruence |].
    destruct (Herror err eq_refl) as [cause ->]. by exists cause.
Qed.

End DecisionProperties.

(** ** Integrated service: the rules it creates *)

Lemma in_loop_strings (s : string) (candidates : list string) :
  exists found,
    in_loop (VString s) (VString <$> candidates) = Some found
    /\ (found = true <-> s ∈ candidates).
Proof.
  induction candidates as [| c candidates (found & IH & Hfound)]; cbn.
  - exists false. split; [reflexivity |]. split; [discriminate | by intros ?%elem_of_nil].
  - destruct (String.eqb_spec s c) as [-> | Hne].
    + exists true. split; [reflexivity |]. split; [intros _; left | reflexivity].
    + exists found. split; [exact IH |]. rewrite Hfound, elem_of_cons. tauto.
Qed.

(** A rule with the single condition [field in candidates], on one of the
    fields of the request that are strings. *)
Lemma EvaluateRule_in_strings (now : Time) (r : Rule) (ctx : RuleEvaluationContext)
    (field s : string) (candidates : list string) :
  rule_Enabled r = true ->
  rule_Conditions r = [condition field "in" (VSlice (VString <$> candidates))] ->
  fieldValueOf field ctx = Some (VString s) ->
  exists result,
    EvaluateRule now r ctx = Some result
    /\ res_RuleID result = rule_ID r
    /\ (res_Matched result = true <-> s ∈ candidates)
    /\ (res_Matched result = true -> res_Actions result = rule_Actions r)
    /\ (evaluateConditions r (rule_Conditions r) ctx = Some true <-> s ∈ candidates).
Proof.
  intros Henabled Hconds Hfield. unfold EvaluateRule. rewrite Henabled, Hconds.
  cbn [negb evaluateConditions]. unfold evaluateCondition.
  cbn [condition cond_Field cond_Operator cond_Value]. rewrite Hfield.
  cbn [String.eqb Ascii.eqb Bool.eqb].
  destruct (in_loop_strings s candidates) as (found & -> & Hfound).
  destruct found; eexists; (split; [reflexivity |]); cbn;
    (split; [reflexivity |]); rewrite <- Hfound; by repeat split.
Qed.

Section CreatedRules.

Variable range_values : forall A : Type, gmap string A -> list A.
Variable sort_by_priority : list Rule -> list Rule.
Variable Atoi : string -> option Z.
Variable ParseDuration : string -> option Duration.
Variable DurationString : Duration -> string.

(** X24. The rule [CreateIPBasedRule] stores, under "ip-rule-" followed by
    the instant in nanoseconds, is enabled, has priority 100, never panics
    when it is evaluated, and matches exactly the requests whose IP address
    is in the list. With the action "block" a match blocks. The rule is
    stored without being validated: with an action other than "block" and
    "rate_limit" it has no action at all, a rule [ValidateRule] rejects.
    Nothing but the rule engine's repository is written, and there only
    this one rule. *)
Theorem CreateIPBasedRule_rule (now : Time) (sys : System) (ipAddresses : list string)
    (action : string) (parameters : gmap string GoValue) :
  let id := sprintf_d "ip-rule-" (UnixNano now) in
  let sys' := CreateIPBasedRule now sys ipAddresses action parameters in
  (exists rule,
     RuleEngine.GetRule (sys_engineRules sys') id = Ok rule
     /\ rule_Enabled rule = true /\ rule_Priority rule = 100
     /\ (forall t ctx, exists result,
           EvaluateRule t rule ctx = Some result
           /\ (res_Matched result = true <-> ctx_IPAddress ctx ∈ ipAddresses)
           /\ (action = "block" -> res_Matched result = true -> blocks result))
     /\ (RuleEngine.ValidateRule rule = None <-> action = "block" \/ action = "rate_limit")
     /\ (action <> "block" -> action <> "rate_limit" -> rule_Actions rule = []))
  /\ sys_events sys' = sys_events sys /\ sys_rules sys' = sys_rules sys
  /\ sys_readModel sys' = sys_readModel sys
  /\ forall other, other <> id ->
       RuleEngine.GetRule (sys_engineRules sys') other
       = RuleEngine.GetRule (sys_engineRules sys) other.
Proof.
  cbv zeta. unfold CreateIPBasedRule, RuleEngine.CreateRule, RuleRepository.SaveRule,
    RuleEngine.GetRule, RuleRepository.GetRuleByID.
  cbn [withEngineRules sys_engineRules sys_events sys_rules sys_readModel rule_ID].
  change (String.eqb (sprintf_d "ip-rule-" (UnixNano now)) "") with false. cbv iota.
  split; [| split; [reflexivity |]; split; [reflexivity |]; split; [reflexivity |]].
  - rewrite lookup_insert_eq. eexists. split; [reflexivity |].
    split; [reflexivity |]. split; [reflexivity |]. split; [| split].
    + intros t ctx.
      match goal with
      | |- context [EvaluateRule t ?r ctx] =>
          destruct (EvaluateRule_in_strings t r ctx "ip_address" (ctx_IPAddress ctx)
                      ipAddresses eq_refl eq_refl eq_refl)
            as (result & Hrun & _ & Hmatched & Hactions & _)
      end.
      exists result. split; [exact Hrun |]. split; [exact Hmatched |].
      intros -> Hyes. split; [exact Hyes |]. rewrite (Hactions Hyes). cbn.
      eexists. split; [left |]. by left.
    + unfold RuleEngine.ValidateRule. cbn [rule_Name rule_Conditions rule_Actions].
      change (String.eqb ("IP-based " +:+ action +:+ " rule") "") with false. cbv iota.
      destruct (String.eqb_spec action "block") as [-> | Hblock];
        [split; [by left | reflexivity] |].
      destruct (String.eqb_spec action "rate_limit") as [-> | Hrate];
        [split; [by right | reflexivity] |].
      split; [discriminate | by intros [? | ?]].
    + intros Hblock Hrate. cbn [rule_Actions].
      destruct (String.eqb_spec action "block"); [done |].
      by destruct (String.eqb_spec action "rate_limit").
  - intros other Hother. by rewrite lookup_insert_ne.
Qed.

(** X25. Blocking an address, end to end. After [CreateIPBasedRule] with the
    action "block", a request from an address of the list is answered "not
    allowed", with the reason "blocked by rule", whatever other rules the
    repository holds and in whatever order they are evaluated, provided
    their evaluation does not panic; no rate-limit command is handled for
    it. *)
Theorem CreateIPBasedRule_blocks_the_addresses (now : Time) (clock : nat -> Time)
    (sys : System) (ipAddresses : list string) (parameters : gmap string GoValue)
    (clientID resource ipAddress userAgent : string)
    (metadata : gmap string string) (requestData : gmap string GoValue)
    (ruleResults : list RuleEvaluationResult) :
  let sys' := CreateIPBasedRule now sys ipAddresses "block" parameters in
  let evalCtx :=
    {| ctx_ClientID := clientID; ctx_Resource := resource; ctx_IPAddress := ipAddress;
       ctx_UserAgent := userAgent; ctx_Timestamp := clock O;
       ctx_Metadata := metadata; ctx_RequestData := requestData |} in
  range_visits_each_once range_values ->
  sort_permutes sort_by_priority ->
  ipAddress ∈ ipAddresses ->
  EvaluateRules range_values sort_by_priority (clock O) (sys_engineRules sys') evalCtx
  = Some ruleResults ->
  exists decision,
    CheckRequestWithRules range_values sort_by_priority Atoi ParseDuration
      clock sys' clientID resource ipAddress userAgent metadata requestData
    = Some (Ok decision, sys')
    /\ rc_Allowed decision = false
    /\ rc_Reason decision = "blocked by rule".
Proof.
  cbv zeta. intros Hrange Hsort Hlisted Heval.
  set (sys' := CreateIPBasedRule now sys ipAddresses "block" parameters) in *.
  set (evalCtx := {| ctx_ClientID := clientID; ctx_IPAddress := ipAddress |}) in *.
  assert (Hstored : exists rule,
            sys_engineRules sys' !! sprintf_d "ip-rule-" (UnixNano now) = Some rule
            /\ rule_Enabled rule = true
            /\ rule_Conditions rule
               = [condition "ip_address" "in" (VSlice (VString <$> ipAddresses))]
            /\ rule_Actions rule = [{| act_Type := "deny"; act_Parameters := parameters |}]).
  { subst sys'. unfold CreateIPBasedRule, RuleEngine.CreateRule, RuleRepository.SaveRule.
    cbn [withEngineRules sys_engineRules rule_ID].
    change (String.eqb (sprintf_d "ip-rule-" (UnixNano now)) "") with false. cbv iota.
    rewrite lookup_insert_eq. eexists. by repeat split. }
  destruct Hstored as (rule & Hlookup & Henabled & Hconds & Hactions).
  destruct (EvaluateRule_in_strings (clock O) rule evalCtx "ip_address" ipAddress
              ipAddresses Henabled Hconds eq_refl)
    as (result & Hrun & _ & Hmatched & Hresult & Hholds).
  assert (Hin : rule ∈ sort_by_priority (GetActiveRules range_values (sys_engineRules sys'))).
  { rewrite (Hsort _). unfold GetActiveRules.
    apply list_elem_of_filter. split; [exact Henabled |].
    apply (range_elem_of _ _ _ _ Hrange). by eexists. }
  assert (Hblocks : blocks result).
  { split; [by apply Hmatched |]. rewrite Hresult, Hactions by (by apply Hmatched).
    eexists. split; [left |]. by left. }
  assert (Hresults : result ∈ ruleResults).
  { unfold EvaluateRules in Heval.
    exact (evaluateEach_elem_of _ _ _ _ _ _ Heval Hin Hrun). }
  destruct (HasBlockingAction_first ruleResults) as [Hhas _]; [by exists result |].
  unfold CheckRequestWithRules. fold evalCtx. rewrite Heval, Hhas.
  eexists. split; [reflexivity |]. by split.
Qed.


End CreatedRules.

(** ** Command handler: updating a rule *)

(** X27. Updating a rule of the rate limiter. For an id the repository does
    not hold, the command fails with "failed to get rule" around "rule not
    found", and nothing changes. For a rule stored under its own id, as
    [Save] stores every rule, the command succeeds: the rule keeps its id
    and its time of creation, takes the resource, limit, window and
    algorithm of the command, unchecked, and the instant of the update; the
    other rules and the event store are as they were. *)
Theorem handleUpdateRule_updates (now : Time) (sys : System) (cmd : UpdateRuleCommand) :
  let err := (handleUpdateRule now sys cmd).1 in
  let sys' := (handleUpdateRule now sys cmd).2 in
  (sys_rules sys !! update_RuleID cmd = None ->
   err = Some (ErrWrap "failed to get rule" (ErrRuleNotFound (update_RuleID cmd)))
   /\ sys' = sys)
  /\ (forall rule,
        sys_rules sys !! update_RuleID cmd = Some rule ->
        rl_ID rule = update_RuleID cmd ->
        err = None
        /\ GetByID (sys_rules sys') (update_RuleID cmd)
           = Ok {| rl_ID := update_RuleID cmd;
                   rl_Resource := update_Resource cmd; rl_Limit := update_Limit cmd;
                   rl_Window := update_Window cmd; rl_Algorithm := update_Algorithm cmd;
                   rl_CreatedAt := rl_CreatedAt rule; rl_UpdatedAt := now |}
        /\ (forall other, other <> update_RuleID cmd ->
              GetByID (sys_rules sys') other = GetByID (sys_rules sys) other)
        /\ sys_events sys' = sys_events sys).
Proof.
  cbv zeta. unfold handleUpdateRule, GetByID, Update. split.
  - by intros ->.
  - intros rule Hlookup Hid. rewrite Hlookup. cbn [rl_ID]. rewrite Hid, Hlookup.
    cbn [fst snd withRules sys_rules sys_events].
    split; [reflexivity |]. split; [by rewrite lookup_insert_eq |].
    split; [| reflexivity]. intros other Hother. by rewrite lookup_insert_ne.
Qed.

(** ** The reason given with a decision *)

Lemma reasonIn_None (actions : list RuleAction) :
  reasonIn actions = None
  <-> Forall (fun action => act_Type action <> "allow" /\ act_Type action <> "throttle")
        actions.
Proof.
  induction actions as [| action actions IH]; cbn.
  - split; [constructor | reflexivity].
  - rewrite Forall_cons.
    destruct (String.eqb_spec (act_Type action) "allow") as [Hallow | Hallow].
    { split; [discriminate | intros [[? _] _]; contradiction]. }
    destruct (String.eqb_spec (act_Type action) "throttle") as [Hthrottle | Hthrottle].
    { split; [discriminate | intros [[_ ?] _]; contradiction]. }
    rewrite IH. tauto.
Qed.

Lemma reasonIn_Some (actions : list RuleAction) (reason : string) :
  reasonIn actions = Some reason -> reason = "allowed by rule" \/ reason = "throttled by rule".
Proof.
  induction actions as [| action actions IH]; cbn; [discriminate |].
  destruct (String.eqb (act_Type action) "allow"); [intros [= <-]; by left |].
  destruct (String.eqb (act_Type action) "throttle"); [intros [= <-]; by right | exact IH].
Qed.

(** X28. The reason is "rate limited" exactly when the status is not
    allowed, whatever the rules say. For an allowed status it is "allowed"
    exactly when no matched result has an action of type [allow] or
    [throttle], and "allowed by rule" or "throttled by rule" otherwise; the
    results that are not matched never enter. *)
Theorem determineReason_cases (status : RateLimitStatus)
    (ruleResults : list RuleEvaluationResult) :
  let reason := determineReason status ruleResults in
  (reason = "rate limited" <-> st_IsAllowed status = false)
  /\ (st_IsAllowed status = true ->
      (reason = "allowed"
       <-> Forall (fun result =>
                     res_Matched result = true ->
                     Forall (fun action => act_Type action <> "allow"
                                           /\ act_Type action <> "throttle")
                       (res_Actions result)) ruleResults)
      /\ (reason = "allowed" \/ reason = "allowed by rule" \/ reason = "throttled by rule"))
  /\ reason
     = determineReason status (filter (fun result => res_Matched result = true) ruleResults).
Proof.
  cbv zeta. unfold determineReason.
  assert (Hcases : forall results,
            reasonOf results = "allowed" \/ reasonOf results = "allowed by rule"
            \/ reasonOf results = "throttled by rule").
  { induction results as [| result results IH]; cbn; [by left |].
    destruct (res_Matched result); [| exact IH].
    destruct (reasonIn (res_Actions result)) as [reason |] eqn:Hin; [| exact IH].
    right. by apply reasonIn_Some in Hin. }
  destruct (st_IsAllowed status); cbn [negb].
  - split; [| split].
    + split; [| discriminate]. intros Hreason.
      destruct (Hcases ruleResults) as [H' | [H' | H']]; rewrite H' in Hreason;
        discriminate Hreason.
    + intros _. split; [| apply Hcases].
      induction ruleResults as [| result results IH]; cbn.
      * split; [constructor | reflexivity].
      * rewrite Forall_cons. destruct (res_Matched result);
          [| rewrite IH; split; [intros ?; split; [intros [=] | done] | by intros [_ ?]]].
        destruct (reasonIn (res_Actions result)) as [reason |] eqn:Hin.
        -- split.
           ++ intros ->. by apply reasonIn_Some in Hin as [? | ?].
           ++ intros [Hnone _]. specialize (Hnone eq_refl).
              apply reasonIn_None in Hnone. congruence.
        -- apply reasonIn_None in Hin. rewrite IH. tauto.
    + induction ruleResults as [| result results IH]; [reflexivity |].
      rewrite filter_cons. cbn [reasonOf].
      destruct (decide (res_Matched result = true)) as [Hyes | Hno].
      * cbn [reasonOf]. rewrite Hyes. by rewrite IH.
      * destruct (res_Matched result); [done | exact IH].
  - split; [by split |]. split; [discriminate | reflexivity].
Qed.

(** ** Event bus *)

Lemma trySend_each (events : list Event) (ch : list Event) :
  foldl (fun ch event => trySend event ch) ch events
  = ch ++ take (Z.to_nat (channelCapacity - len ch)) events.
Proof.
  revert ch. induction events as [| event events IH]; intros ch; cbn [foldl].
  - by rewrite take_nil, app_nil_r.
  - rewrite IH. unfold trySend.
    destruct (Z.ltb_spec (len ch) channelCapacity) as [Hroom | Hfull].
    + rewrite len_app. change (len [event]) with 1.
      replace (Z.to_nat (channelCapacity - len ch))
        with (S (Z.to_nat (channelCapacity - (len ch + 1)))) by lia.
      cbn [take]. by rewrite <- app_assoc.
    + replace (Z.to_nat (channelCapacity - len ch)) with 0%nat by lia.
      by rewrite !take_0.
Qed.

Lemma publishTo_lookup (key' : string) (event : Event)
    (subscribers : gmap string (list (list Event))) (key : string) :
  publishTo key' event subscribers !! key
  = if decide (key = key') then map (trySend event) <$> subscribers !! key
    else subscribers !! key.
Proof.
  unfold publishTo. destruct (decide (key = key')) as [-> | Hne].
  - destruct (subscribers !! key') as [channels |] eqn:Hlookup.
    + by rewrite lookup_insert_eq.
    + by rewrite Hlookup.
  - destruct (subscribers !! key'); [by rewrite lookup_insert_ne |]. reflexivity.
Qed.

Lemma Publish_lookup (b : EventBus) (event : Event) (key : string) :
  EventType event <> "*" ->
  bus_subscribers (Publish b event) !! key
  = if decide (key = EventType event \/ key = "*")
    then map (trySend event) <$> bus_subscribers b !! key
    else bus_subscribers b !! key.
Proof.
  intros Hstar. unfold Publish. cbn [bus_subscribers]. rewrite !publishTo_lookup.
  destruct (decide (key = "*")) as [Hall | Hall];
    destruct (decide (key = EventType event)) as [Htype | Htype];
    destruct (decide (key = EventType event \/ key = "*")) as [Hsome | Hnone];
    try reflexivity; try congruence; tauto.
Qed.

(** X29. Publishing never blocks and never fails, and what does not fit is
    lost. When the events of one type are published one after the other
    with no subscriber receiving in between, every channel subscribed to
    that type, and every channel subscribed to all types, holds what it
    held before followed by the first of the events that fit within its
    100 places, in the order of publication; the events beyond are dropped
    for that subscriber and never delivered later. The channels of the
    other types are untouched. *)
Theorem Publish_keeps_what_fits (b : EventBus) (events : list Event)
    (eventType key : string) :
  let b' := foldl Publish b events in
  eventType <> "*" ->
  Forall (fun event => EventType event = eventType) events ->
  bus_subscribers b' !! key
  = if decide (key = eventType \/ key = "*")
    then map (fun ch => ch ++ take (Z.to_nat (channelCapacity - len ch)) events)
           <$> bus_subscribers b !! key
    else bus_subscribers b !! key.
Proof.
  cbv zeta. intros Hstar Hall. revert b.
  induction Hall as [| event events Htype Hall IH]; intros b; cbn [foldl].
  - destruct (decide _); [| reflexivity].
    destruct (bus_subscribers b !! key) as [channels |]; [| reflexivity].
    cbn. f_equal. induction channels as [| ch channels IHc]; [reflexivity |].
    cbn [map]. by rewrite take_nil, app_nil_r, <- IHc.
  - rewrite IH, Publish_lookup by (by rewrite Htype). rewrite Htype.
    destruct (decide _); [| reflexivity].
    destruct (bus_subscribers b !! key) as [channels |]; [| reflexivity].
    cbn. f_equal. rewrite map_map. apply map_ext. intros ch.
    pose proof (trySend_each (event :: events) ch) as Heach. cbn [foldl] in Heach.
    by rewrite trySend_each in Heach.
Qed.

(** ** The runtime, call by call *)

(** *** One reading and one order are instances *)

Lemma replay_one_reading (now : Time) (events : list Event) :
  forall (i : nat) (a : RateLimitAggregate),
    Readings.replay (fun _ => now) i a events = replay now a events.
Proof.
  induction events as [| event events IH]; intros i a; [reflexivity |].
  cbn [Readings.replay]. by rewrite IH.
Qed.

Lemma handleApplyRateLimit_one_reading
    (range_values : forall A : Type, gmap string A -> list A) (now : Time) (sys : System)
    (cmd : ApplyRateLimitCommand) :
  handleApplyRateLimit range_values now sys cmd
  = Readings.handleApplyRateLimit (Readings.oneReading range_values now) sys cmd.
Proof.
  unfold handleApplyRateLimit, Readings.handleApplyRateLimit, Readings.rehydrate, rehydrate.
  cbn [Readings.oneReading Readings.run_order Readings.run_replayedAt Readings.run_checkedAt
       Readings.run_idAt Readings.run_stampedAt Readings.run_windowStartAt
       Readings.run_windowEndAt].
  by rewrite replay_one_reading.
Qed.

Lemma handleApplyRateLimit_each_one_reading
    (range_values : forall A : Type, gmap string A -> list A) (later : list Time)
    (cmd : ApplyRateLimitCommand) :
  forall sys : System,
    handleApplyRateLimit_each range_values later sys cmd
    = Readings.handleApplyRateLimit_each (Readings.oneReading range_values <$> later) sys cmd.
Proof.
  induction later as [| now later IH]; intros sys; [reflexivity |].
  cbn [handleApplyRateLimit_each fmap list_fmap Readings.handleApplyRateLimit_each].
  by rewrite IH, handleApplyRateLimit_one_reading.
Qed.

Lemma evaluateEach_one_reading (now : Time) (rules : list Rule)
    (evalCtx : RuleEvaluationContext) :
  forall i : nat,
    Readings.evaluateEach (fun _ => now) i rules evalCtx = evaluateEach now rules evalCtx.
Proof.
  induction rules as [| rule rules IH]; intros i; [reflexivity |].
  cbn [Readings.evaluateEach evaluateEach]. by rewrite IH.
Qed.

Lemma CreateRule_one_reading (range_values : forall A : Type, gmap string A -> list A)
    (now : Time) (sys : System) (resource : string) (limit : Z) (window : Duration)
    (algorithm : string) :
  CreateRule range_values now sys resource limit window algorithm
  = Readings.CreateRule
      {| Readings.commandIDAt := now; Readings.commandTimeAt := now;
         Readings.ruleIDAt := now; Readings.ruleCreatedAt := now;
         Readings.ruleUpdatedAt := now |}
      sys resource limit window algorithm.
Proof. reflexivity. Qed.

Lemma RuleEngine_CreateRule_one_reading (now : Time) (rules : gmap string Rule)
    (rule : Rule) :
  RuleEngine.CreateRule now rules rule = Readings.RuleEngine.CreateRule now now now rules rule.
Proof. reflexivity. Qed.

(** *** The replay does not depend on its readings, but for [LastRequestAt] *)

Lemma replay_at_app (replayedAt : nat -> Time) (l k : list Event) :
  forall (i : nat) (a : RateLimitAggregate),
    Readings.replay replayedAt i a (l ++ k)
    = Readings.replay replayedAt (i + length l) (Readings.replay replayedAt i a l) k.
Proof.
  induction l as [| event l IH]; intros i a; cbn [app Readings.replay length].
  - by rewrite Nat.add_0_r.
  - rewrite IH. f_equal. lia.
Qed.

Lemma rehydrate_at_snoc (replayedAt : nat -> Time) (events : list Event) (event : Event)
    (clientID resource : string) :
  Readings.rehydrate replayedAt (events ++ [event]) clientID resource
  = ApplyEvent (replayedAt (length events))
      (Readings.rehydrate replayedAt events clientID resource) event.
Proof. unfold Readings.rehydrate. by rewrite replay_at_app. Qed.

Lemma replay_at_Version (replayedAt : nat -> Time) (events : list Event) :
  forall (i : nat) (a : RateLimitAggregate),
    int_min <= agg_Version a <= int_max ->
    agg_Version (Readings.replay replayedAt i a events)
    = wrap_int (agg_Version a + len events).
Proof.
  induction events as [| event events IH]; intros i a Ha.
  - cbn. rewrite Z.add_0_r. symmetry. by apply wrap_int_id.
  - cbn [Readings.replay]. rewrite IH; cbn [ApplyEvent agg_Version].
    + unfold int_add. rewrite wrap_int_add_l. f_equal. unfold len. cbn [length]. lia.
    + apply wrap_int_range.
Qed.

Lemma rehydrate_at_Version (replayedAt : nat -> Time) (events : list Event)
    (clientID resource : string) :
  len events <= int_max ->
  agg_Version (Readings.rehydrate replayedAt events clientID resource) = len events.
Proof.
  intros Hlen. unfold Readings.rehydrate.
  rewrite replay_at_Version by (cbn; unfold int_min, int_max; lia).
  cbn [NewRateLimitAggregate agg_Version]. apply wrap_int_id.
  pose proof (len_nonneg events). unfold int_min. lia.
Qed.

(** *** One command in one run *)

(** Whatever the order, the rule selected is one of the rules of the
    resource. *)
Lemma GetByResource_selects (order : gmap string RateLimitRule -> list RateLimitRule)
    (rules : gmap string RateLimitRule) (resource : string) (limit : Z)
    (window : Duration) :
  visits_each_once order ->
  rules_of_resource rules resource limit window ->
  exists rule others,
    Readings.GetByResource order rules resource = rule :: others
    /\ rl_Limit rule = limit /\ rl_Window rule = window.
Proof.
  intros Horder [(id & stored & Hstored & Hresource) Hagree].
  assert (Hmember : forall rule,
            rule ∈ Readings.GetByResource order rules resource
            <-> (exists id', rules !! id' = Some rule) /\ rl_Resource rule = resource).
  { intros rule. unfold Readings.GetByResource.
    rewrite list_elem_of_filter, (Horder rules), list_elem_of_fmap. split.
    - intros [Heq ([id' rule'] & -> & Hin)]. apply elem_of_map_to_list in Hin.
      cbn [snd] in *. split; [by exists id' |].
      by destruct (String.eqb_spec (rl_Resource rule') resource).
    - intros [[id' Hid'] Hres]. split.
      + by destruct (String.eqb_spec (rl_Resource rule) resource).
      + exists (id', rule). split; [reflexivity | by apply elem_of_map_to_list]. }
  destruct (Readings.GetByResource order rules resource) as [| rule others] eqn:Hrules.
  - exfalso. apply (elem_of_nil stored). apply Hmember. split; [by exists id | done].
  - exists rule, others. split; [reflexivity |].
    assert (Hin : rule ∈ rule :: others) by left.
    apply Hmember in Hin as [[id' Hid'] Hres]. by apply (Hagree id').
Qed.

(** The event a command appends in a run, and the state rebuilt from the
    longer stream. *)
Lemma run_step (run : Readings.Run) (sys : System) (cmd : ApplyRateLimitCommand)
    (rule : RateLimitRule) (rules : list RateLimitRule) :
  let aggregateID := apply_ClientID cmd +:+ ":" +:+ apply_Resource cmd in
  let events := GetEvents (sys_events sys) aggregateID in
  let sys' := (Readings.handleApplyRateLimit run sys cmd).2 in
  Readings.GetByResource (Readings.run_order run) (sys_rules sys) (apply_Resource cmd)
  = rule :: rules ->
  len events < int_max ->
  exists newEvent,
    GetEvents (sys_events sys') aggregateID = events ++ [newEvent]
    /\ sys_rules sys' = sys_rules sys
    /\ (forall replayedAt,
          stateAt replayedAt sys' (apply_ClientID cmd) (apply_Resource cmd)
          = applyToState (replayedAt (length events))
              (stateAt replayedAt sys (apply_ClientID cmd) (apply_Resource cmd)) newEvent)
    /\ let state :=
         stateAt (Readings.run_replayedAt run) sys (apply_ClientID cmd) (apply_Resource cmd) in
       if CanMakeRequest (Readings.run_checkedAt run)
            (Readings.rehydrate (Readings.run_replayedAt run) events
               (apply_ClientID cmd) (apply_Resource cmd)) rule
       then exists e, newEvent = EvApplied e
              /\ applied_WindowStart e
                 = Truncate (Readings.run_windowStartAt run) (rl_Window rule)
              /\ applied_WindowEnd e
                 = Add (Truncate (Readings.run_windowEndAt run) (rl_Window rule))
                       (rl_Window rule)
              /\ applied_RequestCount e = int_add (state_RequestCount state) 1
              /\ applied_RemainingQuota e
                 = int_sub (rl_Limit rule) (int_add (state_RequestCount state) 1)
       else exists e, newEvent = EvExceeded e
              /\ exceeded_RequestCount e = int_add (state_RequestCount state) 1
              /\ exceeded_BlockedUntil e = state_WindowEnd state.
Proof.
  cbv zeta. intros Hrules Hlen.
  unfold Readings.handleApplyRateLimit. rewrite Hrules.
  rewrite (rehydrate_at_Version _ _ _ _ (Z.lt_le_incl _ _ Hlen)).
  rewrite SaveEvents_ok by reflexivity. cbn [snd].
  unfold stateAt. cbn [withEvents sys_events sys_rules]. rewrite GetEvents_insert.
  destruct (CanMakeRequest (Readings.run_checkedAt run) _ rule);
    (eexists; split; [reflexivity |]; split; [reflexivity |]; split;
     [intros replayedAt; by rewrite rehydrate_at_snoc | eexists; by repeat split]).
Qed.

(** The event of an admitted command, reading by reading: the window start
    is the one reading truncated, the window end another reading truncated
    plus the window, so the window end is the window start plus the window
    exactly when both readings fall in the same window. *)
Lemma applied_event_in_a_run (run : Readings.Run) (sys : System)
    (cmd : ApplyRateLimitCommand) (rule : RateLimitRule) (rules : list RateLimitRule) :
  let aggregateID := apply_ClientID cmd +:+ ":" +:+ apply_Resource cmd in
  let events := GetEvents (sys_events sys) aggregateID in
  let sys' := (Readings.handleApplyRateLimit run sys cmd).2 in
  let prior :=
    state_RequestCount
      (stateAt (Readings.run_replayedAt run) sys (apply_ClientID cmd) (apply_Resource cmd)) in
  Readings.GetByResource (Readings.run_order run) (sys_rules sys) (apply_Resource cmd)
  = rule :: rules ->
  len events < int_max ->
  CanMakeRequest (Readings.run_checkedAt run)
    (Readings.rehydrate (Readings.run_replayedAt run) events
       (apply_ClientID cmd) (apply_Resource cmd)) rule = true ->
  exists e,
    GetEvents (sys_events sys') aggregateID = events ++ [EvApplied e]
    /\ applied_WindowStart e = Truncate (Readings.run_windowStartAt run) (rl_Window rule)
    /\ applied_WindowEnd e
       = Add (Truncate (Readings.run_windowEndAt run) (rl_Window rule)) (rl_Window rule)
    /\ (applied_WindowEnd e = Add (applied_WindowStart e) (rl_Window rule)
        <-> Truncate (Readings.run_windowEndAt run) (rl_Window rule)
            = Truncate (Readings.run_windowStartAt run) (rl_Window rule))
    /\ applied_RequestCount e = int_add prior 1
    /\ applied_RemainingQuota e = int_sub (rl_Limit rule) (int_add prior 1)
    /\ (int_min <= prior < int_max ->
        int_min <= rl_Limit rule - (prior + 1) <= int_max ->
        applied_RequestCount e = prior + 1
        /\ applied_RemainingQuota e = rl_Limit rule - (prior + 1)).
Proof.
  cbv zeta. intros Hrules Hlen Hcan.
  destruct (run_step run sys cmd rule rules Hrules Hlen)
    as (newEvent & Hstream & _ & _ & Hshape).
  cbv zeta in Hshape. rewrite Hcan in Hshape.
  destruct Hshape as (e & -> & Hstart & Hend & Hcount & Hquota).
  exists e. split; [exact Hstream |]. split; [exact Hstart |]. split; [exact Hend |].
  split; [| split; [exact Hcount |]; split; [exact Hquota |]].
  - rewrite Hstart, Hend. unfold Add. split; intros Heq; lia.
  - intros Hprior Hrange. rewrite Hcount, Hquota. unfold int_sub, int_add.
    rewrite (wrap_int_id (_ + 1)) by int_lia. split; [reflexivity |].
    by apply wrap_int_id.
Qed.

(** *** Admission within a window and after it *)

Lemma Truncate_window (now : Time) (window : Duration) :
  0 < window -> now < Add (Truncate now window) window.
Proof.
  intros Hwindow. unfold Truncate, Add.
  destruct (Z.leb_spec window 0); [lia |].
  pose proof (Z.mod_pos_bound now window Hwindow). lia.
Qed.

(** The commands that arrive in the window of an aggregate that has counted
    [k] commands there: admitted while the count is below the limit, refused
    from then on, whichever rule of the resource each run selects. *)
Lemma window_runs (windowStart : Time) (cmd : ApplyRateLimitCommand) (limit : Z)
    (window : Duration) (runs : list Readings.Run) :
  let aggregateID := apply_ClientID cmd +:+ ":" +:+ apply_Resource cmd in
  let windowEnd := Add windowStart window in
  forall (k : Z) (sys : System),
  let sys' := Readings.handleApplyRateLimit_each runs sys cmd in
  rules_of_resource (sys_rules sys) (apply_Resource cmd) limit window ->
  limit <= int_max -> 0 < window ->
  0 <= k ->
  (forall replayedAt, inWindow windowEnd limit k
                        (stateAt replayedAt sys (apply_ClientID cmd) (apply_Resource cmd))) ->
  Forall (inside windowStart window) runs ->
  len (GetEvents (sys_events sys) aggregateID) + len runs <= int_max ->
  k + len runs <= int_max ->
  exists new,
    GetEvents (sys_events sys') aggregateID = GetEvents (sys_events sys) aggregateID ++ new
    /\ length new = length runs
    /\ (forall (i : nat) event, new !! i = Some event ->
          windowEvent windowStart windowEnd limit (k + Z.of_nat i) event)
    /\ sys_rules sys' = sys_rules sys
    /\ forall replayedAt, inWindow windowEnd limit (k + len runs)
                            (stateAt replayedAt sys' (apply_ClientID cmd) (apply_Resource cmd)).
Proof.
  cbv zeta.
  induction runs as [| run runs IH];
    intros k sys Hrules Hlimit Hwindow Hk Hinv Hruns Hlen Hmax.
  - exists []. cbn [Readings.handleApplyRateLimit_each]. rewrite app_nil_r.
    split; [reflexivity |]. split; [reflexivity |]. split; [| split; [reflexivity |]].
    + intros i event Hi. by rewrite lookup_nil in Hi.
    + intros replayedAt. change (len []) with 0. rewrite Z.add_0_r. apply Hinv.
  - pose proof (len_nonneg runs) as Hnn.
    pose proof (len_nonneg (GetEvents (sys_events sys)
                  (apply_ClientID cmd +:+ ":" +:+ apply_Resource cmd))) as Hnn'.
    assert (Hcons : len (run :: runs) = len runs + 1).
    { unfold len. cbn [length]. lia. }
    rewrite Hcons in *.
    apply Forall_cons in Hruns as [(Horder & Hzero & Hchecked & Hstart & Hend) Hruns].
    destruct (GetByResource_selects _ _ _ _ _ Horder Hrules)
      as (rule & others & Hselected & Hrlimit & Hrwindow).
    destruct (run_step run sys cmd rule others Hselected ltac:(lia))
      as (newEvent & Hstream & Hsame & Hstate & Hshape).
    cbv zeta in Hshape. cbn [Readings.handleApplyRateLimit_each].
    set (sys1 := (Readings.handleApplyRateLimit run sys cmd).2) in *.
    destruct (Hinv (Readings.run_replayedAt run))
      as (Hcount & Hwend & Hquota & Hfree & Huntil).
    assert (Hnow : Readings.run_checkedAt run < Add windowStart window).
    { rewrite <- Hchecked. by apply Truncate_window. }
    assert (Hnew : windowEvent windowStart (Add windowStart window) limit k newEvent).
    { unfold windowEvent. rewrite Hcount, Hwend, Hrlimit, Hrwindow, Hstart, Hend in Hshape.
      unfold int_add, int_sub in Hshape.
      rewrite (wrap_int_id (k + 1)) in Hshape by int_lia.
      destruct (Z.ltb_spec k limit) as [Hlt | Hge].
      - assert (Hcan : CanMakeRequest (Readings.run_checkedAt run)
                         (Readings.rehydrate (Readings.run_replayedAt run)
                            (GetEvents (sys_events sys)
                               (apply_ClientID cmd +:+ ":" +:+ apply_Resource cmd))
                            (apply_ClientID cmd) (apply_Resource cmd)) rule = true).
        { unfold CanMakeRequest.
          fold (stateAt (Readings.run_replayedAt run) sys (apply_ClientID cmd)
                  (apply_Resource cmd)).
          rewrite Hfree by lia. cbn [andb]. rewrite Hquota.
          destruct (After _ _); [reflexivity |]. apply Z.ltb_lt. lia. }
        rewrite Hcan in Hshape. destruct Hshape as (e & -> & Hs & He & Hc & Hq).
        exists e. rewrite wrap_int_id in Hq by int_lia. by repeat split.
      - assert (Hcan : CanMakeRequest (Readings.run_checkedAt run)
                         (Readings.rehydrate (Readings.run_replayedAt run)
                            (GetEvents (sys_events sys)
                               (apply_ClientID cmd +:+ ":" +:+ apply_Resource cmd))
                            (apply_ClientID cmd) (apply_Resource cmd)) rule = false).
        { apply CanMakeRequest_false_iff. right.
          fold (stateAt (Readings.run_replayedAt run) sys (apply_ClientID cmd)
                  (apply_Resource cmd)).
          rewrite Hwend, Hquota. lia. }
        rewrite Hcan in Hshape. destruct Hshape as (e & -> & Hc & Hu).
        exists e. by repeat split. }
    destruct (IH (k + 1) sys1) as (new & Hnewstream & Hnewlen & Hall & Hrules' & Hfinal).
    + by rewrite Hsame.
    + exact Hlimit.
    + exact Hwindow.
    + lia.
    + intros replayedAt. rewrite Hstate.
      destruct (Hinv replayedAt) as (Hcount' & Hend' & Hquota' & Hfree' & Huntil').
      unfold windowEvent in Hnew. unfold inWindow.
      destruct (Z.ltb_spec k limit) as [Hlt | Hge];
        destruct Hnew as (e & -> & Hfields); cbn [applyToState state_RequestCount
          state_WindowEnd state_RemainingQuota state_IsBlocked state_BlockedUntil].
      * destruct Hfields as (-> & -> & _ & ->).
        split; [reflexivity |]. split; [reflexivity |]. split; [lia |].
        split; [intros _; apply Hfree'; lia |]. intros Hb. rewrite Hfree' in Hb by lia. done.
      * destruct Hfields as (-> & ->).
        split; [reflexivity |]. split; [exact Hend' |]. split; [rewrite Hquota'; lia |].
        split; [lia | reflexivity].
    + exact Hruns.
    + rewrite Hstream, len_app. change (len [newEvent]) with 1. lia.
    + lia.
    + exists (newEvent :: new). rewrite Hnewstream, Hstream, <- app_assoc.
      split; [reflexivity |]. split; [cbn; lia |]. split; [| split].
      * intros [| i] event Hi.
        -- injection Hi as <-. by rewrite Z.add_0_r.
        -- cbn in Hi. specialize (Hall i event Hi).
           by replace (k + Z.of_nat (S i)) with (k + 1 + Z.of_nat i) by lia.
      * by rewrite Hrules'.
      * intros replayedAt. specialize (Hfinal replayedAt).
        by replace (k + (len runs + 1)) with (k + 1 + len runs) by lia.
Qed.

(** The first command of an aggregate without events is admitted. *)
Lemma first_run_admitted (windowStart : Time) (run : Readings.Run) (sys : System)
    (cmd : ApplyRateLimitCommand) (limit : Z) (window : Duration) :
  let aggregateID := apply_ClientID cmd +:+ ":" +:+ apply_Resource cmd in
  let windowEnd := Add windowStart window in
  let sys' := (Readings.handleApplyRateLimit run sys cmd).2 in
  rules_of_resource (sys_rules sys) (apply_Resource cmd) limit window ->
  1 <= limit <= int_max ->
  GetEvents (sys_events sys) aggregateID = [] ->
  inside windowStart window run ->
  exists event,
    GetEvents (sys_events sys') aggregateID = [event]
    /\ windowEvent windowStart windowEnd limit 0 event
    /\ sys_rules sys' = sys_rules sys
    /\ forall replayedAt, inWindow windowEnd limit 1
                            (stateAt replayedAt sys' (apply_ClientID cmd) (apply_Resource cmd)).
Proof.
  cbv zeta. intros Hrules Hlimit Hfresh (Horder & Hzero & Hchecked & Hstart & Hend).
  destruct (GetByResource_selects _ _ _ _ _ Horder Hrules)
    as (rule & others & Hselected & Hrlimit & Hrwindow).
  destruct (run_step run sys cmd rule others Hselected)
    as (newEvent & Hstream & Hsame & Hstate & Hshape).
  { rewrite Hfresh. change (len []) with 0. int_lia. }
  cbv zeta in Hshape. unfold stateAt in Hshape, Hstate. rewrite Hfresh in *.
  assert (Hcan : CanMakeRequest (Readings.run_checkedAt run)
                   (Readings.rehydrate (Readings.run_replayedAt run) []
                      (apply_ClientID cmd) (apply_Resource cmd)) rule = true).
  { unfold CanMakeRequest, After. cbn.
    destruct (Z.ltb_spec zeroTime (Readings.run_checkedAt run)); [reflexivity | lia]. }
  rewrite Hcan in Hshape. destruct Hshape as (e & -> & Hs & He & Hc & Hq).
  assert (Hzero' : state_RequestCount
                     (agg_State (Readings.rehydrate (Readings.run_replayedAt run) []
                                   (apply_ClientID cmd) (apply_Resource cmd)))
                   = 0) by reflexivity.
  assert (Hone : int_add 0 1 = 1) by reflexivity.
  rewrite Hzero', Hone in Hc, Hq. rewrite Hrlimit in Hq. rewrite Hrwindow, Hstart in Hs.
  rewrite Hrwindow, Hend in He.
  unfold int_sub in Hq. rewrite wrap_int_id in Hq by int_lia.
  exists (EvApplied e). split; [exact Hstream |]. split; [| split; [exact Hsame |]].
  - unfold windowEvent. destruct (Z.ltb_spec 0 limit); [| lia].
    exists e. rewrite Hc, Hq. by repeat split.
  - intros replayedAt. unfold stateAt. rewrite Hstate. cbn. unfold inWindow. cbn.
    rewrite Hc, He, Hq. repeat split; try done; lia.
Qed.

(** While no quota remains and the window is open, every command is
    refused, whichever rule its run selects, and the refusal keeps the
    aggregate in that state. *)
Lemma denied_runs (windowEnd : Time) (cmd : ApplyRateLimitCommand) (limit : Z)
    (window : Duration) (runs : list Readings.Run) :
  let aggregateID := apply_ClientID cmd +:+ ":" +:+ apply_Resource cmd in
  forall sys : System,
  rules_of_resource (sys_rules sys) (apply_Resource cmd) limit window ->
  (forall replayedAt,
     let state := stateAt replayedAt sys (apply_ClientID cmd) (apply_Resource cmd) in
     state_RemainingQuota state <= 0 /\ state_WindowEnd state = windowEnd) ->
  Forall (fun run => visits_each_once (Readings.run_order run)
                     /\ Readings.run_checkedAt run <= windowEnd) runs ->
  len (GetEvents (sys_events sys) aggregateID) + len runs <= int_max ->
  exists es,
    GetEvents (sys_events (Readings.handleApplyRateLimit_each runs sys cmd)) aggregateID
    = GetEvents (sys_events sys) aggregateID ++ map EvExceeded es
    /\ length es = length runs.
Proof.
  cbv zeta. induction runs as [| run runs IH]; intros sys Hrules Hinv Hruns Hlen.
  - exists []. cbn. by rewrite app_nil_r.
  - apply Forall_cons in Hruns as [[Horder Hnow] Hruns].
    pose proof (len_nonneg runs) as Hnn.
    assert (Hcons : len (run :: runs) = len runs + 1).
    { unfold len. cbn [length]. lia. }
    rewrite Hcons in Hlen.
    destruct (GetByResource_selects _ _ _ _ _ Horder Hrules)
      as (rule & others & Hselected & _ & _).
    destruct (run_step run sys cmd rule others Hselected ltac:(lia))
      as (newEvent & Hstream & Hsame & Hstate & Hshape).
    cbv zeta in Hshape. cbn [Readings.handleApplyRateLimit_each].
    set (sys1 := (Readings.handleApplyRateLimit run sys cmd).2) in *.
    destruct (Hinv (Readings.run_replayedAt run)) as [Hquota Hend].
    assert (Hcan : CanMakeRequest (Readings.run_checkedAt run)
                     (Readings.rehydrate (Readings.run_replayedAt run)
                        (GetEvents (sys_events sys)
                           (apply_ClientID cmd +:+ ":" +:+ apply_Resource cmd))
                        (apply_ClientID cmd) (apply_Resource cmd)) rule = false).
    { apply CanMakeRequest_false_iff. right.
      fold (stateAt (Readings.run_replayedAt run) sys (apply_ClientID cmd)
              (apply_Resource cmd)).
      split; [lia | assumption]. }
    rewrite Hcan in Hshape. destruct Hshape as (e & -> & _).
    destruct (IH sys1) as (es & Hes & Hcount).
    + by rewrite Hsame.
    + intros replayedAt. cbv zeta. rewrite Hstate. cbn. apply (Hinv replayedAt).
    + exact Hruns.
    + rewrite Hstream, len_app. change (len [EvExceeded e]) with 1. lia.
    + exists (e :: es). split; [| cbn; lia].
      rewrite Hes, Hstream, <- app_assoc. reflexivity.
Qed.

(** X14. A window under a limit of at least 1, whatever the runtime does.
    Let every rule the repository holds for the resource have the same
    limit and the same window (one rule, or several that agree), let the
    client have no events, and let every command be handled in a run of its
    own: its own order of iteration over the rules, and its own readings of
    the clock, of which those of the admission test, of the window start and
    of the window end fall in one window of the rules. Then the handler
    admits the first [limit] commands and refuses all the others: the
    [i]-th command (from 0) appends a [RateLimitApplied] event with request
    count [i + 1] and remaining quota [limit - (i + 1)] in that window when
    [i < limit], and a [RateLimitExceeded] event, blocked until the end of
    the window, otherwise. *)
Theorem window_admits_limit_requests (windowStart : Time) (sys : System)
    (cmd : ApplyRateLimitCommand) (limit : Z) (window : Duration)
    (runs : list Readings.Run) :
  let aggregateID := apply_ClientID cmd +:+ ":" +:+ apply_Resource cmd in
  let windowEnd := Add windowStart window in
  let sys' := Readings.handleApplyRateLimit_each runs sys cmd in
  rules_of_resource (sys_rules sys) (apply_Resource cmd) limit window ->
  1 <= limit <= int_max ->
  0 < window ->
  GetEvents (sys_events sys) aggregateID = [] ->
  Forall (inside windowStart window) runs ->
  len runs <= int_max ->
  length (GetEvents (sys_events sys') aggregateID) = length runs
  /\ forall (i : nat) event,
       GetEvents (sys_events sys') aggregateID !! i = Some event ->
       windowEvent windowStart windowEnd limit (Z.of_nat i) event.
Proof.
  cbv zeta. intros Hrules Hlimit Hwindow Hfresh Hruns Hlen.
  destruct runs as [| run runs].
  { cbn [Readings.handleApplyRateLimit_each]. rewrite Hfresh. split; [reflexivity |].
    intros i event Hi. by rewrite lookup_nil in Hi. }
  apply Forall_cons in Hruns as [Hrun Hruns].
  assert (Hcons : len (run :: runs) = len runs + 1).
  { unfold len. cbn [length]. lia. }
  rewrite Hcons in Hlen. pose proof (len_nonneg runs) as Hnn.
  destruct (first_run_admitted windowStart run sys cmd limit window Hrules Hlimit Hfresh Hrun)
    as (first & Hstream & Hfirst & Hsame & Hinv).
  cbn [Readings.handleApplyRateLimit_each].
  destruct (window_runs windowStart cmd limit window runs 1
              (Readings.handleApplyRateLimit run sys cmd).2)
    as (new & Hnewstream & Hnewlen & Hall & _ & _).
  - by rewrite Hsame.
  - lia.
  - exact Hwindow.
  - lia.
  - exact Hinv.
  - exact Hruns.
  - rewrite Hstream. change (len [first]) with 1. lia.
  - lia.
  - rewrite Hnewstream, Hstream. split; [cbn; lia |].
    intros [| i] event Hi.
    + injection Hi as <-. exact Hfirst.
    + cbn in Hi. specialize (Hall i event Hi).
      by replace (Z.of_nat (S i)) with (1 + Z.of_nat i) by lia.
Qed.

(** X15. The next window does not start from zero, whatever the runtime
    does. After the commands of a first window (as in X14), a command whose
    admission test reads the clock after the end of that window is
    admitted, blocked or not; its window start and its window end are taken
    from two further readings of the clock, each truncated to the window;
    its request count is the count of all commands so far plus one and its
    remaining quota is the limit minus that count. So when the commands so
    far have reached the limit, the remaining quota is not positive, and
    every other command tested up to the window end written in that event
    is refused: one request is admitted in that window, not [limit]. *)
Theorem next_window_keeps_the_count (windowStart : Time) (sys : System)
    (cmd : ApplyRateLimitCommand) (limit : Z) (window : Duration)
    (first : list Readings.Run) (next : Readings.Run) (rest : list Readings.Run) :
  let aggregateID := apply_ClientID cmd +:+ ":" +:+ apply_Resource cmd in
  let windowEnd := Add windowStart window in
  let nextStart := Truncate (Readings.run_windowStartAt next) window in
  let nextEnd := Add (Truncate (Readings.run_windowEndAt next) window) window in
  let sys1 := Readings.handleApplyRateLimit_each first sys cmd in
  let sys2 := (Readings.handleApplyRateLimit next sys1 cmd).2 in
  let sys3 := Readings.handleApplyRateLimit_each rest sys2 cmd in
  rules_of_resource (sys_rules sys) (apply_Resource cmd) limit window ->
  1 <= limit <= int_max ->
  0 < window ->
  GetEvents (sys_events sys) aggregateID = [] ->
  first <> [] ->
  Forall (inside windowStart window) first ->
  visits_each_once (Readings.run_order next) ->
  windowEnd < Readings.run_checkedAt next ->
  Forall (fun run => visits_each_once (Readings.run_order run)
                     /\ Readings.run_checkedAt run <= nextEnd) rest ->
  len first + 1 + len rest <= int_max ->
  exists e,
    GetEvents (sys_events sys2) aggregateID
    = GetEvents (sys_events sys1) aggregateID ++ [EvApplied e]
    /\ applied_RequestCount e = len first + 1
    /\ applied_RemainingQuota e = limit - (len first + 1)
    /\ applied_WindowStart e = nextStart
    /\ applied_WindowEnd e = nextEnd
    /\ (limit <= len first + 1 ->
        exists es,
          GetEvents (sys_events sys3) aggregateID
          = GetEvents (sys_events sys2) aggregateID ++ map EvExceeded es
          /\ length es = length rest).
Proof.
  cbv zeta.
  intros Hrules Hlimit Hwindow Hfresh Hne Hfirst Hnextorder Hnext Hrest Hlen.
  destruct first as [| run first]; [done |]. clear Hne.
  apply Forall_cons in Hfirst as [Hrun Hfirst].
  assert (Hcons : len (run :: first) = len first + 1).
  { unfold len. cbn [length]. lia. }
  rewrite Hcons in *. pose proof (len_nonneg first) as Hnn.
  pose proof (len_nonneg rest) as Hnn'.
  destruct (first_run_admitted windowStart run sys cmd limit window Hrules Hlimit Hfresh Hrun)
    as (ev & Hstream & _ & Hsame & Hinv).
  cbn [Readings.handleApplyRateLimit_each].
  destruct (window_runs windowStart cmd limit window first 1
              (Readings.handleApplyRateLimit run sys cmd).2)
    as (new & Hnewstream & Hnewlen & _ & Hrules1 & Hinv1).
  { by rewrite Hsame. } { lia. } { exact Hwindow. } { lia. } { exact Hinv. }
  { exact Hfirst. }
  { rewrite Hstream. change (len [ev]) with 1. lia. } { lia. }
  set (sys1 := Readings.handleApplyRateLimit_each first
                 (Readings.handleApplyRateLimit run sys cmd).2 cmd) in *.
  assert (Hrules1' : rules_of_resource (sys_rules sys1) (apply_Resource cmd) limit window)
    by (by rewrite Hrules1, Hsame).
  assert (Hlen1 : len (GetEvents (sys_events sys1)
                         (apply_ClientID cmd +:+ ":" +:+ apply_Resource cmd))
                  = len first + 1).
  { rewrite Hnewstream, Hstream. unfold len. rewrite length_app, Hnewlen. cbn. lia. }
  destruct (GetByResource_selects _ _ _ _ _ Hnextorder Hrules1')
    as (rule & others & Hselected & Hrlimit & Hrwindow).
  destruct (run_step next sys1 cmd rule others Hselected ltac:(lia))
    as (newEvent & Hstream2 & Hsame2 & Hstate2 & Hshape).
  cbv zeta in Hshape.
  set (sys2 := (Readings.handleApplyRateLimit next sys1 cmd).2) in *.
  destruct (Hinv1 (Readings.run_replayedAt next)) as (Hcount & Hend & Hquota & Hfree & Huntil).
  assert (Hcan : CanMakeRequest (Readings.run_checkedAt next)
                   (Readings.rehydrate (Readings.run_replayedAt next)
                      (GetEvents (sys_events sys1)
                         (apply_ClientID cmd +:+ ":" +:+ apply_Resource cmd))
                      (apply_ClientID cmd) (apply_Resource cmd)) rule = true).
  { unfold CanMakeRequest, Before, After.
    fold (stateAt (Readings.run_replayedAt next) sys1 (apply_ClientID cmd)
            (apply_Resource cmd)).
    rewrite Hend.
    destruct (state_IsBlocked _) eqn:Hblocked; cbn [andb].
    - rewrite Huntil by reflexivity.
      destruct (Z.ltb_spec (Readings.run_checkedAt next) (Add windowStart window)); [lia |].
      destruct (Z.ltb_spec (Add windowStart window) (Readings.run_checkedAt next));
        [reflexivity | lia].
    - destruct (Z.ltb_spec (Add windowStart window) (Readings.run_checkedAt next));
        [reflexivity | lia]. }
  rewrite Hcan in Hshape. destruct Hshape as (e & -> & Hs & He & Hc & Hq).
  rewrite Hcount in Hc, Hq. rewrite Hrlimit in Hq. rewrite Hrwindow in Hs, He.
  unfold int_add, int_sub in Hc, Hq.
  rewrite (wrap_int_id (1 + len first + 1)) in Hc, Hq by int_lia.
  rewrite wrap_int_id in Hq by int_lia.
  exists e. split; [exact Hstream2 |].
  split; [lia |]. split; [lia |]. split; [exact Hs |]. split; [exact He |].
  intros Hreached.
  destruct (denied_runs
              (Add (Truncate (Readings.run_windowEndAt next) window) window)
              cmd limit window rest sys2)
    as (es & Hes & Hcount').
  - by rewrite Hsame2.
  - intros replayedAt. cbv zeta. rewrite Hstate2.
    cbn [applyToState state_RemainingQuota state_WindowEnd].
    rewrite Hq, He. split; [lia | reflexivity].
  - exact Hrest.
  - rewrite Hstream2, len_app, Hlen1. change (len [EvApplied e]) with 1. lia.
  - exists es. by split.
Qed.

(** * The further properties on concrete inputs *)

(** The hypothesis of [starts_with_ends_with_iff] holds for the user agent
    of the bot request, which starts with "evil" and ends with "1.0". *)
Lemma starts_with_ends_with_iff_witness :
  fieldValueOf "user_agent" Scenario.bot_context = Some (VString "evil-bot/1.0")
  /\ evaluateCondition Scenario.deny_bots
       (condition "user_agent" "starts_with" (VString "evil")) Scenario.bot_context
     = Some true
  /\ evaluateCondition Scenario.deny_bots
       (condition "user_agent" "ends_with" (VString "1.0")) Scenario.bot_context
     = Some true.
Proof.
  split; [reflexivity |]. split.
  - apply (starts_with_ends_with_iff Scenario.deny_bots Scenario.bot_context
             "user_agent" "evil-bot/1.0" "evil" eq_refl).
    by exists "-bot/1.0".
  - apply (starts_with_ends_with_iff Scenario.deny_bots Scenario.bot_context
             "user_agent" "evil-bot/1.0" "1.0" eq_refl).
    by exists "evil-bot/".
Defined.

(** The hypotheses of [EvaluateRules_one_result_per_enabled_rule] hold for
    the bot request under the rules of the scenario, each rule evaluated one
    second after the one before it: three results, the second stamped with
    the second reading. *)
Lemma EvaluateRules_one_result_per_enabled_rule_witness :
  range_visits_each_once range_in_key_order
  /\ sort_permutes stable_sort_by_priority
  /\ Readings.EvaluateRules range_in_key_order stable_sort_by_priority Scenario.clock
       (sys_engineRules Scenario.system) Scenario.bot_context
     = Some Examples.bot_results
  /\ res_RuleID <$> Examples.bot_results
       ≡ₚ rule_ID <$> filter (fun rule => rule_Enabled rule = true)
                        (map_to_list (sys_engineRules Scenario.system)).*2
  /\ exists result,
       Examples.bot_results !! 1%nat = Some result
       /\ res_EvaluatedAt result = Scenario.clock 1.
Proof.
  assert (Heval : Readings.EvaluateRules range_in_key_order stable_sort_by_priority
                    Scenario.clock (sys_engineRules Scenario.system) Scenario.bot_context
                  = Some Examples.bot_results) by (vm_compute; reflexivity).
  split; [exact range_in_key_order_visits |]. split; [exact stable_sort_permutes |].
  split; [exact Heval |].
  destruct (EvaluateRules_one_result_per_enabled_rule range_in_key_order
              stable_sort_by_priority Scenario.clock (sys_engineRules Scenario.system)
              Scenario.bot_context Examples.bot_results
              range_in_key_order_visits stable_sort_permutes Heval)
    as [Hids Hat].
  split; [exact Hids |].
  eexists. split; [vm_compute; reflexivity |]. apply (Hat 1%nat). vm_compute. reflexivity.
Defined.

(** The hypotheses of [EvaluateRulesByType_results] hold for the bot request
    and the rules of type [blacklist]: one result, that of the rule against
    bots. *)
Lemma EvaluateRulesByType_results_witness :
  range_visits_each_once range_in_key_order
  /\ sort_permutes stable_sort_by_priority
  /\ RuleEngine.EvaluateRulesByType range_in_key_order stable_sort_by_priority
       (Scenario.clock 0) (sys_engineRules Scenario.system) "blacklist"
       Scenario.bot_context
     = Some [Scenario.bot_denied]
  /\ res_RuleID <$> [Scenario.bot_denied]
       ≡ₚ rule_ID <$> filter (fun rule => rule_Type rule = "blacklist"
                                          /\ rule_Enabled rule = true)
                        (map_to_list (sys_engineRules Scenario.system)).*2.
Proof.
  assert (Heval : RuleEngine.EvaluateRulesByType range_in_key_order stable_sort_by_priority
                    (Scenario.clock 0) (sys_engineRules Scenario.system) "blacklist"
                    Scenario.bot_context
                  = Some [Scenario.bot_denied]) by (vm_compute; reflexivity).
  split; [exact range_in_key_order_visits |]. split; [exact stable_sort_permutes |].
  split; [exact Heval |].
  exact (EvaluateRulesByType_results range_in_key_order stable_sort_by_priority
           (Scenario.clock 0) (sys_engineRules Scenario.system) "blacklist"
           Scenario.bot_context [Scenario.bot_denied]
           range_in_key_order_visits stable_sort_permutes Heval).
Defined.

(** The hypothesis of [GetRulesByTags_iff] holds for the order of the keys;
    the rule that blocks 8.8.8.8 is found by the tag [ip-based], and the
    rule against bots, which has no tag, is not. *)
Lemma GetRulesByTags_iff_witness :
  range_visits_each_once range_in_key_order
  /\ (exists rule,
        rule_Tags rule = ["ip-based"; "auto-generated"]
        /\ rule ∈ RuleRepository.GetRulesByTags range_in_key_order
                    (sys_engineRules Examples.ip_system) ["ip-based"])
  /\ (Scenario.deny_bots
      ∉ RuleRepository.GetRulesByTags range_in_key_order
          (sys_engineRules Examples.ip_system) ["ip-based"]).
Proof.
  split; [exact range_in_key_order_visits |]. split.
  - assert (Hstored : exists rule,
              sys_engineRules Examples.ip_system
                !! sprintf_d "ip-rule-" (UnixNano Scenario.t0) = Some rule
              /\ rule_Tags rule = ["ip-based"; "auto-generated"]
              /\ rule_Enabled rule = true).
    { eexists. split; [vm_compute; reflexivity |]. split; reflexivity. }
    destruct Hstored as (rule & Hlookup & Htags & Henabled).
    exists rule. split; [exact Htags |].
    apply (GetRulesByTags_iff range_in_key_order (sys_engineRules Examples.ip_system)
             ["ip-based"] rule range_in_key_order_visits).
    split; [by eexists |]. split; [exact Henabled |].
    exists "ip-based". rewrite Htags. split; left.
  - intros Hin.
    apply (GetRulesByTags_iff range_in_key_order (sys_engineRules Examples.ip_system)
             ["ip-based"] Scenario.deny_bots range_in_key_order_visits)
      in Hin as (_ & _ & tag & Htag & _).
    by apply elem_of_nil in Htag.
Defined.

(** The hypotheses of [request_count_counts_every_command] hold for three
    searches of [u], two in one minute and one in the next: the third event
    has version 3 and request count 3. *)
Lemma request_count_counts_every_command_witness :
  let later := [Scenario.clock 1; Scenario.clock 2; Scenario.clock 61] in
  let sys' := handleApplyRateLimit_each range_in_key_order later Examples.system
                Examples.search in
  GetByResource range_in_key_order (sys_rules Examples.system) "search"
  = [Examples.two_per_minute]
  /\ GetEvents (sys_events Examples.system) "u:search" = []
  /\ len later <= int_max
  /\ length (GetEvents (sys_events sys') "u:search") = 3%nat
  /\ forall now, state_RequestCount (stateOf now sys' "u" "search") = 3.
Proof.
  cbv zeta.
  assert (Hrules : GetByResource range_in_key_order (sys_rules Examples.system) "search"
                   = [Examples.two_per_minute]) by (vm_compute; reflexivity).
  assert (Hfresh : GetEvents (sys_events Examples.system) "u:search" = [])
    by (vm_compute; reflexivity).
  assert (Hlen : len [Scenario.clock 1; Scenario.clock 2; Scenario.clock 61] <= int_max)
    by (vm_compute; discriminate).
  split; [exact Hrules |]. split; [exact Hfresh |]. split; [exact Hlen |].
  destruct (request_count_counts_every_command range_in_key_order Examples.system
              Examples.search Examples.two_per_minute []
              [Scenario.clock 1; Scenario.clock 2; Scenario.clock 61] Hrules Hfresh Hlen)
    as (Hlength & _ & Hcount).
  split; [exact Hlength | exact Hcount].
Defined.

(** The hypotheses of [handleApplyRateLimit_fails_iff_no_rule] hold in the
    scenario: a command for the resource [api], which has no rule, fails
    and stores nothing. *)
Lemma handleApplyRateLimit_fails_iff_no_rule_witness :
  let run := handleApplyRateLimit range_in_key_order (Scenario.clock 1) Scenario.system
               (Scenario.apply_command "api" (Scenario.clock 1)) in
  range_visits_each_once range_in_key_order
  /\ len (GetEvents (sys_events Scenario.system) "u:api") <= int_max
  /\ run.1 = Some (ErrNoRulesForResource "api")
  /\ run.2 = Scenario.system.
Proof.
  cbv zeta.
  assert (Hlen : len (GetEvents (sys_events Scenario.system) "u:api") <= int_max)
    by (vm_compute; discriminate).
  split; [exact range_in_key_order_visits |]. split; [exact Hlen |].
  destruct (handleApplyRateLimit_fails_iff_no_rule range_in_key_order (Scenario.clock 1)
              Scenario.system (Scenario.apply_command "api" (Scenario.clock 1))
              range_in_key_order_visits Hlen)
    as (_ & Hfails & _).
  apply Hfails. vm_compute. discriminate.
Defined.

(** The hypothesis of [CheckRequestWithRules_decision] holds for a login of
    [u] in the scenario: the rule for logins installs a dynamic rule, the
    command is handled, and the answer is the "allowed" of a read model
    that holds no status. *)
Lemma CheckRequestWithRules_decision_witness :
  exists decision sys',
    CheckRequestWithRules range_in_key_order stable_sort_by_priority Atoi_digits
      ParseDuration_minutes Scenario.clock Scenario.system
      "u" "login" "8.8.8.8" "Mozilla" ∅ ∅
    = Some (Ok decision, sys')
    /\ sys_readModel sys' = sys_readModel Scenario.system
    /\ sys_engineRules sys' = sys_engineRules Scenario.system
    /\ rc_Allowed decision = true.
Proof.
  eexists. eexists. split; [vm_compute; reflexivity |].
  match goal with
  | |- sys_readModel ?s = _ /\ _ /\ rc_Allowed ?d = _ =>
      destruct (CheckRequestWithRules_decision range_in_key_order stable_sort_by_priority
                  Atoi_digits ParseDuration_minutes Scenario.clock Scenario.system
                  "u" "login" "8.8.8.8" "Mozilla" ∅ ∅ (Ok d) s)
        as (Hmodel & Hengine & _)
  end.
  - vm_compute. reflexivity.
  - split; [exact Hmodel |]. split; [exact Hengine |]. reflexivity.
Defined.

(** The hypotheses of [CreateIPBasedRule_blocks_the_addresses] hold in the
    scenario once 8.8.8.8 is blocked: a request from there is refused. *)
Lemma CreateIPBasedRule_blocks_the_addresses_witness :
  range_visits_each_once range_in_key_order
  /\ sort_permutes stable_sort_by_priority
  /\ "8.8.8.8" ∈ ["8.8.8.8"]
  /\ (exists ruleResults,
        EvaluateRules range_in_key_order stable_sort_by_priority (Scenario.clock 0)
          (sys_engineRules Examples.ip_system) Examples.ip_context
        = Some ruleResults)
  /\ exists decision,
       CheckRequestWithRules range_in_key_order stable_sort_by_priority Atoi_digits
         ParseDuration_minutes Scenario.clock Examples.ip_system
         "u" "api" "8.8.8.8" "Mozilla" ∅ ∅
       = Some (Ok decision, Examples.ip_system)
       /\ rc_Allowed decision = false
       /\ rc_Reason decision = "blocked by rule".
Proof.
  assert (Hlisted : "8.8.8.8" ∈ ["8.8.8.8"]) by left.
  assert (Heval : exists ruleResults,
            EvaluateRules range_in_key_order stable_sort_by_priority (Scenario.clock 0)
              (sys_engineRules Examples.ip_system) Examples.ip_context
            = Some ruleResults) by (eexists; vm_compute; reflexivity).
  split; [exact range_in_key_order_visits |]. split; [exact stable_sort_permutes |].
  split; [exact Hlisted |]. split; [exact Heval |].
  destruct Heval as [ruleResults Heval].
  exact (CreateIPBasedRule_blocks_the_addresses range_in_key_order stable_sort_by_priority
           Atoi_digits ParseDuration_minutes Scenario.t0 Scenario.clock Scenario.system
           ["8.8.8.8"] ∅ "u" "api" "8.8.8.8" "Mozilla" ∅ ∅ ruleResults
           range_in_key_order_visits stable_sort_permutes Hlisted Heval).
Defined.

(** The hypotheses of [Publish_keeps_what_fits] hold for two refusals
    published to a bus with one subscriber to refusals: its channel holds
    both, in order. *)
Lemma Publish_keeps_what_fits_witness :
  "RateLimitExceeded" <> "*"
  /\ Forall (fun event => EventType event = "RateLimitExceeded") Examples.refusals
  /\ bus_subscribers (foldl Publish Examples.bus Examples.refusals) !! "RateLimitExceeded"
     = Some [Examples.refusals].
Proof.
  assert (Hstar : "RateLimitExceeded" <> "*") by discriminate.
  assert (Hall : Forall (fun event => EventType event = "RateLimitExceeded")
                   Examples.refusals) by (repeat constructor).
  split; [exact Hstar |]. split; [exact Hall |].
  rewrite (Publish_keeps_what_fits Examples.bus Examples.refusals "RateLimitExceeded"
             "RateLimitExceeded" Hstar Hall).
  vm_compute. reflexivity.
Defined.

Lemma forwards_visits : visits_each_once Examples.forwards.
Proof. intros rules. reflexivity. Qed.

Lemma backwards_visits : visits_each_once Examples.backwards.
Proof. intros rules. unfold Examples.backwards. apply reverse_Permutation. Qed.

(** Both rules for the searches have the limit 2 and the window of a
    minute. *)
Lemma two_rules_agree :
  rules_of_resource (sys_rules Examples.two_rules) "search" 2 Minute.
Proof.
  split.
  - exists "rule-2", Examples.two_per_minute. split; [vm_compute |]; reflexivity.
  - intros id rule Hlookup Hresource.
    unfold Examples.two_rules, Examples.system, Scenario.system in Hlookup.
    cbn [withRules sys_rules] in Hlookup.
    repeat (apply lookup_insert_Some in Hlookup as [[_ <-] | [_ Hlookup]];
            [first [by split | discriminate Hresource] |]).
    apply lookup_singleton_Some in Hlookup as [_ <-]. discriminate Hresource.
Qed.

(** The hypotheses of [window_admits_limit_requests] hold for three searches
    of [u] within the minute that starts at [t0], with two rules for the
    searches that agree on two per minute, the rules visited in the order of
    the keys by the first and the third command and in the reverse order by
    the second, and every reading of the clock later than the one before:
    the third search is refused. *)
Lemma window_admits_limit_requests_witness :
  let runs := [Examples.run_at Examples.forwards (Scenario.clock 1);
               Examples.run_at Examples.backwards (Scenario.clock 2);
               Examples.run_at Examples.forwards (Scenario.clock 3)] in
  let sys' := Readings.handleApplyRateLimit_each runs Examples.two_rules Examples.search in
  rules_of_resource (sys_rules Examples.two_rules) "search" 2 Minute
  /\ Readings.GetByResource Examples.forwards (sys_rules Examples.two_rules) "search"
     = [Examples.two_per_minute_again; Examples.two_per_minute]
  /\ Readings.GetByResource Examples.backwards (sys_rules Examples.two_rules) "search"
     = [Examples.two_per_minute; Examples.two_per_minute_again]
  /\ GetEvents (sys_events Examples.two_rules) "u:search" = []
  /\ Forall (inside Scenario.t0 Minute) runs
  /\ len runs <= int_max
  /\ exists event,
       GetEvents (sys_events sys') "u:search" !! 2%nat = Some event
       /\ windowEvent Scenario.t0 (Add Scenario.t0 Minute) 2 2 event.
Proof.
  cbv zeta.
  assert (Hfresh : GetEvents (sys_events Examples.two_rules) "u:search" = [])
    by (vm_compute; reflexivity).
  assert (Hruns : Forall (inside Scenario.t0 Minute)
                    [Examples.run_at Examples.forwards (Scenario.clock 1);
                     Examples.run_at Examples.backwards (Scenario.clock 2);
                     Examples.run_at Examples.forwards (Scenario.clock 3)]).
  { repeat (apply Forall_cons_2; [| try apply Forall_nil_2]);
      (split; [first [exact forwards_visits | exact backwards_visits] |]);
      vm_compute; repeat split; reflexivity. }
  assert (Hlen : len [Examples.run_at Examples.forwards (Scenario.clock 1);
                      Examples.run_at Examples.backwards (Scenario.clock 2);
                      Examples.run_at Examples.forwards (Scenario.clock 3)] <= int_max)
    by (vm_compute; discriminate).
  split; [exact two_rules_agree |]. split; [vm_compute; reflexivity |].
  split; [vm_compute; reflexivity |]. split; [exact Hfresh |].
  split; [exact Hruns |]. split; [exact Hlen |].
  destruct (window_admits_limit_requests Scenario.t0 Examples.two_rules Examples.search
              2 Minute
              [Examples.run_at Examples.forwards (Scenario.clock 1);
               Examples.run_at Examples.backwards (Scenario.clock 2);
               Examples.run_at Examples.forwards (Scenario.clock 3)]
              two_rules_agree ltac:(vm_compute; split; discriminate)
              ltac:(vm_compute; reflexivity) Hfresh Hruns Hlen)
    as (_ & Hevents).
  eexists. split; [vm_compute; reflexivity |].
  apply (Hevents 2%nat). vm_compute. reflexivity.
Defined.

(** The hypotheses of [next_window_keeps_the_count] hold for two searches
    in the minute that starts at [t0], a third in the next minute and two
    more after it, with the two rules and the changing orders as above: the
    third is admitted with a remaining quota of -1, and the two after it
    are refused. *)
Lemma next_window_keeps_the_count_witness :
  let first := [Examples.run_at Examples.forwards (Scenario.clock 1);
                Examples.run_at Examples.backwards (Scenario.clock 2)] in
  let next := Examples.run_at Examples.backwards (Scenario.clock 61) in
  let rest := [Examples.run_at Examples.forwards (Scenario.clock 62);
               Examples.run_at Examples.backwards (Scenario.clock 63)] in
  let sys1 := Readings.handleApplyRateLimit_each first Examples.two_rules Examples.search in
  let sys2 := (Readings.handleApplyRateLimit next sys1 Examples.search).2 in
  let sys3 := Readings.handleApplyRateLimit_each rest sys2 Examples.search in
  rules_of_resource (sys_rules Examples.two_rules) "search" 2 Minute
  /\ Forall (inside Scenario.t0 Minute) first
  /\ Add Scenario.t0 Minute < Readings.run_checkedAt next
  /\ Forall (fun run =>
               visits_each_once (Readings.run_order run)
               /\ Readings.run_checkedAt run
                  <= Add (Truncate (Readings.run_windowEndAt next) Minute) Minute) rest
  /\ exists e es,
       GetEvents (sys_events sys2) "u:search"
       = GetEvents (sys_events sys1) "u:search" ++ [EvApplied e]
       /\ applied_RequestCount e = 3
       /\ applied_RemainingQuota e = -1
       /\ GetEvents (sys_events sys3) "u:search"
          = GetEvents (sys_events sys2) "u:search" ++ map EvExceeded es
       /\ length es = 2%nat.
Proof.
  cbv zeta.
  assert (Hfresh : GetEvents (sys_events Examples.two_rules) "u:search" = [])
    by (vm_compute; reflexivity).
  assert (Hne : [Examples.run_at Examples.forwards (Scenario.clock 1);
                 Examples.run_at Examples.backwards (Scenario.clock 2)] <> [])
    by discriminate.
  assert (Hfirst : Forall (inside Scenario.t0 Minute)
                     [Examples.run_at Examples.forwards (Scenario.clock 1);
                      Examples.run_at Examples.backwards (Scenario.clock 2)]).
  { repeat (apply Forall_cons_2; [| try apply Forall_nil_2]);
      (split; [first [exact forwards_visits | exact backwards_visits] |]);
      vm_compute; repeat split; reflexivity. }
  assert (Hnext : Add Scenario.t0 Minute
                  < Readings.run_checkedAt
                      (Examples.run_at Examples.backwards (Scenario.clock 61)))
    by (vm_compute; reflexivity).
  assert (Hrest : Forall (fun run =>
                            visits_each_once (Readings.run_order run)
                            /\ Readings.run_checkedAt run
                               <= Add (Truncate
                                         (Readings.run_windowEndAt
                                            (Examples.run_at Examples.backwards
                                               (Scenario.clock 61))) Minute) Minute)
                    [Examples.run_at Examples.forwards (Scenario.clock 62);
                     Examples.run_at Examples.backwards (Scenario.clock 63)]).
  { repeat (apply Forall_cons_2; [| try apply Forall_nil_2]);
      (split; [first [exact forwards_visits | exact backwards_visits] |]);
      vm_compute; discriminate. }
  assert (Hlen : len [Examples.run_at Examples.forwards (Scenario.clock 1);
                      Examples.run_at Examples.backwards (Scenario.clock 2)] + 1
                 + len [Examples.run_at Examples.forwards (Scenario.clock 62);
                        Examples.run_at Examples.backwards (Scenario.clock 63)] <= int_max)
    by (vm_compute; discriminate).
  split; [exact two_rules_agree |]. split; [exact Hfirst |]. split; [exact Hnext |].
  split; [exact Hrest |].
  destruct (next_window_keeps_the_count Scenario.t0 Examples.two_rules Examples.search
              2 Minute
              [Examples.run_at Examples.forwards (Scenario.clock 1);
               Examples.run_at Examples.backwards (Scenario.clock 2)]
              (Examples.run_at Examples.backwards (Scenario.clock 61))
              [Examples.run_at Examples.forwards (Scenario.clock 62);
               Examples.run_at Examples.backwards (Scenario.clock 63)]
              two_rules_agree ltac:(vm_compute; split; discriminate)
              ltac:(vm_compute; reflexivity) Hfresh Hne Hfirst backwards_visits
              Hnext Hrest Hlen)
    as (e & Hstream & Hcount & Hquota & _ & _ & Hdenied).
  destruct Hdenied as (es & Hes & Hlength); [vm_compute; discriminate |].
  exists e, es. split; [exact Hstream |]. split; [exact Hcount |].
  split; [exact Hquota |]. split; [exact Hes | exact Hlength].
Defined.
